(** * VAR: class-conditional multi-scale autoregressive transformer

    A shallow embedding of [models/var.py]: the constructor [VAR.__init__]
    (here [VAR_init]), the teacher-forcing pass [VAR.forward], the logit
    head [VAR.get_logits] and the generation loop
    [VAR.autoregressive_infer_cfg].

    Conventions.
    - Python integers are [Z]; tensor sizes and tensor indices are [nat].
    - Python and torch floating-point numbers are modelled by [xreal]:
      exact rationals extended with the two infinities and NaN.  Rounding
      and the sign of zero are not modelled.
    - A tensor is a shape together with an index function; every tensor
      operation written in [var.py] computes the shape torch computes and
      raises where torch raises.
    - Exceptions are values of [exn]; a computation that may raise returns
      [Res]; the stateful methods run in the monad [M], whose state survives
      a raise (as a Python object survives an exception). *)

From Stdlib Require Import ZArith List Bool Lia PeanoNat QArith Qcanon.
Import ListNotations.

Set Implicit Arguments.

(** ** Python exceptions and results *)

Inductive exn : Type :=
| AssertionError
| ZeroDivisionError
| IndexError
| TypeError
| AttributeError
| RuntimeError.

Inductive Res (A : Type) : Type :=
| Ok (a : A)
| Raise (e : exn).
Arguments Ok {A} a.
Arguments Raise {A} e.

Definition rbind {A B} (r : Res A) (k : A -> Res B) : Res B :=
  match r with
  | Ok a => k a
  | Raise e => Raise e
  end.

Definition is_ok {A} (r : Res A) : bool :=
  match r with Ok _ => true | Raise _ => false end.

Declare Scope res_scope.
Delimit Scope res_scope with res.
Notation "x <- c ;; k" := (rbind c (fun x => k))
  (at level 61, c at next level, right associativity) : res_scope.
Notation "' pat <- c ;; k" := (rbind c (fun x => match x with pat => k end))
  (at level 61, pat pattern, c at next level, right associativity) : res_scope.

(** ** Numbers: exact extended rationals *)

Module XReal.

Inductive xreal : Type :=
| Fin (q : Qc)
| PInf
| NInf
| NaN.

Definition xzero : xreal := Fin 0%Qc.
Definition xone : xreal := Fin 1%Qc.
Definition of_Z (z : Z) : xreal := Fin (Q2Qc (inject_Z z)).

Definition xfinite (x : xreal) : bool :=
  match x with Fin _ => true | _ => false end.

Definition xneg (x : xreal) : xreal :=
  match x with
  | Fin q => Fin (- q)%Qc
  | PInf => NInf
  | NInf => PInf
  | NaN => NaN
  end.

Definition xadd (x y : xreal) : xreal :=
  match x, y with
  | NaN, _ | _, NaN => NaN
  | Fin a, Fin b => Fin (a + b)%Qc
  | PInf, NInf | NInf, PInf => NaN
  | PInf, _ | _, PInf => PInf
  | NInf, _ | _, NInf => NInf
  end.

Definition xsub (x y : xreal) : xreal := xadd x (xneg y).

(** The infinity of the given sign ([Gt] positive, [Lt] negative); a zero
    factor gives NaN. *)
Definition inf_of_sign (c : comparison) : xreal :=
  match c with Gt => PInf | Lt => NInf | Eq => NaN end.

Definition xsign (x : xreal) : comparison :=
  match x with
  | Fin q => Qccompare q 0%Qc
  | PInf => Gt
  | NInf => Lt
  | NaN => Eq
  end.

Definition sign_mul (a b : comparison) : comparison :=
  match a, b with
  | Eq, _ | _, Eq => Eq
  | Gt, c | c, Gt => c
  | Lt, Lt => Gt
  end.

Definition xmul (x y : xreal) : xreal :=
  match x, y with
  | NaN, _ | _, NaN => NaN
  | Fin a, Fin b => Fin (a * b)%Qc
  | _, _ => inf_of_sign (sign_mul (xsign x) (xsign y))
  end.

(** [x < y]; every comparison with NaN is false. *)
Definition xltb (x y : xreal) : bool :=
  match x, y with
  | NaN, _ | _, NaN => false
  | Fin a, Fin b => match Qccompare a b with Lt => true | _ => false end
  | NInf, NInf => false
  | NInf, _ => true
  | _, PInf => match x with PInf => false | _ => true end
  | _, _ => false
  end.

Definition xeqb (x y : xreal) : bool :=
  match x, y with
  | Fin a, Fin b => Qc_eq_bool a b
  | PInf, PInf | NInf, NInf => true
  | _, _ => false
  end.

(** Python's [a / b] on floats: a zero divisor raises. *)
Definition py_truediv (x y : xreal) : Res xreal :=
  match y with
  | NaN => Ok NaN
  | Fin b =>
      if Qc_eq_bool b 0%Qc then Raise ZeroDivisionError
      else match x with
           | Fin a => Ok (Fin (a / b)%Qc)
           | NaN => Ok NaN
           | _ => Ok (inf_of_sign (sign_mul (xsign x) (xsign y)))
           end
  | _ => match x with
         | Fin _ => Ok xzero
         | _ => Ok NaN
         end
  end.

(** Python's [a / b] on integers (true division). *)
Definition py_truediv_int (a b : Z) : Res xreal :=
  py_truediv (of_Z a) (of_Z b).

(** Python's [max(a, b)]: the second argument wins only when it is
    strictly greater. *)
Definition py_max (a b : xreal) : xreal := if xltb a b then b else a.

(** A decimal literal [n / d]. *)
Definition lit (n d : Z) : xreal :=
  Fin (Q2Qc (inject_Z n) / Q2Qc (inject_Z d))%Qc.

End XReal.
Export XReal.

(** ** Tensors *)

Module Tensor.
Local Open Scope nat_scope.

(** A tensor of a given shape; [get] is read at in-bounds indices only. *)
Record Tensor (A : Type) : Type := mkT { shape : list nat; get : list nat -> A }.

Definition numel (sh : list nat) : nat := fold_right Nat.mul 1 sh.

Fixpoint in_bounds (sh idx : list nat) : bool :=
  match sh, idx with
  | [], [] => true
  | n :: sh', i :: idx' => (i <? n) && in_bounds sh' idx'
  | _, _ => false
  end.

(** All indices of a shape, in row-major order. *)
Fixpoint all_idx (sh : list nat) : list (list nat) :=
  match sh with
  | [] => [[]]
  | n :: sh' => flat_map (fun i => map (cons i) (all_idx sh')) (seq 0 n)
  end.

Definition tforall {A} (p : A -> bool) (t : Tensor A) : bool :=
  forallb (fun idx => p (get t idx)) (all_idx (shape t)).

(** [torch.full(shape, v)] *)
Definition full {A} (sh : list nat) (v : A) : Tensor A := mkT sh (fun _ => v).

Definition tmap {A B} (f : A -> B) (t : Tensor A) : Tensor B :=
  mkT (shape t) (fun idx => f (get t idx)).

(** *** Lists of sizes and indices *)

Fixpoint upd (k : nat) (v : nat) (l : list nat) : list nat :=
  match l, k with
  | [], _ => []
  | _ :: r, O => v :: r
  | x :: r, S k' => x :: upd k' v r
  end.

Definition remove_at (k : nat) (l : list nat) : list nat :=
  firstn k l ++ skipn (S k) l.

Definition insert_at (k : nat) (v : nat) (l : list nat) : list nat :=
  firstn k l ++ v :: skipn k l.

Definition swap (k1 k2 : nat) (l : list nat) : list nat :=
  upd k1 (nth k2 l 0) (upd k2 (nth k1 l 0) l).

(** *** Slicing, selecting, reshaping *)

(** [t[..., lo:hi, ...]] on axis [k], bounds clamped as Python does. *)
Definition slice_axis {A} (k lo hi : nat) (t : Tensor A) : Res (Tensor A) :=
  if k <? length (shape t) then
    let n := nth k (shape t) 0 in
    let lo' := Nat.min lo n in
    let hi' := Nat.min hi n in
    Ok (mkT (upd k (hi' - lo') (shape t))
            (fun idx => get t (upd k (nth k idx 0 + lo') idx)))
  else Raise IndexError.

(** [t[..., i, ...]] on axis [k]: the axis disappears. *)
Definition select_axis {A} (k i : nat) (t : Tensor A) : Res (Tensor A) :=
  if (k <? length (shape t)) && (i <? nth k (shape t) 0) then
    Ok (mkT (remove_at k (shape t)) (fun idx => get t (insert_at k i idx)))
  else Raise IndexError.

(** [t.unsqueeze(k)] *)
Definition unsqueeze {A} (k : nat) (t : Tensor A) : Res (Tensor A) :=
  if k <=? length (shape t) then
    Ok (mkT (insert_at k 1 (shape t)) (fun idx => get t (remove_at k idx)))
  else Raise IndexError.

(** [t.transpose(k1, k2)] *)
Definition transpose {A} (k1 k2 : nat) (t : Tensor A) : Res (Tensor A) :=
  if (k1 <? length (shape t)) && (k2 <? length (shape t)) then
    Ok (mkT (swap k1 k2 (shape t)) (fun idx => get t (swap k1 k2 idx)))
  else Raise IndexError.

Fixpoint ravel (sh idx : list nat) : nat :=
  match sh, idx with
  | _ :: sh', i :: idx' => i * numel sh' + ravel sh' idx'
  | _, _ => 0
  end.

Fixpoint unravel (sh : list nat) (k : nat) : list nat :=
  match sh with
  | [] => []
  | _ :: sh' => (k / numel sh') :: unravel sh' (k mod numel sh')
  end.

(** [t.reshape(sh)] / [t.view(sh)] with every size given. *)
Definition reshape {A} (sh : list nat) (t : Tensor A) : Res (Tensor A) :=
  if numel sh =? numel (shape t) then
    Ok (mkT sh (fun idx => get t (unravel (shape t) (ravel sh idx))))
  else Raise RuntimeError.

(** [t.view(pre..., -1)]: the last size is inferred. *)
Definition view_infer_last {A} (pre : list nat) (t : Tensor A) : Res (Tensor A) :=
  let p := numel pre in
  let n := numel (shape t) in
  if (p =? 0) || negb (n mod p =? 0) then Raise RuntimeError
  else reshape (pre ++ [n / p]) t.

(** [t.expand(sizes)] for as many sizes as [t] has axes; [None] is [-1]. *)
Fixpoint expand_shape (sh : list nat) (sizes : list (option nat)) : Res (list nat) :=
  match sh, sizes with
  | [], [] => Ok []
  | n :: sh', s :: sizes' =>
      match expand_shape sh' sizes' with
      | Raise e => Raise e
      | Ok r =>
          match s with
          | None => Ok (n :: r)
          | Some m => if (n =? m) || (n =? 1) then Ok (m :: r) else Raise RuntimeError
          end
      end
  | _, _ => Raise RuntimeError
  end.

Fixpoint bpick (sh idx : list nat) : list nat :=
  match sh, idx with
  | n :: sh', i :: idx' => (if n =? 1 then 0 else i) :: bpick sh' idx'
  | _, _ => []
  end.

Definition expand {A} (sizes : list (option nat)) (t : Tensor A) : Res (Tensor A) :=
  match expand_shape (shape t) sizes with
  | Ok s => Ok (mkT s (fun idx => get t (bpick (shape t) idx)))
  | Raise e => Raise e
  end.

(** *** Broadcasting element-wise operations *)

Definition pad_left (n : nat) (s : list nat) : list nat :=
  repeat 1 (n - length s) ++ s.

Fixpoint bzip (s1 s2 : list nat) : Res (list nat) :=
  match s1, s2 with
  | [], [] => Ok []
  | a :: r1, b :: r2 =>
      match bzip r1 r2 with
      | Raise e => Raise e
      | Ok r =>
          if a =? b then Ok (a :: r)
          else if a =? 1 then Ok (b :: r)
          else if b =? 1 then Ok (a :: r)
          else Raise RuntimeError
      end
  | _, _ => Raise RuntimeError
  end.

Definition bcast_shape (s1 s2 : list nat) : Res (list nat) :=
  let n := Nat.max (length s1) (length s2) in
  bzip (pad_left n s1) (pad_left n s2).

(** The index read in an operand of shape [s] for the result index [idx]. *)
Definition bcast_idx (s idx : list nat) : list nat :=
  bpick s (skipn (length idx - length s) idx).

Definition bop {A B C} (f : A -> B -> C) (a : Tensor A) (b : Tensor B)
  : Res (Tensor C) :=
  match bcast_shape (shape a) (shape b) with
  | Ok s => Ok (mkT s (fun idx => f (get a (bcast_idx (shape a) idx))
                                    (get b (bcast_idx (shape b) idx))))
  | Raise e => Raise e
  end.

(** In-place [x op= y]: the broadcast result must have the shape of [x]. *)
Definition iop {A B} (f : A -> B -> A) (x : Tensor A) (y : Tensor B)
  : Res (Tensor A) :=
  match bop f x y with
  | Ok r => if list_eq_dec Nat.eq_dec (shape r) (shape x) then Ok r
            else Raise RuntimeError
  | Raise e => Raise e
  end.

(** [x[idx] = f(x[idx])] for a full integer index. *)
Definition update_at {A} (idx : list nat) (f : A -> A) (x : Tensor A)
  : Res (Tensor A) :=
  if in_bounds (shape x) idx then
    Ok (mkT (shape x)
            (fun j => if list_eq_dec Nat.eq_dec j idx then f (get x j) else get x j))
  else Raise IndexError.

(** [x[idx]] for a full integer index. *)
Definition item {A} (idx : list nat) (x : Tensor A) : Res A :=
  if in_bounds (shape x) idx then Ok (get x idx) else Raise IndexError.

(** [torch.cat((a, b), dim=k)] *)
Definition cat {A} (k : nat) (a b : Tensor A) : Res (Tensor A) :=
  if (k <? length (shape a))
     && if list_eq_dec Nat.eq_dec (upd k 0 (shape a)) (upd k 0 (shape b))
        then true else false
  then
    let na := nth k (shape a) 0 in
    Ok (mkT (upd k (na + nth k (shape b) 0) (shape a))
            (fun idx => if nth k idx 0 <? na then get a idx
                        else get b (upd k (nth k idx 0 - na) idx)))
  else Raise RuntimeError.

(** [torch.cat(ts, dim=k)] of a list; the empty list raises. *)
Fixpoint cat_list {A} (k : nat) (t : Tensor A) (ts : list (Tensor A))
  : Res (Tensor A) :=
  match ts with
  | [] => Ok t
  | t' :: ts' => rbind (cat k t t') (fun u => cat_list k u ts')
  end.

End Tensor.
Export Tensor.

(** [t.reshape(sizes)] where one size may be [-1] ([None]). *)
Definition reshape_infer {A} (sizes : list (option nat)) (t : Tensor A)
  : Res (Tensor A) :=
  let known := fold_right (fun s acc => match s with Some n => n * acc | None => acc end)%nat
                          1%nat sizes in
  let holes := length (filter (fun s => match s with None => true | _ => false end) sizes) in
  let n := numel (shape t) in
  match holes with
  | O => reshape (map (fun s => match s with Some m => m | None => O end) sizes) t
  | S O =>
      if (known =? 0)%nat || negb (n mod known =? 0)%nat then Raise RuntimeError
      else reshape (map (fun s => match s with Some m => m | None => (n / known)%nat end)
                        sizes) t
  | _ => Raise RuntimeError
  end.

(** [nn.Embedding]: row lookup, out-of-range indices raise. *)
Definition embedding (table : Tensor xreal) (idx : Tensor Z) : Res (Tensor xreal) :=
  match shape table with
  | [n; c] =>
      if tforall (fun z => (0 <=? z)%Z && (z <? Z.of_nat n)%Z) idx then
        Ok (mkT (shape idx ++ [c])
                (fun i => get table [Z.to_nat (get idx (removelast i)); last i O]))
      else Raise IndexError
  | _ => Raise RuntimeError
  end.

(** Sum of [f 0 .. f (n-1)], accumulated from the left. *)
Definition xsum (n : nat) (f : nat -> xreal) : xreal :=
  fold_left (fun acc k => xadd acc (f k)) (seq 0 n) xzero.

(** [nn.Linear]: [y = x W^T + b], on the last axis of [x]. *)
Definition linear (w b x : Tensor xreal) : Res (Tensor xreal) :=
  match shape w with
  | [o; i] =>
      if (last (shape x) O =? i)%nat && negb (length (shape x) =? 0)%nat then
        Ok (mkT (removelast (shape x) ++ [o])
                (fun idx =>
                   xadd (xsum i (fun k => xmul (get x (removelast idx ++ [k]))
                                               (get w [last idx O; k])))
                        (get b [last idx O])))
      else Raise RuntimeError
  | _ => Raise RuntimeError
  end.

(** [a @ b] for a rank-3 [a] and a rank-3 [b] whose batch axis broadcasts. *)
Definition matmul3 (a b : Tensor xreal) : Res (Tensor xreal) :=
  match shape a, shape b with
  | [ba; l; v], [bb; v'; c] =>
      if (v =? v')%nat && ((ba =? bb)%nat || (bb =? 1)%nat || (ba =? 1)%nat) then
        Ok (mkT [if (ba =? 1)%nat then bb else ba; l; c]
                (fun idx =>
                   match idx with
                   | [n; i; j] =>
                       xsum v (fun k =>
                         xmul (get a [if (ba =? 1)%nat then O else n; i; k])
                              (get b [if (bb =? 1)%nat then O else n; k; j]))
                   | _ => NaN
                   end))
      else Raise RuntimeError
  | _, _ => Raise RuntimeError
  end.

Definition check (b : bool) (e : exn) : Res unit := if b then Ok tt else Raise e.

Definition xleb (x y : xreal) : bool := xltb x y || xeqb x y.

(** Python's [enumerate]. *)
Definition enumerate {A} (l : list A) : list (nat * A) := combine (seq 0 (length l)) l.

(** ** The collaborators

    The random generators, the sampling helpers ([models/helpers.py]), the
    vector quantiser ([models/vae.py]), the transformer blocks
    ([models/basic.py]) and the head normalisation ([models/head.py]) are
    not part of [var.py]; the development is parametric in them. *)

(** What a block hands to the next one: a token map, or a token map with
    its residual when the block fuses the residual addition. *)
Inductive hidden : Type :=
| Plain (h : Tensor xreal)
| Fused (h resi : Tensor xreal).

(** Modelled from the spec: the key/value cache of a block's attention
    ([SelfAttention] of [models/basic.py], not under [src/]).  A flag says
    whether caching is enabled; the cache holds what the stages so far
    appended. *)
Record AttnState (KV : Type) : Type := { caching : bool; cached : list KV }.

Class Env : Type := {
  (** State of a [torch.Generator]; [rng_fresh] is a newly created one,
      [manual_seed s] the state after [manual_seed(s)], [rng_uniform] one
      uniform draw. *)
  rng_state : Type;
  rng_fresh : rng_state;
  manual_seed : Z -> rng_state;
  rng_uniform : rng_state -> xreal * rng_state;
  (** [torch.multinomial(probs, num_samples, replacement=True, generator)] *)
  torch_multinomial : Tensor xreal -> nat -> rng_state -> Tensor Z * rng_state;
  (** [sample_with_top_k_top_p_(logits, rng, top_k, top_p, num_samples=1)]:
      the indices, and the logits as the helper leaves them (its name ends
      in an underscore: it may filter them in place). *)
  sample_with_top_k_top_p_ :
    Tensor xreal -> Z -> xreal -> rng_state -> (Tensor Z * Tensor xreal) * rng_state;
  (** [gumbel_softmax_with_rng(logits, tau, hard=False, dim=-1, rng)] *)
  gumbel_softmax_with_rng :
    Tensor xreal -> xreal -> rng_state -> Tensor xreal * rng_state;
  (** [VectorQuantizer2.get_next_autoregressive_input(si, SN, f_hat, h_BChw)] *)
  get_next_autoregressive_input :
    nat -> nat -> Tensor xreal -> Tensor xreal -> Tensor xreal * Tensor xreal;
  (** The weight of [self.vae_quant_proxy[0].embedding]. *)
  vq_embedding_weight : Tensor xreal;
  (** [nn.SiLU] on one number. *)
  silu : xreal -> xreal;
  (** What a block caches per stage. *)
  KV : Type;
  (** Block [block_idx] applied as [b(x=x, cond_BD=c, attn_bias=bias)]. *)
  block_forward :
    nat -> AttnState KV -> hidden -> Tensor xreal -> option (Tensor xreal)
    -> AttnState KV * hidden;
  (** [b.fused_add_norm_fn is not None] and [b.drop_path] of block [block_idx]. *)
  block_fused : nat -> bool;
  block_drop_path : nat -> Tensor xreal -> Tensor xreal;
  (** [self.head_nm(h, cond_BD)] and [self.head(h)]. *)
  head_nm : Tensor xreal -> Tensor xreal -> Tensor xreal;
  head : Tensor xreal -> Tensor xreal
}.

(** ** The model *)

Section Model.
Context {E : Env}.
Local Open Scope nat_scope.
Local Open Scope res_scope.

(** Modelled from the spec: [attn.kv_caching(enable)] of [models/basic.py].
    The flag enables or disables caching; disabling clears the cache. *)
Definition kv_caching (enable : bool) (s : AttnState KV) : AttnState KV :=
  {| caching := enable; cached := if enable then cached s else [] |}.

(** Modelled from the spec: a block is built with caching disabled and an
    empty cache. *)
Definition attn_idle : AttnState KV := {| caching := false; cached := [] |}.

(** *** The object *)

Inductive gamma2 : Type :=
| GammaOne
| GammaVec (g : Tensor xreal).

Record VAR : Type := {
  Cvae : nat; V : nat;
  depth : nat; C : nat; D : nat; num_heads : nat;
  using_aln : bool; layer_scale : xreal;
  cond_drop_rate : xreal;
  prog_si : Z;
  patch_nums : list nat;
  L : nat;
  first_l : nat;
  begin_ends : list (nat * nat);
  num_stages_minus_1 : nat;
  rng : rng_state;
  word_embed : Tensor xreal * Tensor xreal;
  num_classes : nat;
  selecting_idx : Tensor xreal;
  class_emb : Tensor xreal;
  pos_start : Tensor xreal;
  pos_1LC : Tensor xreal;
  lvl_embed : Tensor xreal;
  shared_ada_lin : option (Tensor xreal * Tensor xreal);
  blocks : list (AttnState KV);
  gamma2_last : option gamma2;
  lvl_1L : Tensor Z;
  attn_bias_for_masking : Tensor xreal
}.

(** *** Construction: [VAR.__init__] *)

(** What the constructor reads of [vae_local]. *)
Record VAEInfo : Type := { vae_Cvae : nat; vae_vocab_size : nat }.

(** The constructor's arguments that [var.py] itself uses. *)
Record Config : Type := {
  arg_num_classes : nat;
  arg_aln : xreal;
  arg_shared_aln : bool;
  arg_cond_drop_rate : xreal;
  arg_depth : nat;
  arg_embed_dim : nat;
  arg_num_heads : nat;
  arg_layer_scale : xreal;
  arg_patch_nums : list nat
}.

(** The values the initialisers ([trunc_normal_], [nn.Linear], ...) draw,
    as index functions; the constructor fixes the shapes. *)
Record Init : Type := {
  init_word_embed_w : list nat -> xreal;
  init_word_embed_b : list nat -> xreal;
  init_class_emb : list nat -> xreal;
  init_pos_start : list nat -> xreal;
  init_pe : nat -> list nat -> xreal;
  init_lvl_embed : list nat -> xreal;
  init_ada_w : list nat -> xreal;
  init_ada_b : list nat -> xreal
}.

(** [sum(pn ** 2 for pn in patch_nums)] *)
Definition sum_sq (pns : list nat) : nat :=
  fold_left Nat.add (map (fun pn => pn ^ 2) pns) 0.

(** The loop filling [begin_ends], started at [cur]. *)
Fixpoint begin_ends_from (cur : nat) (pns : list nat) : list (nat * nat) :=
  match pns with
  | [] => []
  | pn :: rest => (cur, cur + pn ^ 2) :: begin_ends_from (cur + pn ^ 2) rest
  end.

Definition cat_nonempty {A} (k : nat) (ts : list (Tensor A)) : Res (Tensor A) :=
  match ts with
  | [] => Raise RuntimeError
  | t :: ts' => cat_list k t ts'
  end.

Definition shape_eqb (s1 s2 : list nat) : bool :=
  if list_eq_dec Nat.eq_dec s1 s2 then true else false.

(** Lines 70-76: the absolute position embedding [pos_1LC]. *)
Definition position_embedding (pns : list nat) (l embed_dim : nat) (ini : Init)
  : Res (Tensor xreal) :=
  pos <- cat_nonempty 1 (map (fun ipn => mkT [1; snd ipn * snd ipn; embed_dim]
                                            (init_pe ini (fst ipn)))
                             (enumerate pns)) ;;
  _ <- check (shape_eqb (shape pos) [1; l; embed_dim]) AssertionError ;;
  Ok pos.

(** Lines 121-126: the level of every position, and the attention mask. *)
Definition mask_buffers (pns : list nat) (l : nat) : Res (Tensor Z * Tensor xreal) :=
  d0 <- cat_nonempty 0 (map (fun ipn => full [snd ipn * snd ipn] (Z.of_nat (fst ipn)))
                            (enumerate pns)) ;;
  d <- reshape [1; l; 1] d0 ;;
  dT <- transpose 1 2 d ;;
  lvl <- select_axis 1 0 dT ;;
  ge <- bop Z.geb d dT ;;
  bias <- reshape [1; 1; l; l] (tmap (fun c : bool => if c then xzero else NInf) ge) ;;
  Ok (lvl, bias).

Definition VAR_init (vae : VAEInfo) (cfg : Config) (ini : Init) : Res VAR :=
  let embed_dim := arg_embed_dim cfg in
  _ <- (if arg_num_heads cfg =? 0 then Raise ZeroDivisionError
        else check (embed_dim mod arg_num_heads cfg =? 0) AssertionError) ;;
  let pns := arg_patch_nums cfg in
  let l := sum_sq pns in
  pn0 <- match pns with [] => Raise IndexError | pn :: _ => Ok pn end ;;
  let fl := pn0 ^ 2 in
  let nc := arg_num_classes cfg in
  (* line 61: [init_std = math.sqrt(1 / self.C / 3)] *)
  _ <- py_truediv_int 1 (Z.of_nat embed_dim) ;;
  p <- py_truediv_int 1 (Z.of_nat nc) ;;
  pos <- position_embedding pns l embed_dim ini ;;
  let ual := xleb xzero (arg_aln cfg) in
  _ <- check (negb (arg_depth cfg =? 0)) IndexError ;;
  bufs <- mask_buffers pns l ;;
  Ok {| Cvae := vae_Cvae vae; V := vae_vocab_size vae;
        depth := arg_depth cfg; C := embed_dim; D := embed_dim;
        num_heads := arg_num_heads cfg;
        using_aln := ual; layer_scale := arg_layer_scale cfg;
        cond_drop_rate := arg_cond_drop_rate cfg;
        prog_si := (-1)%Z;
        patch_nums := pns;
        L := l;
        first_l := fl;
        begin_ends := begin_ends_from 0 pns;
        num_stages_minus_1 := length pns - 1;
        rng := rng_fresh;
        word_embed := (mkT [embed_dim; vae_Cvae vae] (init_word_embed_w ini),
                       mkT [embed_dim] (init_word_embed_b ini));
        num_classes := nc;
        selecting_idx := full [1; nc] p;
        class_emb := mkT [nc + 1; embed_dim] (init_class_emb ini);
        pos_start := mkT [1; fl; embed_dim] (init_pos_start ini);
        pos_1LC := pos;
        lvl_embed := mkT [length pns; embed_dim] (init_lvl_embed ini);
        shared_ada_lin :=
          if arg_shared_aln cfg && ual
          then Some (mkT [6 * embed_dim; embed_dim] (init_ada_w ini),
                     mkT [6 * embed_dim] (init_ada_b ini))
          else None;
        blocks := repeat attn_idle (arg_depth cfg);
        gamma2_last :=
          if block_fused (arg_depth cfg - 1)
          then Some (if xleb xzero (arg_layer_scale cfg)
                     then GammaVec (full [embed_dim] (xmul (arg_layer_scale cfg) xone))
                     else GammaOne)
          else None;
        lvl_1L := fst bufs;
        attn_bias_for_masking := snd bufs |}.

Definition set_rng (g : rng_state) (m : VAR) : VAR :=
  {| Cvae := Cvae m; V := V m; depth := depth m; C := C m; D := D m;
     num_heads := num_heads m; using_aln := using_aln m;
     layer_scale := layer_scale m; cond_drop_rate := cond_drop_rate m;
     prog_si := prog_si m; patch_nums := patch_nums m; L := L m;
     first_l := first_l m; begin_ends := begin_ends m;
     num_stages_minus_1 := num_stages_minus_1 m;
     rng := g;
     word_embed := word_embed m; num_classes := num_classes m;
     selecting_idx := selecting_idx m; class_emb := class_emb m;
     pos_start := pos_start m; pos_1LC := pos_1LC m; lvl_embed := lvl_embed m;
     shared_ada_lin := shared_ada_lin m; blocks := blocks m;
     gamma2_last := gamma2_last m; lvl_1L := lvl_1L m;
     attn_bias_for_masking := attn_bias_for_masking m |}.

Definition set_blocks (bs : list (AttnState KV)) (m : VAR) : VAR :=
  {| Cvae := Cvae m; V := V m; depth := depth m; C := C m; D := D m;
     num_heads := num_heads m; using_aln := using_aln m;
     layer_scale := layer_scale m; cond_drop_rate := cond_drop_rate m;
     prog_si := prog_si m; patch_nums := patch_nums m; L := L m;
     first_l := first_l m; begin_ends := begin_ends m;
     num_stages_minus_1 := num_stages_minus_1 m;
     rng := rng m;
     word_embed := word_embed m; num_classes := num_classes m;
     selecting_idx := selecting_idx m; class_emb := class_emb m;
     pos_start := pos_start m; pos_1LC := pos_1LC m; lvl_embed := lvl_embed m;
     shared_ada_lin := shared_ada_lin m; blocks := bs;
     gamma2_last := gamma2_last m; lvl_1L := lvl_1L m;
     attn_bias_for_masking := attn_bias_for_masking m |}.

(** [self.prog_si = k], as the trainer sets it. *)
Definition set_prog_si (k : Z) (m : VAR) : VAR :=
  {| Cvae := Cvae m; V := V m; depth := depth m; C := C m; D := D m;
     num_heads := num_heads m; using_aln := using_aln m;
     layer_scale := layer_scale m; cond_drop_rate := cond_drop_rate m;
     prog_si := k; patch_nums := patch_nums m; L := L m;
     first_l := first_l m; begin_ends := begin_ends m;
     num_stages_minus_1 := num_stages_minus_1 m;
     rng := rng m;
     word_embed := word_embed m; num_classes := num_classes m;
     selecting_idx := selecting_idx m; class_emb := class_emb m;
     pos_start := pos_start m; pos_1LC := pos_1LC m; lvl_embed := lvl_embed m;
     shared_ada_lin := shared_ada_lin m; blocks := blocks m;
     gamma2_last := gamma2_last m; lvl_1L := lvl_1L m;
     attn_bias_for_masking := attn_bias_for_masking m |}.

(** *** The state of a call

    A method runs on the model object and on the process-wide default
    generator.  A raise leaves both as they are at the raise. *)

Record World : Type := { self : VAR; ambient : rng_state }.

Definition M (A : Type) : Type := World -> World * Res A.

Definition mret {A} (a : A) : M A := fun w => (w, Ok a).

Definition mbind {A B} (c : M A) (k : A -> M B) : M B :=
  fun w => match c w with
           | (w', Ok a) => k a w'
           | (w', Raise e) => (w', Raise e)
           end.

Definition lift {A} (r : Res A) : M A := fun w => (w, r).

Definition get_self : M VAR := fun w => (w, Ok (self w)).

Definition modify_self (f : VAR -> VAR) : M unit :=
  fun w => ({| self := f (self w); ambient := ambient w |}, Ok tt).

(** The generator a helper is given: [rng=None] is the default generator,
    [rng=self.rng] the model's own. *)
Inductive rng_sel : Type := DefaultRng | SelfRng.

Definition with_rng {A} (sel : rng_sel) (f : rng_state -> A * rng_state) : M A :=
  fun w =>
    match sel with
    | DefaultRng =>
        let (a, g) := f (ambient w) in
        ({| self := self w; ambient := g |}, Ok a)
    | SelfRng =>
        let (a, g) := f (rng (self w)) in
        ({| self := set_rng g (self w); ambient := ambient w |}, Ok a)
    end.

Declare Scope m_scope.
Delimit Scope m_scope with M.
Notation "x <- c ;; k" := (mbind c (fun x => k))
  (at level 61, c at next level, right associativity) : m_scope.
Notation "' pat <- c ;; k" := (mbind c (fun x => match x with pat => k end))
  (at level 61, pat pattern, c at next level, right associativity) : m_scope.

(** *** Pieces shared by the two passes *)

(** [n] successive uniform draws. *)
Fixpoint draws (n : nat) (g : rng_state) : list xreal * rng_state :=
  match n with
  | O => ([], g)
  | S n' =>
      let (x, g1) := rng_uniform g in
      let (xs, g2) := draws n' g1 in
      (x :: xs, g2)
  end.

(** The generator state after [k] draws. *)
Fixpoint rng_after (k : nat) (g : rng_state) : rng_state :=
  match k with
  | O => g
  | S k' => rng_after k' (snd (rng_uniform g))
  end.

(** [torch.rand(B)]: one draw per entry. *)
Definition torch_rand (B : nat) (g : rng_state) : Tensor xreal * rng_state :=
  let (xs, g') := draws B g in
  (mkT [B] (fun idx => nth (nth 0 idx 0) xs NaN), g').

(** [SharedAdaLin.forward] after [nn.SiLU], or [nn.Identity]. *)
Definition shared_ada_lin_forward (m : VAR) (cond_BD : Tensor xreal)
  : Res (Tensor xreal) :=
  match shared_ada_lin m with
  | None => Ok cond_BD
  | Some (w, b) =>
      let c := nth 0 (shape w) 0 / 6 in
      y <- linear w b (tmap silu cond_BD) ;;
      reshape_infer [None; Some 1; Some 6; Some c] y
  end.

(** [for b in self.blocks: x = b(x=x, cond_BD=c, attn_bias=bias)],
    from block index [i] on. *)
Fixpoint run_blocks (i : nat) (bs : list (AttnState KV)) (x : hidden)
    (c : Tensor xreal) (bias : option (Tensor xreal))
  : list (AttnState KV) * hidden :=
  match bs with
  | [] => ([], x)
  | s :: rest =>
      let (s', x') := block_forward i s x c bias in
      let (rest', x'') := run_blocks (S i) rest x' c bias in
      (s' :: rest', x'')
  end.

Definition call_blocks (x : hidden) (c : Tensor xreal) (bias : option (Tensor xreal))
  : M hidden :=
  fun w =>
    let (bs, y) := run_blocks 0 (blocks (self w)) x c bias in
    ({| self := set_blocks bs (self w); ambient := ambient w |}, Ok y).

Definition scale (s : xreal) (t : Tensor xreal) : Tensor xreal :=
  tmap (fun v => xmul v s) t.

(** [VAR.get_logits] *)
Definition get_logits (m : VAR) (h_or_h_and_residual : hidden)
    (cond_BD : Tensor xreal) (tau : xreal) : Res (Tensor xreal) :=
  h <- match h_or_h_and_residual with
       | Fused h resi =>
           let dp := block_drop_path (length (blocks m) - 1) h in
           g <- match gamma2_last m with
                | None => Raise TypeError
                | Some GammaOne => Ok (tmap (xmul xone) dp)
                | Some (GammaVec gv) => bop xmul gv dp
                end ;;
           bop xadd resi g
       | Plain h => Ok h
       end ;;
  let y := head (head_nm h cond_BD) in
  inv_tau <- py_truediv xone tau ;;
  Ok (scale inv_tau y).

(** *** Teacher forcing: [VAR.forward] *)

(** Line 221: the active prefix [(bg, ed)]. *)
Definition active_range (m : VAR) : Res (nat * nat) :=
  if (0 <=? prog_si m)%Z
  then match nth_error (begin_ends m) (Z.to_nat (prog_si m)) with
       | Some be => Ok be
       | None => Raise IndexError
       end
  else Ok (0, L m).

(** Line 224: [torch.where(u < cond_drop_rate, num_classes, label_B)]. *)
Definition drop_labels (m : VAR) (u : Tensor xreal) (label_B : Tensor Z)
  : Res (Tensor Z) :=
  bop (fun (drop : bool) (lbl : Z) => if drop then Z.of_nat (num_classes m) else lbl)
      (tmap (fun v => xltb v (cond_drop_rate m)) u) label_B.

(** What [forward] hands to the blocks. *)
Record BlockInput : Type := {
  in_x_BLC : Tensor xreal;
  in_attn_bias : Tensor xreal;
  in_cond_BD : Tensor xreal;
  in_cond_BD_or_gss : Tensor xreal;
  in_label_B : Tensor Z
}.

(** Lines 221-241 of [forward]: what the blocks are given. *)
Definition forward_prepare (label_B : Tensor Z) (x_BLCv_wo_first_l : Tensor xreal)
  : M BlockInput :=
  (m <- get_self ;;
   ' (bg, ed) <- lift (active_range m) ;;
   B <- lift (match shape x_BLCv_wo_first_l with
              | b :: _ => Ok b
              | [] => Raise IndexError
              end) ;;
   u <- with_rng DefaultRng (torch_rand B) ;;
   label_B <- lift (drop_labels m u label_B) ;;
   cond_BD <- lift (embedding (class_emb m) label_B) ;;
   sos <- lift (s1 <- unsqueeze 1 cond_BD ;;
                s2 <- expand [Some B; Some (first_l m); None] s1 ;;
                p2 <- expand [Some B; Some (first_l m); None] (pos_start m) ;;
                bop xadd s2 p2)%res ;;
   x_BLC <- lift (if (prog_si m =? 0)%Z then Ok sos
                  else (we <- linear (fst (word_embed m)) (snd (word_embed m))
                                     x_BLCv_wo_first_l ;;
                        cat 1 sos we)%res) ;;
   x_BLC <- lift (lv <- slice_axis 1 0 ed (lvl_1L m) ;;
                  lv <- expand [Some B; None] lv ;;
                  le <- embedding (lvl_embed m) lv ;;
                  ps <- slice_axis 1 0 ed (pos_1LC m) ;;
                  lp <- bop xadd le ps ;;
                  iop xadd x_BLC lp)%res ;;
   attn_bias <- lift (a <- slice_axis 2 0 ed (attn_bias_for_masking m) ;;
                      slice_axis 3 0 ed a)%res ;;
   cond_BD_or_gss <- lift (shared_ada_lin_forward m cond_BD) ;;
   mret {| in_x_BLC := x_BLC; in_attn_bias := attn_bias; in_cond_BD := cond_BD;
           in_cond_BD_or_gss := cond_BD_or_gss; in_label_B := label_B |})%M.

(** The body of [forward] up to and including [get_logits]. *)
Definition forward_logits (label_B : Tensor Z) (x_BLCv_wo_first_l : Tensor xreal)
  : M (Tensor xreal) :=
  (i <- forward_prepare label_B x_BLCv_wo_first_l ;;
   y <- call_blocks (Plain (in_x_BLC i)) (in_cond_BD_or_gss i) (Some (in_attn_bias i)) ;;
   x_BLC <- lift (match y with
                  | Plain h => Ok h
                  | Fused _ _ => Raise AttributeError
                  end) ;;
   m <- get_self ;;
   lift (get_logits m (Plain x_BLC) (in_cond_BD i) xone))%M.

(** The addition of [forward] when [prog_si == 0]:
    [x_BLC[0, 0, 0] += weight[0, 0] * 0 + bias[0] * 0]. *)
Definition keep_alive (m : VAR) (x_BLC : Tensor xreal) : Res (Tensor xreal) :=
  _ <- item [0; 0; 0] x_BLC ;;
  w00 <- item [0; 0] (fst (word_embed m)) ;;
  b0 <- item [0] (snd (word_embed m)) ;;
  update_at [0; 0; 0]
            (fun v => xadd v (xadd (xmul w00 (of_Z 0)) (xmul b0 (of_Z 0)))) x_BLC.

Definition forward (label_B : Tensor Z) (x_BLCv_wo_first_l : Tensor xreal)
  : M (Tensor xreal) :=
  (x_BLC <- forward_logits label_B x_BLCv_wo_first_l ;;
   m <- get_self ;;
   if (prog_si m =? 0)%Z then lift (keep_alive m x_BLC) else mret x_BLC)%M.

(** *** Generation: [VAR.autoregressive_infer_cfg] *)

(** The [label_B] argument: an integer or a tensor of labels. *)
Inductive label_arg : Type :=
| LabelInt (z : Z)
| LabelTensor (t : Tensor Z).

(** One entry of the returned list. *)
Inductive stage_out : Type :=
| OutIdx (idx_Bl : Tensor Z)
| OutEmb (h_BChw : Tensor xreal).

(** The variables of the stage loop. *)
Record LoopState : Type := {
  cur_L : nat;
  ret : list stage_out;
  f_hat : Tensor xreal;
  cur_token_map : Tensor xreal
}.

(** What a stage computed on the way, kept for the statements below: the
    guidance ratio [t], the logits [get_logits] returned and the logits
    handed to the sampler. *)
Record StageLog : Type := {
  log_si : nat;
  log_t : xreal;
  log_raw : Tensor xreal;
  log_sampled : Tensor xreal
}.

(** [(1+t) * logits_BlV[:B] - t * logits_BlV[B:]] *)
Definition cfg_merge (B : nat) (t : xreal) (logits_BlV : Tensor xreal)
  : Res (Tensor xreal) :=
  lc <- slice_axis 0 0 B logits_BlV ;;
  lu <- slice_axis 0 B (nth 0 (shape logits_BlV) 0) logits_BlV ;;
  bop xsub (tmap (xmul (xadd xone t)) lc) (tmap (xmul t) lu).

Definition kv_caching_all (enable : bool) : M unit :=
  modify_self (fun m => set_blocks (map (kv_caching enable) (blocks m)) m).

(** The seeds [torch.Generator.manual_seed] accepts: the inclusive range
    [-0x8000_0000_0000_0000, 0xffff_ffff_ffff_ffff]; any other integer raises
    RuntimeError. *)
Definition seed_accepted (s : Z) : bool :=
  ((- 2 ^ 63 <=? s) && (s <=? 2 ^ 64 - 1))%Z.

(** Lines 163-164: the generator the call uses. *)
Definition resolve_rng (g_seed : option Z) : M rng_sel :=
  match g_seed with
  | None => mret DefaultRng
  | Some s =>
      if seed_accepted s
      then (_ <- modify_self (set_rng (manual_seed s)) ;; mret SelfRng)%M
      else lift (Raise RuntimeError)
  end.

(** Lines 166-169: the labels of the conditional half. *)
Definition resolve_labels (B : nat) (label_B : option label_arg) (sel : rng_sel)
  : M (Tensor Z) :=
  (m <- get_self ;;
   match label_B with
   | None =>
       r <- with_rng sel (torch_multinomial (selecting_idx m) B) ;;
       lift (reshape [B] r)
   | Some (LabelInt z) =>
       (* [torch.full] makes an int64 tensor: a fill value from 2 ** 63 on
          raises RuntimeError *)
       if (z <? 0)%Z then mret (full [B] (Z.of_nat (num_classes m)))
       else if (z <? 2 ^ 63)%Z then mret (full [B] z)
       else lift (Raise RuntimeError)
   | Some (LabelTensor t) => mret t
   end)%M.

(** Line 171: the labels of both halves. *)
Definition cfg_labels (m : VAR) (label_B : Tensor Z) : Res (Tensor Z) :=
  cat 0 label_B (full (shape label_B) (Z.of_nat (num_classes m))).

(** Lines 181-193 of the stage loop: the ratio of the stage, the blocks and
    the head on the current token map, and the guided logits.  Returns
    [(ratio, t, logits of get_logits, guided logits)]. *)
Definition stage_logits (B : nat) (cfg tau : xreal) (cond_BD : Tensor xreal)
    (si : nat) (cur_token_map : Tensor xreal)
  : M (xreal * xreal * Tensor xreal * Tensor xreal) :=
  (m <- get_self ;;
   ratio <- lift (py_truediv_int (Z.of_nat si) (Z.of_nat (num_stages_minus_1 m))) ;;
   cond_BD_or_gss <- lift (shared_ada_lin_forward m cond_BD) ;;
   x <- call_blocks (Plain cur_token_map) cond_BD_or_gss None ;;
   m1 <- get_self ;;
   raw <- lift (get_logits m1 x cond_BD tau) ;;
   let t := xmul cfg ratio in
   logits_BlV <- lift (cfg_merge B t raw) ;;
   mret (ratio, t, raw, logits_BlV))%M.

(** Lines 195-203: the sampled indices [idx_Bl] and their embeddings
    [h_BChw], reshaped to the stage's square. *)
Definition stage_sample (B : nat) (sel : rng_sel) (top_k : Z) (top_p gumbel : xreal)
    (ratio : xreal) (pn : nat) (logits_BlV : Tensor xreal)
  : M (Tensor Z * Tensor xreal) :=
  (' (idx3, logits_BlV') <- with_rng sel (sample_with_top_k_top_p_ logits_BlV top_k top_p) ;;
   idx_Bl <- lift (select_axis 2 0 idx3) ;;
   h <- (if xeqb gumbel (of_Z 0)
         then lift (embedding vq_embedding_weight idx_Bl)
         else
           let gum_t := py_max (xmul (lit 27 100) (xsub xone (xmul ratio (lit 95 100))))
                               (lit 5 1000) in
           g <- with_rng sel (gumbel_softmax_with_rng
                                (scale (xadd xone (xmul ratio gumbel)) logits_BlV') gum_t) ;;
           lift (w1 <- unsqueeze 0 vq_embedding_weight ;; matmul3 g w1)%res) ;;
   m <- get_self ;;
   h_BChw <- lift (hT <- transpose 1 2 h ;; reshape [B; Cvae m; pn; pn] hT)%res ;;
   mret (idx_Bl, h_BChw))%M.

(** Lines 207-210: the accumulated map and the token map of the next stage. *)
Definition stage_next (B : nat) (lvl_pos : Tensor xreal) (si cur_L' : nat)
    (f_hat h_BChw : Tensor xreal) : M (Tensor xreal * Tensor xreal) :=
  (m <- get_self ;;
   let (f_hat', nxt) :=
     get_next_autoregressive_input si (length (patch_nums m)) f_hat h_BChw in
   ctm <- lift (v <- reshape_infer [Some B; Some (Cvae m); None] nxt ;;
                vT <- transpose 1 2 v ;;
                we <- linear (fst (word_embed m)) (snd (word_embed m)) vT ;;
                pn1 <- match nth_error (patch_nums m) (si + 1) with
                       | Some p => Ok p
                       | None => Raise IndexError
                       end ;;
                lp <- slice_axis 1 cur_L' (cur_L' + pn1 ^ 2) lvl_pos ;;
                e <- bop xadd we lp ;;
                cat 0 e e)%res ;;
   mret (f_hat', ctm))%M.

(** The body of the stage loop (lines 181-210). *)
Definition infer_stage (B : nat) (sel : rng_sel) (cfg : xreal) (top_k : Z)
    (top_p : xreal) (returns_vemb : bool) (gumbel tau : xreal)
    (cond_BD lvl_pos : Tensor xreal) (si pn : nat) (st : LoopState)
  : M (LoopState * StageLog) :=
  (' (ratio, t, raw, logits_BlV) <- stage_logits B cfg tau cond_BD si (cur_token_map st) ;;
   let cur_L' := cur_L st + pn * pn in
   ' (idx_Bl, h_BChw) <- stage_sample B sel top_k top_p gumbel ratio pn logits_BlV ;;
   let ret' := ret st ++ [if returns_vemb then OutEmb h_BChw else OutIdx idx_Bl] in
   let entry := {| log_si := si; log_t := t; log_raw := raw; log_sampled := logits_BlV |} in
   m <- get_self ;;
   if si =? num_stages_minus_1 m
   then mret ({| cur_L := cur_L'; ret := ret'; f_hat := f_hat st;
                 cur_token_map := cur_token_map st |}, entry)
   else
     ' (f_hat', ctm) <- stage_next B lvl_pos si cur_L' (f_hat st) h_BChw ;;
     mret ({| cur_L := cur_L'; ret := ret'; f_hat := f_hat'; cur_token_map := ctm |},
           entry))%M.

(** [for si, pn in enumerate(self.patch_nums)], from stage [si] on. *)
Fixpoint infer_loop (B : nat) (sel : rng_sel) (cfg : xreal) (top_k : Z)
    (top_p : xreal) (returns_vemb : bool) (gumbel tau : xreal)
    (cond_BD lvl_pos : Tensor xreal) (si : nat) (pns : list nat)
    (st : LoopState) (log : list StageLog) : M (LoopState * list StageLog) :=
  match pns with
  | [] => mret (st, log)
  | pn :: rest =>
      (' (st', e) <- infer_stage B sel cfg top_k top_p returns_vemb gumbel tau
                                 cond_BD lvl_pos si pn st ;;
       infer_loop B sel cfg top_k top_p returns_vemb gumbel tau
                  cond_BD lvl_pos (S si) rest st' (log ++ [e]))%M
  end.

(** Lines 163-179: everything before the stage loop, caching enabled last. *)
Definition infer_prologue (B : nat) (label_B : option label_arg) (g_seed : option Z)
  : M (rng_sel * Tensor xreal * Tensor xreal * LoopState) :=
  (sel <- resolve_rng g_seed ;;
   label_B <- resolve_labels B label_B sel ;;
   m <- get_self ;;
   cond_BD <- lift (l2 <- cfg_labels m label_B ;; embedding (class_emb m) l2)%res ;;
   lvl_pos <- lift (le <- embedding (lvl_embed m) (lvl_1L m) ;;
                    bop xadd le (pos_1LC m))%res ;;
   ctm <- lift (s1 <- unsqueeze 1 cond_BD ;;
                s2 <- expand [Some (2 * B); Some (first_l m); None] s1 ;;
                p2 <- expand [Some (2 * B); Some (first_l m); None] (pos_start m) ;;
                a <- bop xadd s2 p2 ;;
                lp <- slice_axis 1 0 (first_l m) lvl_pos ;;
                bop xadd a lp)%res ;;
   pn_last <- lift (match patch_nums m with
                    | [] => Raise IndexError
                    | _ => Ok (last (patch_nums m) 0)
                    end) ;;
   let st := {| cur_L := 0; ret := [];
                f_hat := full [B; Cvae m; pn_last; pn_last] xzero;
                cur_token_map := ctm |} in
   _ <- kv_caching_all true ;;
   mret (sel, cond_BD, lvl_pos, st))%M.

(** The call with the per-stage record kept. *)
Definition infer_logged (B : nat) (label_B : option label_arg) (g_seed : option Z)
    (cfg : xreal) (top_k : Z) (top_p : xreal) (returns_vemb : bool)
    (gumbel tau : xreal) : M (list stage_out * list StageLog) :=
  (' (sel, cond_BD, lvl_pos, st) <- infer_prologue B label_B g_seed ;;
   m <- get_self ;;
   ' (st', log) <- infer_loop B sel cfg top_k top_p returns_vemb gumbel tau
                              cond_BD lvl_pos 0 (patch_nums m) st [] ;;
   _ <- kv_caching_all false ;;
   mret (ret st', log))%M.

Definition autoregressive_infer_cfg (B : nat) (label_B : option label_arg)
    (g_seed : option Z) (cfg : xreal) (top_k : Z) (top_p : xreal)
    (returns_vemb : bool) (gumbel tau : xreal) : M (list stage_out) :=
  (r <- infer_logged B label_B g_seed cfg top_k top_p returns_vemb gumbel tau ;;
   mret (fst r))%M.

(** *** Well-formed models and well-behaved collaborators *)

(** The book-keeping relations and the shapes the constructor establishes. *)
Record wf (m : VAR) : Prop := {
  wf_patch_nums : patch_nums m <> [];
  wf_L : L m = sum_sq (patch_nums m);
  wf_first_l : first_l m = hd 0 (patch_nums m) ^ 2;
  wf_begin_ends : begin_ends m = begin_ends_from 0 (patch_nums m);
  wf_stages : num_stages_minus_1 m = length (patch_nums m) - 1;
  wf_word_w : shape (fst (word_embed m)) = [C m; Cvae m];
  wf_word_b : shape (snd (word_embed m)) = [C m];
  wf_classes : num_classes m <> 0;
  wf_selecting : shape (selecting_idx m) = [1; num_classes m];
  wf_class_emb : shape (class_emb m) = [num_classes m + 1; C m];
  wf_pos_start : shape (pos_start m) = [1; first_l m; C m];
  wf_pos_1LC : shape (pos_1LC m) = [1; L m; C m];
  wf_lvl_embed : shape (lvl_embed m) = [length (patch_nums m); C m];
  wf_lvl_shape : shape (lvl_1L m) = [1; L m];
  wf_lvl_range : forall p, p < L m ->
    (0 <= get (lvl_1L m) [0%nat; p] < Z.of_nat (length (patch_nums m)))%Z;
  wf_bias : shape (attn_bias_for_masking m) = [1; 1; L m; L m];
  wf_ada : match shared_ada_lin m with
           | None => True
           | Some (w, b) => shape w = [6 * C m; C m] /\ shape b = [6 * C m]
           end
}.

(** The shapes the collaborators are expected to produce (sections 4.4,
    4.5 and 6 of the specification). *)
Record contract (m : VAR) : Prop := {
  c_block : forall i s x c b,
    exists s' y, block_forward i s (Plain x) c b = (s', Plain y) /\ shape y = shape x;
  c_head : forall h c a l,
    shape h = [a; l; C m] -> shape (head (head_nm h c)) = [a; l; V m];
  c_sample : forall lg k p g b l,
    shape lg = [b; l; V m] ->
    shape (fst (fst (sample_with_top_k_top_p_ lg k p g))) = [b; l; 1]
    /\ shape (snd (fst (sample_with_top_k_top_p_ lg k p g))) = [b; l; V m]
    /\ forall i j, i < b -> j < l ->
         (0 <= get (fst (fst (sample_with_top_k_top_p_ lg k p g))) [i; j; 0%nat]
          < Z.of_nat (V m))%Z;
  c_gumbel : forall lg tau g,
    shape (fst (gumbel_softmax_with_rng lg tau g)) = shape lg;
  c_vq : shape vq_embedding_weight = [V m; Cvae m];
  c_next : forall si f h b pn1,
    nth_error (patch_nums m) (S si) = Some pn1 ->
    shape h = [b; Cvae m; nth si (patch_nums m) 0; nth si (patch_nums m) 0] ->
    shape (snd (get_next_autoregressive_input si (length (patch_nums m)) f h))
    = [b; Cvae m; pn1; pn1];
  c_multinomial : forall n g,
    shape (fst (torch_multinomial (selecting_idx m) n g)) = [1; n]
    /\ forall j, j < n ->
         (0 <= get (fst (torch_multinomial (selecting_idx m) n g)) [0%nat; j]
          < Z.of_nat (num_classes m))%Z
}.

(** A [label_B] argument the class embedding accepts. *)
Definition label_ok (m : VAR) (B : nat) (label_B : option label_arg) : Prop :=
  match label_B with
  | None => True
  | Some (LabelInt z) => (z <= Z.of_nat (num_classes m))%Z /\ (z < 2 ^ 63)%Z
  | Some (LabelTensor t) =>
      shape t = [B]
      /\ forall i, i < B -> (0 <= get t [i] <= Z.of_nat (num_classes m))%Z
  end.

(** A [g_seed] argument the generator accepts. *)
Definition seed_ok (g_seed : option Z) : Prop :=
  match g_seed with
  | None => True
  | Some s => seed_accepted s = true
  end.

(** Two model objects that differ at most in the state of [self.rng]. *)
Definition same_up_to_rng (m1 m2 : VAR) : Prop :=
  set_rng rng_fresh m1 = set_rng rng_fresh m2.

(** Two model objects that differ at most in the generator state and in
    the attention states of their blocks, which are as many. *)
Definition frame (m1 m2 : VAR) : Prop :=
  set_blocks [] (set_rng rng_fresh m1) = set_blocks [] (set_rng rng_fresh m2)
  /\ length (blocks m1) = length (blocks m2).

(** A computation that changes at most the generator state and the
    attention states of the model. *)
Definition keeps_frame {A} (c : M A) : Prop :=
  forall w, frame (self w) (self (fst (c w))).

(** The state of the generator a helper is given, and the world after the
    helper left the generator in state [g]. *)
Definition rng_of (sel : rng_sel) (w : World) : rng_state :=
  match sel with
  | DefaultRng => ambient w
  | SelfRng => rng (self w)
  end.

Definition put_rng (sel : rng_sel) (g : rng_state) (w : World) : World :=
  match sel with
  | DefaultRng => {| self := self w; ambient := g |}
  | SelfRng => {| self := set_rng g (self w); ambient := ambient w |}
  end.

Definition with_ambient (a : rng_state) (w : World) : World :=
  {| self := self w; ambient := a |}.

(** A computation that neither reads nor writes the default generator. *)
Definition ignores_ambient {A} (c : M A) : Prop :=
  forall w a, c (with_ambient a w) = (with_ambient a (fst (c w)), snd (c w)).

(** What the record of a stage says about the guidance ratio and the
    logits handed to the sampler. *)
Definition entry_formula (m : VAR) (B : nat) (cfg : xreal) (e : StageLog) : Prop :=
  exists ratio,
    py_truediv_int (Z.of_nat (log_si e)) (Z.of_nat (num_stages_minus_1 m)) = Ok ratio
    /\ log_t e = xmul cfg ratio
    /\ cfg_merge B (log_t e) (log_raw e) = Ok (log_sampled e).

(** The shapes of the logits a stage recorded: [2B] rows before the
    guidance merge, [B] rows after it, one position per cell of the stage. *)
Definition entry_shapes (m : VAR) (B : nat) (e : StageLog) : Prop :=
  exists pn,
    nth_error (patch_nums m) (log_si e) = Some pn
    /\ shape (log_raw e) = [2 * B; pn * pn; V m]
    /\ shape (log_sampled e) = [B; pn * pn; V m].

(** Caching is off and the cache is empty on every block. *)
Definition all_idle (m : VAR) : Prop :=
  Forall (fun s => s = attn_idle) (blocks m).

(** Caching is on on every block. *)
Definition all_caching (m : VAR) : Prop :=
  Forall (fun s => caching s = true) (blocks m).

(** The stage of a position: the number of stages that end at or before it. *)
Fixpoint stage_of (pns : list nat) (p : nat) : nat :=
  match pns with
  | [] => 0
  | pn :: rest => if p <? pn * pn then 0 else S (stage_of rest (p - pn * pn))
  end.

(** The arguments on which the constructor returns. *)
Definition constructible (cfg : Config) : Prop :=
  arg_num_heads cfg <> 0
  /\ arg_embed_dim cfg mod arg_num_heads cfg = 0
  /\ arg_patch_nums cfg <> []
  /\ arg_num_classes cfg <> 0
  /\ arg_depth cfg <> 0
  /\ arg_embed_dim cfg <> 0.

Definition nondecreasing (l : list nat) : Prop :=
  forall i j a b, i <= j -> nth_error l i = Some a -> nth_error l j = Some b -> a <= b.

(** *** The builder and further notions *)

(** [build_var] (lines 298-311): the constructor with the width and the
    head count tied to the depth ([embed_dim=depth*64], [num_heads=depth]);
    [num_classes] and [cond_drop_rate] keep the constructor's defaults. *)
Definition build_var (vae : VAEInfo) (depth : nat) (patch_nums : list nat)
    (aln : xreal) (shared_aln : bool) (layer_scale : xreal) (ini : Init) : Res VAR :=
  VAR_init vae
           {| arg_num_classes := 1000;
              arg_aln := aln;
              arg_shared_aln := shared_aln;
              arg_cond_drop_rate := lit 1 10;
              arg_depth := depth;
              arg_embed_dim := depth * 64;
              arg_num_heads := depth;
              arg_layer_scale := layer_scale;
              arg_patch_nums := patch_nums |}
           ini.

(** A computation after which [R] relates the state it started from to the
    state it left, whether it returned or raised. *)
Definition leaves {A} (R : World -> World -> Prop) (c : M A) : Prop :=
  forall w, R w (fst (c w)).

(** The model's own generator, and the default one, are where they were. *)
Definition same_self_rng (w w' : World) : Prop := rng (self w') = rng (self w).
Definition same_ambient (w w' : World) : Prop := ambient w' = ambient w.

(** The attention states are what they were; caching, if it was on on every
    block, still is. *)
Definition same_blocks (w w' : World) : Prop := blocks (self w') = blocks (self w).
Definition keeps_caching (w w' : World) : Prop :=
  all_caching (self w) -> all_caching (self w').

(** Whenever the computation raises, the state it leaves is related to the
    one it started from. *)
Definition raising_leaves {A} (R : World -> World -> Prop) (c : M A) : Prop :=
  forall w w' e, c w = (w', Raise e) -> R w w'.

(** What entry [si] of the returned list looks like: token indices of shape
    (B, pn * pn) within the vocabulary, or their embeddings of shape
    (B, Cvae, pn, pn) when [returns_vemb] is set. *)
Definition out_ok (m : VAR) (B : nat) (returns_vemb : bool) (pn : nat)
    (o : stage_out) : Prop :=
  match o with
  | OutIdx idx_Bl =>
      returns_vemb = false
      /\ shape idx_Bl = [B; pn * pn]
      /\ forall b i, b < B -> i < pn * pn ->
           (0 <= get idx_Bl [b; i] < Z.of_nat (V m))%Z
  | OutEmb h_BChw =>
      returns_vemb = true /\ shape h_BChw = [B; Cvae m; pn; pn]
  end.

(** Lines 195-203 read as a relation between what the sampler is handed and
    what the stage puts out: [sample_with_top_k_top_p_], called on
    [logits_BlV] with a generator in state [g], gave the indices [idx_Bl];
    [h_BChw] is their code-book embedding or, with [gumbel] set, the
    Gumbel-softmax mix of the code book drawn next from the same generator,
    transposed and reshaped to the square of the stage. *)
Definition sampled (m : VAR) (B : nat) (top_k : Z) (top_p gumbel ratio : xreal)
    (pn : nat) (logits_BlV : Tensor xreal) (g : rng_state)
    (idx_Bl : Tensor Z) (h_BChw : Tensor xreal) : Prop :=
  let r := sample_with_top_k_top_p_ logits_BlV top_k top_p g in
  select_axis 2 0 (fst (fst r)) = Ok idx_Bl
  /\ exists h,
       (if xeqb gumbel (of_Z 0)
        then embedding vq_embedding_weight idx_Bl = Ok h
        else
          let gum_t := py_max (xmul (lit 27 100) (xsub xone (xmul ratio (lit 95 100))))
                              (lit 5 1000) in
          (w1 <- unsqueeze 0 vq_embedding_weight ;;
           matmul3 (fst (gumbel_softmax_with_rng
                           (scale (xadd xone (xmul ratio gumbel)) (snd (fst r)))
                           gum_t (snd r)))
                   w1)%res = Ok h)
       /\ (hT <- transpose 1 2 h ;; reshape [B; Cvae m; pn; pn] hT)%res = Ok h_BChw.

(** What a stage did, read off lines 185-204: from the state [w_a] the
    blocks ran on the token map [ctm] with no mask and left the state [w_b],
    [get_logits] turned their output into [raw], the guided logits [lg] were
    handed to the sampler with the generator of the call, and the stage put
    out the sampled indices, or their embeddings when [returns_vemb] is
    set. *)
Definition stage_ran (B : nat) (sel : rng_sel) (top_k : Z) (top_p gumbel tau : xreal)
    (returns_vemb : bool) (cond_BD : Tensor xreal) (pn : nat) (ratio : xreal)
    (ctm raw lg : Tensor xreal) (o : stage_out) (w_a w_b : World) : Prop :=
  exists (cgss : Tensor xreal) (x : hidden)
         (idx_Bl : Tensor Z) (h_BChw : Tensor xreal),
    shared_ada_lin_forward (self w_a) cond_BD = Ok cgss
    /\ call_blocks (Plain ctm) cgss None w_a = (w_b, Ok x)
    /\ get_logits (self w_b) x cond_BD tau = Ok raw
    /\ sampled (self w_b) B top_k top_p gumbel ratio pn lg (rng_of sel w_b)
               idx_Bl h_BChw
    /\ o = (if returns_vemb then OutEmb h_BChw else OutIdx idx_Bl).

(** Modelled from the spec: a block's forward pass appends to the cache
    when caching is on and never switches the flag itself (only
    [kv_caching] does). *)
Definition blocks_keep_flag : Prop :=
  forall i s x c b, caching (fst (block_forward i s x c b)) = caching s.

End Model.

(** ** A small instance

    Three stages of side 1, 2, 3, a vocabulary of four codes of width two,
    two blocks that pass the token map on (and note each cached call), and
    a counter as generator.  It is used to run the definitions. *)

Module Small.
Local Open Scope nat_scope.

Definition stages : list nat := [1; 2; 3].
Definition vocab : nat := 4.
Definition code_width : nat := 2.

#[global] Instance env : Env := {|
  rng_state := nat;
  rng_fresh := 0;
  manual_seed := Z.to_nat;
  rng_uniform := fun g => (lit (Z.of_nat (g mod 10)) 10, S g);
  torch_multinomial := fun p n g =>
    (mkT [1; n] (fun idx => Z.of_nat ((g + nth 1 idx 0) mod (nth 1 (shape p) 0))), g + n);
  sample_with_top_k_top_p_ := fun lg k p g =>
    ((mkT [nth 0 (shape lg) 0; nth 1 (shape lg) 0; 1]
          (fun idx => Z.of_nat ((g + nth 1 idx 0) mod vocab)), lg), S g);
  gumbel_softmax_with_rng := fun lg tau g => (lg, S g);
  get_next_autoregressive_input := fun si SN f h =>
    (f, full [nth 0 (shape h) 0; nth 1 (shape h) 0;
              nth (si + 1) stages 0; nth (si + 1) stages 0] xone);
  vq_embedding_weight :=
    mkT [vocab; code_width] (fun idx => of_Z (Z.of_nat (nth 0 idx 0)));
  silu := fun x => x;
  KV := unit;
  block_forward := fun i s x c b =>
    ({| caching := caching s;
        cached := if caching s then tt :: cached s else cached s |}, x);
  block_fused := fun _ => false;
  block_drop_path := fun _ x => x;
  head_nm := fun h c => h;
  head := fun h => mkT (removelast (shape h) ++ [vocab])
                       (fun idx => get h (removelast idx ++ [0]))
|}.

Definition vae : VAEInfo := {| vae_Cvae := code_width; vae_vocab_size := vocab |}.

Definition config (pns : list nat) (heads : nat) : Config := {|
  arg_num_classes := 3;
  arg_aln := of_Z (-1);
  arg_shared_aln := false;
  arg_cond_drop_rate := lit 1 10;
  arg_depth := 2;
  arg_embed_dim := 4;
  arg_num_heads := heads;
  arg_layer_scale := of_Z (-1);
  arg_patch_nums := pns
|}.

Definition init : Init := {|
  init_word_embed_w := fun _ => xone;
  init_word_embed_b := fun _ => xzero;
  init_class_emb := fun idx => of_Z (Z.of_nat (nth 0 idx 0));
  init_pos_start := fun _ => xzero;
  init_pe := fun _ _ => xzero;
  init_lvl_embed := fun _ => xzero;
  init_ada_w := fun _ => xzero;
  init_ada_b := fun _ => xzero
|}.

(** The model [VAR(vae, patch_nums=(1, 2, 3), embed_dim=4, num_heads=2, ...)]. *)
Definition built : Res VAR := VAR_init vae (config stages 2) init.

(** The model that call returns. *)
Definition blank : VAR := {|
  Cvae := 0; V := 0; depth := 0; C := 0; D := 0; num_heads := 0;
  using_aln := false; layer_scale := xzero; cond_drop_rate := xzero;
  prog_si := (-1)%Z; patch_nums := []; L := 0; first_l := 0; begin_ends := [];
  num_stages_minus_1 := 0; rng := 0;
  word_embed := (full [] xzero, full [] xzero); num_classes := 0;
  selecting_idx := full [] xzero; class_emb := full [] xzero;
  pos_start := full [] xzero; pos_1LC := full [] xzero; lvl_embed := full [] xzero;
  shared_ada_lin := None; blocks := []; gamma2_last := None;
  lvl_1L := full [] 0%Z; attn_bias_for_masking := full [] xzero
|}.

Definition model : VAR :=
  Eval vm_compute in match built with Ok m => m | Raise _ => blank end.

(** Two labels and teacher features of [len] positions. *)
Definition labels : Tensor Z := mkT [2] (fun _ => 1%Z).
Definition teacher (len : nat) : Tensor xreal := full [2; len; code_width] xone.

(** The model with [prog_si] set to [k], and a default generator. *)
Definition world (k : Z) : World := {| self := set_prog_si k model; ambient := 7 |}.

(** The same configuration with the single stage [(2,)]. *)
Definition one_stage : VAR :=
  match VAR_init vae (config [2] 2) init with
  | Ok m => m
  | Raise _ => blank
  end.

(** The same configuration with shared AdaLN ([aln=1, shared_aln=True]). *)
Definition config_shared : Config := {|
  arg_num_classes := 3;
  arg_aln := of_Z 1;
  arg_shared_aln := true;
  arg_cond_drop_rate := lit 1 10;
  arg_depth := 2;
  arg_embed_dim := 4;
  arg_num_heads := 2;
  arg_layer_scale := of_Z (-1);
  arg_patch_nums := stages
|}.

Definition shared : VAR :=
  Eval vm_compute in
    match VAR_init vae config_shared init with Ok m => m | Raise _ => blank end.

End Small.

(** * Properties *)

Local Open Scope nat_scope.

(** ** Results *)

Lemma rbind_ok_inv {A B} (r : Res A) (k : A -> Res B) (b : B) :
  rbind r k = Ok b -> exists a, r = Ok a /\ k a = Ok b.
Proof. destruct r as [a|e]; simpl; intros H; [eauto | discriminate]. Qed.

Lemma check_ok_inv (b : bool) (e : exn) (u : unit) : check b e = Ok u -> b = true.
Proof. destruct b; simpl; [reflexivity | discriminate]. Qed.

Ltac res_inv :=
  repeat match goal with
         | H : rbind _ _ = Ok _ |- _ =>
             let a := fresh "v" in
             let Ha := fresh "Hv" in
             apply rbind_ok_inv in H; destruct H as (a & Ha & H)
         | H : check _ _ = Ok _ |- _ => apply check_ok_inv in H
         | H : Ok _ = Ok _ |- _ => injection H as H
         | H : Raise _ = Ok _ |- _ => discriminate H
         end.

(** ** Index arithmetic *)

Section TensorFacts.

Lemma numel_cons (n : nat) (sh : list nat) : numel (n :: sh) = n * numel sh.
Proof. reflexivity. Qed.

Lemma ravel_lt (sh idx : list nat) :
  in_bounds sh idx = true -> ravel sh idx < numel sh.
Proof.
  revert idx; induction sh as [|n sh IH]; intros [|i idx] H; simpl in *;
    try discriminate; [lia|].
  apply andb_prop in H; destruct H as [Hi H].
  apply Nat.ltb_lt in Hi. specialize (IH _ H).
  change (fold_right Nat.mul 1 sh) with (numel sh).
  nia.
Qed.

Lemma unravel_ravel (sh idx : list nat) :
  in_bounds sh idx = true -> unravel sh (ravel sh idx) = idx.
Proof.
  revert idx; induction sh as [|n sh IH]; intros [|i idx] H;
    cbn [ravel unravel in_bounds] in *; try discriminate; [reflexivity|].
  apply andb_prop in H; destruct H as [Hi H].
  pose proof (ravel_lt _ _ H) as Hlt.
  assert (Hpos : numel sh <> 0) by lia.
  rewrite Nat.div_add_l by exact Hpos.
  rewrite Nat.div_small by exact Hlt.
  rewrite (Nat.add_comm (i * numel sh)), Nat.Div0.mod_add, Nat.mod_small by exact Hlt.
  rewrite Nat.add_0_r, IH by exact H. reflexivity.
Qed.

Lemma ravel_unit_head (sh idx : list nat) : ravel (1 :: sh) (0 :: idx) = ravel sh idx.
Proof. reflexivity. Qed.

Lemma in_bounds_length (sh idx : list nat) :
  in_bounds sh idx = true -> length idx = length sh.
Proof.
  revert idx; induction sh as [|n sh IH]; intros [|i idx] H; simpl in *;
    try discriminate; [reflexivity|].
  apply andb_prop in H; destruct H as [_ H]. f_equal; auto.
Qed.

Lemma all_idx_in (sh idx : list nat) :
  In idx (all_idx sh) <-> in_bounds sh idx = true.
Proof.
  revert idx; induction sh as [|n sh IH]; intros idx; simpl.
  - destruct idx; simpl; split; intros H; auto; try discriminate.
    destruct H as [H|[]]; discriminate.
  - rewrite in_flat_map. split.
    + intros (i & Hi & Hin). apply in_map_iff in Hin.
      destruct Hin as (r & <- & Hr). apply in_seq in Hi.
      apply IH in Hr. rewrite Hr, andb_true_r. apply Nat.ltb_lt. lia.
    + destruct idx as [|i r]; [discriminate|]. intros H.
      apply andb_prop in H; destruct H as [Hi Hr].
      apply Nat.ltb_lt in Hi. exists i. split; [apply in_seq; lia|].
      apply in_map. apply IH. exact Hr.
Qed.

Lemma tforall_spec {A} (p : A -> bool) (t : Tensor A) :
  tforall p t = true <->
  forall idx, in_bounds (shape t) idx = true -> p (get t idx) = true.
Proof.
  unfold tforall. rewrite forallb_forall. split; intros H idx Hi.
  - apply H. apply all_idx_in. exact Hi.
  - apply H. apply all_idx_in. exact Hi.
Qed.

End TensorFacts.

(** ** Book-keeping of the stages *)

Section Stages.
Context {E : Env}.

Lemma fold_left_add_acc (l : list nat) (a : nat) :
  fold_left Nat.add l a = a + fold_left Nat.add l 0.
Proof.
  revert a; induction l as [|x l IH]; intros a; simpl; [lia|].
  rewrite IH, (IH x). lia.
Qed.

Lemma sum_sq_cons (pn : nat) (pns : list nat) :
  sum_sq (pn :: pns) = pn ^ 2 + sum_sq pns.
Proof. unfold sum_sq; simpl. rewrite fold_left_add_acc. reflexivity. Qed.

Lemma sum_sq_nil : sum_sq [] = 0.
Proof. reflexivity. Qed.

Lemma sum_sq_list_sum (pns : list nat) :
  sum_sq pns = list_sum (map (fun pn => pn ^ 2) pns).
Proof.
  induction pns as [|pn pns IH]; [reflexivity|].
  rewrite sum_sq_cons, IH. reflexivity.
Qed.

Lemma sum_sq_app (l1 l2 : list nat) : sum_sq (l1 ++ l2) = sum_sq l1 + sum_sq l2.
Proof.
  induction l1 as [|x l1 IH]; cbn [app]; [reflexivity|].
  rewrite !sum_sq_cons, IH. lia.
Qed.

Lemma begin_ends_from_length (cur : nat) (pns : list nat) :
  length (begin_ends_from cur pns) = length pns.
Proof. revert cur; induction pns; intros; simpl; auto. Qed.

(** Stage [i] begins after the squares of the stages before it and has
    [pn_i ^ 2] positions. *)
Lemma begin_ends_from_nth (cur : nat) (pns : list nat) (i b e : nat) :
  nth_error (begin_ends_from cur pns) i = Some (b, e) ->
  exists pn, nth_error pns i = Some pn
             /\ b = cur + sum_sq (firstn i pns)
             /\ e = b + pn ^ 2.
Proof.
  revert cur i b e; induction pns as [|pn pns IH]; intros cur i b e H.
  - destruct i; discriminate.
  - destruct i as [|i]; cbn [begin_ends_from nth_error] in H.
    + injection H as <- <-. exists pn. cbn [nth_error firstn].
      rewrite sum_sq_nil. auto with arith.
    + apply IH in H. destruct H as (pn' & Hn & -> & ->).
      exists pn'. cbn [nth_error firstn]. rewrite sum_sq_cons.
      repeat split; auto; lia.
Qed.

Lemma begin_ends_from_some (cur : nat) (pns : list nat) (i pn : nat) :
  nth_error pns i = Some pn ->
  nth_error (begin_ends_from cur pns) i
  = Some (cur + sum_sq (firstn i pns), cur + sum_sq (firstn i pns) + pn ^ 2).
Proof.
  revert cur i; induction pns as [|x pns IH]; intros cur i H.
  - destruct i; discriminate.
  - destruct i as [|i]; cbn [begin_ends_from nth_error firstn] in *.
    + injection H as ->. rewrite sum_sq_nil, Nat.add_0_r. reflexivity.
    + rewrite (IH _ _ H), sum_sq_cons. do 2 f_equal; lia.
Qed.

Lemma firstn_S_nth (pns : list nat) (i pn : nat) :
  nth_error pns i = Some pn -> sum_sq (firstn (S i) pns) = sum_sq (firstn i pns) + pn ^ 2.
Proof.
  revert i; induction pns as [|x pns IH]; intros i H.
  - destruct i; discriminate.
  - destruct i as [|i]; cbn [nth_error firstn] in *.
    + injection H as ->. rewrite sum_sq_cons, !sum_sq_nil. lia.
    + rewrite !sum_sq_cons, (IH _ H). lia.
Qed.

Lemma sum_sq_firstn_le (pns : list nat) (i : nat) :
  sum_sq (firstn i pns) <= sum_sq pns.
Proof.
  rewrite <- (firstn_skipn i pns) at 2. rewrite sum_sq_app. lia.
Qed.

(** [stage_of] is the stage whose range holds the position. *)
Lemma stage_of_range (pns : list nat) (p i pn : nat) :
  p < sum_sq pns ->
  nth_error pns i = Some pn ->
  stage_of pns p = i <->
  sum_sq (firstn i pns) <= p < sum_sq (firstn i pns) + pn ^ 2.
Proof.
  revert p i; induction pns as [|x pns IH]; intros p i Hp Hi.
  - destruct i; discriminate.
  - rewrite sum_sq_cons in Hp. rewrite Nat.pow_2_r in Hp. cbn [stage_of].
    destruct (Nat.ltb_spec p (x * x)) as [Hlt|Hge].
    + destruct i as [|i]; cbn [nth_error firstn] in Hi |- *.
      * injection Hi as ->. rewrite sum_sq_nil, Nat.pow_2_r. split; intros; [lia|reflexivity].
      * rewrite sum_sq_cons, Nat.pow_2_r. split; intros; [discriminate|lia].
    + destruct i as [|i]; cbn [nth_error firstn] in Hi |- *.
      * injection Hi as ->. rewrite sum_sq_nil, Nat.pow_2_r. split; intros; [discriminate|lia].
      * rewrite sum_sq_cons, Nat.pow_2_r.
        specialize (IH (p - x * x) i ltac:(lia) Hi).
        split; intros H.
        -- injection H as H. apply IH in H. lia.
        -- f_equal. apply IH. lia.
Qed.

Lemma stage_of_lt (pns : list nat) (p : nat) :
  p < sum_sq pns -> stage_of pns p < length pns.
Proof.
  revert p; induction pns as [|x pns IH]; intros p Hp.
  - rewrite sum_sq_nil in Hp. lia.
  - rewrite sum_sq_cons, Nat.pow_2_r in Hp. cbn [stage_of length].
    destruct (Nat.ltb_spec p (x * x)); [lia|].
    apply -> Nat.succ_lt_mono. apply IH. lia.
Qed.

End Stages.

(** ** Broadcasting and concatenation *)

Section Broadcast.

Lemma pad_left_same (s : list nat) : pad_left (length s) s = s.
Proof. unfold pad_left. rewrite Nat.sub_diag. reflexivity. Qed.

Lemma bzip_into (s1 s2 : list nat) :
  Forall2 (fun a b => b = a \/ b = 1) s1 s2 -> bzip s1 s2 = Ok s1.
Proof.
  induction 1 as [|a b r1 r2 Hab _ IH]; [reflexivity|].
  cbn [bzip]. rewrite IH.
  destruct (Nat.eqb_spec a b) as [_|Hne]; [reflexivity|].
  destruct (Nat.eqb_spec a 1) as [Ha|_]; [destruct Hab; congruence|].
  destruct (Nat.eqb_spec b 1) as [_|Hb]; [reflexivity|].
  destruct Hab; congruence.
Qed.

Lemma bzip_from (s1 s2 : list nat) :
  Forall2 (fun a b => a = b \/ a = 1) s1 s2 -> bzip s1 s2 = Ok s2.
Proof.
  induction 1 as [|a b r1 r2 Hab _ IH]; [reflexivity|].
  cbn [bzip]. rewrite IH.
  destruct (Nat.eqb_spec a b) as [->|Hne]; [reflexivity|].
  destruct (Nat.eqb_spec a 1) as [_|Ha]; [reflexivity|].
  destruct Hab; congruence.
Qed.

Lemma bcast_shape_into (s1 s2 : list nat) :
  Forall2 (fun a b => b = a \/ b = 1) s1 s2 -> bcast_shape s1 s2 = Ok s1.
Proof.
  intros H. unfold bcast_shape.
  rewrite <- (Forall2_length H), Nat.max_id, pad_left_same.
  rewrite (Forall2_length H), pad_left_same. apply bzip_into. exact H.
Qed.

Lemma bcast_shape_from (s1 s2 : list nat) :
  Forall2 (fun a b => a = b \/ a = 1) s1 s2 -> bcast_shape s1 s2 = Ok s2.
Proof.
  intros H. unfold bcast_shape.
  rewrite <- (Forall2_length H), Nat.max_id, pad_left_same.
  rewrite (Forall2_length H), pad_left_same. apply bzip_from. exact H.
Qed.

Lemma bcast_shape_same (s : list nat) : bcast_shape s s = Ok s.
Proof.
  apply bcast_shape_into. induction s; constructor; auto.
Qed.

Lemma bpick_in_bounds (s idx : list nat) :
  in_bounds s idx = true -> bpick s idx = idx.
Proof.
  revert idx; induction s as [|n s IH]; intros [|i idx] H;
    cbn [in_bounds bpick] in *; try discriminate; [reflexivity|].
  apply andb_prop in H; destruct H as [Hi H]. apply Nat.ltb_lt in Hi.
  rewrite (IH _ H). destruct (Nat.eqb_spec n 1); [f_equal; lia | reflexivity].
Qed.

Lemma bcast_idx_in_bounds (s idx : list nat) :
  in_bounds s idx = true -> bcast_idx s idx = idx.
Proof.
  intros H. unfold bcast_idx.
  rewrite (in_bounds_length _ _ H), Nat.sub_diag. apply bpick_in_bounds, H.
Qed.

Lemma bop_into {A B C} (f : A -> B -> C) (a : Tensor A) (b : Tensor B) :
  Forall2 (fun x y => y = x \/ y = 1) (shape a) (shape b) ->
  bop f a b = Ok (mkT (shape a)
                      (fun idx => f (get a (bcast_idx (shape a) idx))
                                    (get b (bcast_idx (shape b) idx)))).
Proof. intros H. unfold bop. rewrite (bcast_shape_into H). reflexivity. Qed.

Lemma bop_same {A B C} (f : A -> B -> C) (a : Tensor A) (b : Tensor B) :
  shape b = shape a ->
  bop f a b = Ok (mkT (shape a)
                      (fun idx => f (get a (bcast_idx (shape a) idx))
                                    (get b (bcast_idx (shape b) idx)))).
Proof.
  intros H. apply bop_into. rewrite H.
  generalize (shape a) as s. induction s; constructor; auto.
Qed.

Lemma iop_into {A B} (f : A -> B -> A) (x : Tensor A) (y : Tensor B) :
  Forall2 (fun a b => b = a \/ b = 1) (shape x) (shape y) ->
  iop f x y = Ok (mkT (shape x)
                      (fun idx => f (get x (bcast_idx (shape x) idx))
                                    (get y (bcast_idx (shape y) idx)))).
Proof.
  intros H. unfold iop. rewrite (bop_into f x y H). cbn [shape].
  destruct (list_eq_dec Nat.eq_dec (shape x) (shape x)); congruence.
Qed.

Lemma upd_upd (k a b : nat) (l : list nat) : upd k a (upd k b l) = upd k a l.
Proof.
  revert k; induction l as [|x l IH]; intros [|k]; cbn [upd]; auto.
  f_equal. apply IH.
Qed.

Lemma nth_upd (k a : nat) (l : list nat) : k < length l -> nth k (upd k a l) 0 = a.
Proof.
  revert k; induction l as [|x l IH]; intros [|k] H; cbn [upd nth length] in *;
    auto; try lia.
  apply IH. lia.
Qed.

Lemma upd_length (k a : nat) (l : list nat) : length (upd k a l) = length l.
Proof. revert k; induction l as [|x l IH]; intros [|k]; cbn [upd length]; auto. Qed.

Lemma cat_ok {A} (k : nat) (a b : Tensor A) :
  k < length (shape a) ->
  upd k 0 (shape a) = upd k 0 (shape b) ->
  cat k a b
  = Ok (mkT (upd k (nth k (shape a) 0 + nth k (shape b) 0) (shape a))
            (fun idx => if nth k idx 0 <? nth k (shape a) 0 then get a idx
                        else get b (upd k (nth k idx 0 - nth k (shape a) 0) idx))).
Proof.
  intros Hk He. unfold cat.
  destruct (Nat.ltb_spec k (length (shape a))); [|lia].
  destruct (list_eq_dec Nat.eq_dec _ _); [reflexivity | contradiction].
Qed.

(** Concatenating tensors that agree off axis [k] adds up their sizes on it. *)
Lemma cat_list_shape {A} (k : nat) (base : list nat) (ts : list (Tensor A)) :
  k < length base ->
  forall (t : Tensor A) (n : nat),
    shape t = upd k n base ->
    Forall (fun u => shape u = upd k (nth k (shape u) 0) base) ts ->
    exists r, cat_list k t ts = Ok r
              /\ shape r = upd k (n + list_sum (map (fun u => nth k (shape u) 0) ts)) base.
Proof.
  intros Hk. induction ts as [|u ts IH]; intros t n Ht Hts.
  - exists t. cbn. rewrite Nat.add_0_r. auto.
  - inversion Hts as [|? ? Hu Hr]; subst.
    cbn [cat_list]. rewrite cat_ok.
    + cbn [rbind].
      match goal with |- exists r, cat_list k ?t1 ts = _ /\ _ =>
        destruct (IH t1 (n + nth k (shape u) 0)) as (r & Hr1 & Hr2);
          [cbn [shape]; rewrite Ht, upd_upd, nth_upd by exact Hk; reflexivity
          | exact Hr |]
      end.
      exists r. split; [exact Hr1|]. rewrite Hr2.
      change (list_sum (map (fun u0 : Tensor A => nth k (shape u0) 0) (u :: ts)))
        with (nth k (shape u) 0 + list_sum (map (fun u0 : Tensor A => nth k (shape u0) 0) ts)).
      f_equal. lia.
    + rewrite Ht, upd_length. exact Hk.
    + rewrite Ht, Hu, !upd_upd. reflexivity.
Qed.

End Broadcast.

(** ** The buffers of the constructor *)

Section Buffers.
Context {E : Env}.

Lemma reshape_ok {A} (sh : list nat) (t : Tensor A) :
  numel sh = numel (shape t) ->
  reshape sh t = Ok (mkT sh (fun idx => get t (unravel (shape t) (ravel sh idx)))).
Proof. intros H. unfold reshape. rewrite H, Nat.eqb_refl. reflexivity. Qed.

Lemma reshape_shape {A} (sh : list nat) (t r : Tensor A) :
  reshape sh t = Ok r -> shape r = sh /\ numel sh = numel (shape t).
Proof.
  unfold reshape. destruct (Nat.eqb_spec (numel sh) (numel (shape t))); [|discriminate].
  intros H; injection H as <-. auto.
Qed.

(** The levels of the positions: stage [i] repeated [pn_i * pn_i] times. *)
Lemma levels_cat (r : list nat) :
  forall (t : Tensor Z) (a k : nat),
    shape t = [a] ->
    exists u,
      cat_list 0 t (map (fun ipn => full [snd ipn * snd ipn] (Z.of_nat (fst ipn)))
                        (combine (seq k (length r)) r)) = Ok u
      /\ shape u = [a + sum_sq r]
      /\ (forall p, a <= p < a + sum_sq r ->
                    get u [p] = Z.of_nat (k + stage_of r (p - a)))
      /\ (forall p, p < a -> get u [p] = get t [p]).
Proof.
  induction r as [|x r IH]; intros t a k Ht.
  - exists t. cbn [length seq combine map cat_list]. rewrite sum_sq_nil, Nat.add_0_r.
    repeat split; auto. intros p Hp. lia.
  - cbn [length seq combine map cat_list fst snd].
    rewrite cat_ok; [| rewrite Ht; cbn; lia | rewrite Ht; reflexivity].
    cbn [rbind]. rewrite Ht. cbn [full shape get nth upd].
    match goal with |- exists u, cat_list 0 ?t1 _ = _ /\ _ =>
      destruct (IH t1 (a + x * x) (S k) eq_refl) as (u & Hu & Hs & Hhi & Hlo)
    end.
    exists u. split; [exact Hu|]. rewrite sum_sq_cons, Nat.pow_2_r.
    split; [rewrite Hs; f_equal; lia|]. split.
    + intros p Hp. cbn [stage_of].
      destruct (Nat.ltb_spec (p - a) (x * x)) as [Hlt|Hge].
      * rewrite Hlo by lia. cbn [get nth].
        destruct (Nat.ltb_spec p a); [lia|]. f_equal. lia.
      * rewrite Hhi by lia. f_equal.
        replace (p - (a + x * x)) with (p - a - x * x) by lia. lia.
    + intros p Hp. rewrite Hlo by lia. cbn [get nth].
      destruct (Nat.ltb_spec p a); [reflexivity | lia].
Qed.

Lemma bcast_shape_col_row (l : nat) : bcast_shape [1; l; 1] [1; 1; l] = Ok [1; l; l].
Proof.
  unfold bcast_shape. cbn [length Nat.max pad_left Nat.sub repeat app bzip].
  destruct (Nat.eqb_spec 1 l) as [<-|H1]; [reflexivity|].
  cbn [Nat.eqb].
  destruct (Nat.eqb_spec l 1) as [->|H2]; [congruence|reflexivity].
Qed.

Lemma unravel_col (n l p : nat) : unravel [n] (ravel [1; l; 1] [0; p; 0]) = [p].
Proof.
  cbn [unravel ravel numel fold_right]. rewrite Nat.div_1_r. f_equal. lia.
Qed.

(** Lines 121-126 succeed on a non-empty stage list; the level buffer holds
    the stage of every position and the mask compares levels. *)
Lemma mask_buffers_spec (pns : list nat) :
  pns <> [] ->
  exists lvl bias,
    mask_buffers pns (sum_sq pns) = Ok (lvl, bias)
    /\ shape lvl = [1; sum_sq pns]
    /\ shape bias = [1; 1; sum_sq pns; sum_sq pns]
    /\ (forall p, p < sum_sq pns -> get lvl [0; p] = Z.of_nat (stage_of pns p))
    /\ (forall p q, p < sum_sq pns -> q < sum_sq pns ->
          get bias [0; 0; p; q]
          = if Z.leb (get lvl [0; q]) (get lvl [0; p]) then xzero else NInf).
Proof.
  destruct pns as [|x r]; [congruence|]. intros _.
  set (l := sum_sq (x :: r)).
  unfold mask_buffers, enumerate, cat_nonempty.
  cbn [length seq combine map fst snd].
  destruct (levels_cat r (full [x * x] (Z.of_nat 0)) 1 eq_refl)
    as (d0 & Hd0 & Hs0 & Hhi & Hlo).
  rewrite Hd0. cbn [rbind].
  assert (Hl : x * x + sum_sq r = l).
  { unfold l. rewrite sum_sq_cons, Nat.pow_2_r. reflexivity. }
  rewrite Hl in *.
  assert (Hd0v : forall p, p < l -> get d0 [p] = Z.of_nat (stage_of (x :: r) p)).
  { intros p Hp. cbn [stage_of]. destruct (Nat.ltb_spec p (x * x)).
    - rewrite Hlo by assumption. reflexivity.
    - rewrite Hhi by lia. reflexivity. }
  rewrite reshape_ok by (rewrite Hs0; cbn; lia).
  cbn [rbind]. unfold transpose. cbn [shape length Nat.ltb Nat.leb andb rbind].
  unfold select_axis. cbn [shape swap nth upd length Nat.ltb Nat.leb andb rbind].
  unfold bop. cbn [shape]. rewrite bcast_shape_col_row. cbn [rbind].
  rewrite reshape_ok by (cbn; lia). cbn [rbind].
  eexists _, _. split; [reflexivity|]. cbn [shape get remove_at firstn skipn app].
  split; [reflexivity|]. split; [reflexivity|].
  assert (Hlv : forall p, p < l ->
     get d0 (unravel (shape d0) (ravel [1; l; 1] [0; p; 0]))
     = Z.of_nat (stage_of (x :: r) p)).
  { intros p Hp. rewrite Hs0, unravel_col. apply Hd0v, Hp. }
  split.
  { intros p Hp. cbv [swap insert_at upd nth firstn skipn app]. apply Hlv, Hp. }
  intros p q Hp Hq. cbn [tmap get shape].
  change (ravel [1; 1; l; l] [0; 0; p; q]) with (ravel [1; l; l] [0; p; q]).
  rewrite unravel_ravel
    by (cbn [in_bounds]; rewrite !(proj2 (Nat.ltb_lt _ _)) by lia; reflexivity).
  unfold bcast_idx. cbn [length Nat.sub skipn bpick Nat.eqb].
  cbv [swap insert_at upd nth firstn skipn app].
  assert (Hp' : (if l =? 1 then 0 else p) = p).
  { destruct (Nat.eqb_spec l 1); lia. }
  assert (Hq' : (if l =? 1 then 0 else q) = q).
  { destruct (Nat.eqb_spec l 1); lia. }
  rewrite Hp', Hq', !Hlv by assumption.
  rewrite Z.geb_leb. reflexivity.
Qed.

End Buffers.

(** ** Numbers *)

Section Numbers.

Lemma of_Z_eq_zero (z : Z) : Q2Qc (inject_Z z) = 0%Qc <-> z = 0%Z.
Proof.
  change 0%Qc with (Q2Qc (inject_Z 0)).
  rewrite Q2Qc_eq_iff. apply inject_Z_injective.
Qed.

Lemma Qc_eq_bool_false (x y : Qc) : x <> y -> Qc_eq_bool x y = false.
Proof. intros H. unfold Qc_eq_bool. destruct (Qc_eq_dec x y); congruence. Qed.

Lemma Qc_eq_bool_refl (x : Qc) : Qc_eq_bool x x = true.
Proof. unfold Qc_eq_bool. destruct (Qc_eq_dec x x); congruence. Qed.

Lemma py_truediv_int_ok (a b : Z) :
  b <> 0%Z ->
  py_truediv_int a b = Ok (Fin (Q2Qc (inject_Z a) / Q2Qc (inject_Z b))%Qc).
Proof.
  intros Hb. unfold py_truediv_int, py_truediv, of_Z.
  rewrite Qc_eq_bool_false; [reflexivity|].
  intros H. apply of_Z_eq_zero in H. contradiction.
Qed.

Lemma py_truediv_int_zero (a : Z) : py_truediv_int a 0 = Raise ZeroDivisionError.
Proof. reflexivity. Qed.

Lemma py_truediv_int_inv (a b : Z) (r : xreal) :
  py_truediv_int a b = Ok r ->
  b <> 0%Z /\ r = Fin (Q2Qc (inject_Z a) / Q2Qc (inject_Z b))%Qc.
Proof.
  intros H. destruct (Z.eq_dec b 0) as [->|Hb].
  - rewrite py_truediv_int_zero in H. discriminate.
  - rewrite py_truediv_int_ok in H by exact Hb. injection H as <-. auto.
Qed.

Lemma py_truediv_one : py_truediv xone xone = Ok xone.
Proof.
  unfold py_truediv, xone. rewrite Qc_eq_bool_false by discriminate.
  unfold Qcdiv. rewrite Qcmult_inv_r by discriminate. reflexivity.
Qed.

Lemma xmul_one_r (x : xreal) : xmul x xone = x.
Proof.
  destruct x as [q| | |]; try reflexivity.
  unfold xmul, xone. f_equal. apply Qcmult_1_r.
Qed.

Lemma xmul_one_l (x : xreal) : xmul xone x = x.
Proof.
  destruct x as [q| | |]; try reflexivity.
  unfold xmul, xone. f_equal. apply Qcmult_1_l.
Qed.

Lemma xmul_zero_r (x : xreal) : xfinite x = true -> xmul x xzero = xzero.
Proof.
  destruct x as [q| | |]; try discriminate. intros _.
  unfold xmul, xzero. f_equal. apply Qcmult_0_r.
Qed.

Lemma xadd_zero_r (x : xreal) : xadd x xzero = x.
Proof.
  destruct x as [q| | |]; try reflexivity.
  unfold xadd, xzero. f_equal. apply Qcplus_0_r.
Qed.

Lemma ratio_first (b : Z) : (Q2Qc (inject_Z 0) / Q2Qc (inject_Z b))%Qc = 0%Qc.
Proof. unfold Qcdiv. apply Qcmult_0_l. Qed.

Lemma ratio_last (b : Z) :
  b <> 0%Z -> (Q2Qc (inject_Z b) / Q2Qc (inject_Z b))%Qc = 1%Qc.
Proof.
  intros Hb. unfold Qcdiv. apply Qcmult_inv_r.
  intros H. apply of_Z_eq_zero in H. contradiction.
Qed.

End Numbers.

(** ** The constructor *)

Section Constructor.
Context {E : Env}.

Lemma pe_sizes (C : nat) (ini : Init) (r : list nat) (k : nat) :
  list_sum (map (fun u : Tensor xreal => nth 1 (shape u) 0)
                (map (fun ipn => mkT [1; snd ipn * snd ipn; C] (init_pe ini (fst ipn)))
                     (combine (seq k (length r)) r)))
  = sum_sq r.
Proof.
  revert k; induction r as [|x r IH]; intros k; [reflexivity|].
  cbn [length seq combine map].
  assert (Hc : forall a l, list_sum (a :: l) = a + list_sum l) by reflexivity.
  rewrite Hc, IH, sum_sq_cons, Nat.pow_2_r. reflexivity.
Qed.

Lemma position_embedding_spec (pns : list nat) (C : nat) (ini : Init) :
  pns <> [] ->
  exists pos, position_embedding pns (sum_sq pns) C ini = Ok pos
              /\ shape pos = [1; sum_sq pns; C].
Proof.
  destruct pns as [|x r]; [congruence|]. intros _.
  unfold position_embedding, enumerate, cat_nonempty.
  cbn [length seq combine map fst snd].
  destruct (@cat_list_shape xreal 1 [1; 0; C]
              (map (fun ipn => mkT [1; snd ipn * snd ipn; C] (init_pe ini (fst ipn)))
                   (combine (seq 1 (length r)) r))
              ltac:(cbn; lia)
              (mkT [1; x * x; C] (init_pe ini 0)) (x * x) eq_refl)
    as (pos & Hpos & Hs).
  { apply Forall_forall. intros u Hu. apply in_map_iff in Hu.
    destruct Hu as (ipn & <- & _). reflexivity. }
  rewrite Hpos. cbn [rbind]. rewrite pe_sizes in Hs. cbn [upd] in Hs.
  assert (Hs' : shape pos = [1; sum_sq (x :: r); C]).
  { rewrite Hs, sum_sq_cons, Nat.pow_2_r. reflexivity. }
  exists pos. split; [|exact Hs'].
  rewrite Hs'. unfold shape_eqb.
  destruct (list_eq_dec Nat.eq_dec _ _); [reflexivity | congruence].
Qed.

Lemma position_embedding_shape (pns : list nat) (l C : nat) (ini : Init) pos :
  position_embedding pns l C ini = Ok pos -> shape pos = [1; l; C].
Proof.
  unfold position_embedding. intros H.
  apply rbind_ok_inv in H. destruct H as (v & _ & H).
  apply rbind_ok_inv in H. destruct H as (u & Hc & H).
  injection H as <-. apply check_ok_inv in Hc. unfold shape_eqb in Hc.
  destruct (list_eq_dec Nat.eq_dec (shape v) [1; l; C]); [assumption|discriminate].
Qed.

(** The constructor returns exactly on the constructible arguments, and the
    object it returns is made of the values computed on the way. *)
Lemma VAR_init_ok (vae : VAEInfo) (cfg : Config) (ini : Init) :
  constructible cfg -> exists m, VAR_init vae cfg ini = Ok m.
Proof.
  intros (Hh & Hmod & Hp & Hnc & Hd & He). unfold VAR_init.
  destruct (Nat.eqb_spec (arg_num_heads cfg) 0) as [|_]; [contradiction|].
  rewrite Hmod. cbn [Nat.eqb check rbind].
  destruct (@position_embedding_spec (arg_patch_nums cfg) (arg_embed_dim cfg) ini Hp)
    as (pos & Hpos & _).
  destruct (@mask_buffers_spec (arg_patch_nums cfg) Hp) as (lvl & bias & Hb & _).
  rewrite Hpos, Hb.
  destruct (arg_patch_nums cfg) as [|pn0 r] eqn:Hpns; [contradiction|].
  cbn [rbind]. rewrite py_truediv_int_ok by lia. cbn [rbind].
  rewrite py_truediv_int_ok by lia. cbn [rbind].
  destruct (Nat.eqb_spec (arg_depth cfg) 0) as [|_]; [contradiction|].
  cbn [negb check rbind]. eexists. reflexivity.
Qed.

Lemma VAR_init_inv (vae : VAEInfo) (cfg : Config) (ini : Init) (m : VAR) :
  VAR_init vae cfg ini = Ok m ->
  constructible cfg
  /\ patch_nums m = arg_patch_nums cfg
  /\ L m = sum_sq (arg_patch_nums cfg)
  /\ first_l m = hd 0 (arg_patch_nums cfg) ^ 2
  /\ begin_ends m = begin_ends_from 0 (arg_patch_nums cfg)
  /\ num_stages_minus_1 m = length (arg_patch_nums cfg) - 1
  /\ C m = arg_embed_dim cfg
  /\ word_embed m = (mkT [arg_embed_dim cfg; vae_Cvae vae] (init_word_embed_w ini),
                     mkT [arg_embed_dim cfg] (init_word_embed_b ini))
  /\ Cvae m = vae_Cvae vae
  /\ V m = vae_vocab_size vae
  /\ num_classes m = arg_num_classes cfg
  /\ shape (selecting_idx m) = [1; arg_num_classes cfg]
  /\ shape (class_emb m) = [arg_num_classes cfg + 1; arg_embed_dim cfg]
  /\ shape (pos_start m) = [1; first_l m; arg_embed_dim cfg]
  /\ position_embedding (arg_patch_nums cfg) (sum_sq (arg_patch_nums cfg))
                        (arg_embed_dim cfg) ini = Ok (pos_1LC m)
  /\ shape (lvl_embed m) = [length (arg_patch_nums cfg); arg_embed_dim cfg]
  /\ mask_buffers (arg_patch_nums cfg) (sum_sq (arg_patch_nums cfg))
     = Ok (lvl_1L m, attn_bias_for_masking m)
  /\ prog_si m = (-1)%Z
  /\ blocks m = repeat attn_idle (arg_depth cfg)
  /\ match shared_ada_lin m with
     | None => True
     | Some (w, b) => shape w = [6 * arg_embed_dim cfg; arg_embed_dim cfg]
                      /\ shape b = [6 * arg_embed_dim cfg]
     end.
Proof.
  unfold VAR_init. intros H.
  destruct (Nat.eqb_spec (arg_num_heads cfg) 0) as [|Hh]; [discriminate|].
  apply rbind_ok_inv in H. destruct H as (u1 & Hc1 & H). apply check_ok_inv in Hc1.
  apply Nat.eqb_eq in Hc1.
  destruct (arg_patch_nums cfg) as [|pn0 r] eqn:Hpns; [discriminate|].
  cbn [rbind] in H.
  apply rbind_ok_inv in H. destruct H as (q & Hq & H).
  apply py_truediv_int_inv in Hq. destruct Hq as (He & _).
  apply rbind_ok_inv in H. destruct H as (p & Hp & H).
  apply py_truediv_int_inv in Hp. destruct Hp as (Hnc & _).
  apply rbind_ok_inv in H. destruct H as (pos & Hpos & H).
  apply rbind_ok_inv in H. destruct H as (u2 & Hc2 & H). apply check_ok_inv in Hc2.
  apply negb_true_iff, Nat.eqb_neq in Hc2.
  apply rbind_ok_inv in H. destruct H as ((lvl & bias) & Hb & H).
  injection H as <-. cbn.
  repeat match goal with |- _ /\ _ => split end; try reflexivity; try assumption.
  - unfold constructible. rewrite Hpns. repeat split; try assumption; try lia; congruence.
  - destruct (arg_shared_aln cfg && xleb xzero (arg_aln cfg)); auto.
Qed.

End Constructor.

Section ConstructorFacts.
Context {E : Env}.

Lemma VAR_init_wf (vae : VAEInfo) (cfg : Config) (ini : Init) (m : VAR) :
  VAR_init vae cfg ini = Ok m -> wf m.
Proof.
  intros H. apply VAR_init_inv in H.
  destruct H as ((_ & _ & Hp & Hnc0 & _) & Hpn & HL & Hfl & Hbe & Hn & HC & Hwe & HCv & HV
                 & Hnc & Hsel & Hce & Hps & Hpos & Hle & Hmb & _ & _ & Hada).
  destruct (mask_buffers_spec Hp) as (lvl & bias & Hb & Hls & Hbs & Hlv & _).
  rewrite Hb in Hmb. injection Hmb as Hl1 Hl2.
  apply position_embedding_shape in Hpos.
  constructor; rewrite <- ?Hl1, <- ?Hl2, ?Hpn, ?HC, ?HL, ?Hnc, ?HCv;
    try assumption; try reflexivity.
  - rewrite Hwe. reflexivity.
  - rewrite Hwe. reflexivity.
  - intros p Hp'. rewrite Hlv by exact Hp'.
    pose proof (stage_of_lt _ Hp'). lia.
Qed.

(** C4.  The constructor computes [L] as the sum of the squares and
    [first_l] as the first square; [begin_ends] cuts [0, L) into adjacent
    ranges, one per stage and of that stage's size; [lvl_1L] sends exactly
    the positions of a range to its stage. *)
Theorem stage_partition (vae : VAEInfo) (cfg : Config) (ini : Init) :
  (constructible cfg -> exists m, VAR_init vae cfg ini = Ok m)
  /\ forall m, VAR_init vae cfg ini = Ok m ->
       patch_nums m = arg_patch_nums cfg
       /\ L m = list_sum (map (fun pn => pn ^ 2) (patch_nums m))
       /\ (exists pn0 rest, patch_nums m = pn0 :: rest /\ first_l m = pn0 ^ 2)
       /\ length (begin_ends m) = length (patch_nums m)
       /\ (forall i b e, nth_error (begin_ends m) i = Some (b, e) ->
             exists pn, nth_error (patch_nums m) i = Some pn
                        /\ e = b + pn ^ 2
                        /\ (i = 0 -> b = 0)
                        /\ (forall b' e', nth_error (begin_ends m) (S i) = Some (b', e')
                                          -> b' = e)
                        /\ (S i = length (patch_nums m) -> e = L m)
                        /\ e <= L m)
       /\ shape (lvl_1L m) = [1; L m]
       /\ (forall p i b e, p < L m -> nth_error (begin_ends m) i = Some (b, e) ->
             (get (lvl_1L m) [0; p] = Z.of_nat i <-> b <= p < e)).
Proof.
  split; [apply VAR_init_ok|]. intros m H.
  pose proof (VAR_init_wf _ _ _ H) as W.
  apply VAR_init_inv in H.
  destruct H as ((_ & _ & Hp & _ & _) & Hpn & HL & Hfl & Hbe & _ & _ & _ & _ & _
                 & _ & _ & _ & _ & _ & _ & Hmb & _).
  destruct (mask_buffers_spec Hp) as (lvl & bias & Hb & Hls & Hbs & Hlv & _).
  rewrite Hb in Hmb. injection Hmb as Hl1 Hl2.
  rewrite <- Hl1, Hpn, HL, Hbe.
  split; [reflexivity|]. split; [apply sum_sq_list_sum|]. split.
  { destruct (arg_patch_nums cfg) as [|pn0 rest]; [contradiction|].
    exists pn0, rest. rewrite Hfl. auto. }
  split; [apply begin_ends_from_length|]. split.
  { intros i b e Hi. destruct (begin_ends_from_nth _ _ _ Hi) as (pn & Hn & Hb0 & He).
    cbn [Nat.add] in Hb0. exists pn.
    pose proof (firstn_S_nth _ _ Hn) as HS.
    pose proof (sum_sq_firstn_le (arg_patch_nums cfg) (S i)) as Hle.
    repeat split; try assumption.
    - intros ->. subst b. reflexivity.
    - intros b' e' Hi'. destruct (begin_ends_from_nth _ _ _ Hi') as (pn' & _ & Hb' & _).
      cbn [Nat.add] in Hb'. lia.
    - intros Hlen. rewrite Hlen, firstn_all in HS. lia.
    - lia. }
  split; [assumption|].
  intros p i b e Hp' Hi. rewrite Hlv by exact Hp'.
  destruct (begin_ends_from_nth _ _ _ Hi) as (pn & Hn & Hb0 & He).
  cbn [Nat.add] in Hb0. subst b e.
  rewrite <- (@stage_of_range _ p i pn Hp' Hn). split; [apply Nat2Z.inj | congruence].
Qed.

(** C7, as the code has it.  An undivisible width stops the constructor;
    the order of the stage list plays no part: the constructor returns
    exactly when the head count is not zero and divides the width, the
    stage list is not empty, and the width, the class count and the depth
    are not zero. *)
Theorem construction_errors (vae : VAEInfo) (cfg : Config) (ini : Init) :
  (arg_num_heads cfg = 0 -> VAR_init vae cfg ini = Raise ZeroDivisionError)
  /\ (arg_num_heads cfg <> 0 -> arg_embed_dim cfg mod arg_num_heads cfg <> 0 ->
      VAR_init vae cfg ini = Raise AssertionError)
  /\ (constructible cfg <-> exists m, VAR_init vae cfg ini = Ok m).
Proof.
  split; [|split].
  - intros H. unfold VAR_init. rewrite H. reflexivity.
  - intros Hh Hm. unfold VAR_init.
    destruct (Nat.eqb_spec (arg_num_heads cfg) 0); [contradiction|].
    destruct (Nat.eqb_spec (arg_embed_dim cfg mod arg_num_heads cfg) 0);
      [contradiction|reflexivity].
  - split; [apply VAR_init_ok|]. intros (m & H).
    apply VAR_init_inv in H. apply H.
Qed.

End ConstructorFacts.

(** C7 as stated fails: the stage list [2; 1] decreases, and the
    constructor returns a model for it. *)
Lemma construction_accepts_decreasing_stages :
  ~ nondecreasing [2; 1]
  /\ exists m, VAR_init Small.vae (Small.config [2; 1] 2) Small.init = Ok m.
Proof.
  split.
  - intros H. specialize (H 0 1 2 1 (Nat.le_0_l 1) eq_refl eq_refl). lia.
  - apply VAR_init_ok. unfold constructible. cbn.
    repeat split; discriminate.
Qed.

Lemma stage_partition_witness :
  constructible (Small.config Small.stages 2)
  /\ exists m, VAR_init Small.vae (Small.config Small.stages 2) Small.init = Ok m
               /\ L m = list_sum (map (fun pn => pn ^ 2) (patch_nums m)).
Proof.
  assert (Hc : constructible (Small.config Small.stages 2)).
  { unfold constructible. cbn. repeat split; discriminate. }
  split; [exact Hc|].
  destruct (proj1 (stage_partition Small.vae (Small.config Small.stages 2) Small.init) Hc)
    as [m Hm].
  exists m. split; [exact Hm|].
  exact (proj1 (proj2 (proj2 (stage_partition Small.vae (Small.config Small.stages 2)
                                              Small.init) m Hm))).
Defined.

Lemma construction_errors_witness :
  VAR_init Small.vae (Small.config Small.stages 0) Small.init = Raise ZeroDivisionError
  /\ VAR_init Small.vae (Small.config Small.stages 3) Small.init = Raise AssertionError.
Proof.
  split.
  - apply (proj1 (construction_errors Small.vae (Small.config Small.stages 0) Small.init)).
    reflexivity.
  - apply (proj1 (proj2 (construction_errors Small.vae (Small.config Small.stages 3)
                                             Small.init))).
    + cbn. discriminate.
    + cbn. discriminate.
Defined.

(** ** The state of a call *)

Section Frame.
Context {E : Env}.

Lemma frame_refl (m : VAR) : frame m m.
Proof. split; reflexivity. Qed.

Lemma frame_trans (m1 m2 m3 : VAR) : frame m1 m2 -> frame m2 m3 -> frame m1 m3.
Proof. unfold frame. intros [H1 H2] [H3 H4]. split; congruence. Qed.

Lemma frame_set_rng (g : rng_state) (m : VAR) : frame m (set_rng g m).
Proof. split; reflexivity. Qed.

Lemma frame_set_blocks (bs : list (AttnState KV)) (m : VAR) :
  length bs = length (blocks m) -> frame m (set_blocks bs m).
Proof. intros H. split; [reflexivity|]. symmetry. exact H. Qed.

Lemma run_blocks_length (c : Tensor xreal) (b : option (Tensor xreal))
    (bs : list (AttnState KV)) :
  forall i x, length (fst (run_blocks i bs x c b)) = length bs.
Proof.
  induction bs as [|s bs IH]; intros i x; [reflexivity|].
  cbn [run_blocks]. destruct (block_forward i s x c b) as [s' x'].
  specialize (IH (S i) x'). destruct (run_blocks (S i) bs x' c b) as [bs' x''].
  cbn [fst length] in *. congruence.
Qed.

Lemma frame_fields (m1 m2 : VAR) :
  frame m1 m2 ->
  attn_bias_for_masking m2 = attn_bias_for_masking m1
  /\ lvl_1L m2 = lvl_1L m1
  /\ patch_nums m2 = patch_nums m1
  /\ num_stages_minus_1 m2 = num_stages_minus_1 m1
  /\ prog_si m2 = prog_si m1
  /\ word_embed m2 = word_embed m1
  /\ gamma2_last m2 = gamma2_last m1
  /\ Cvae m2 = Cvae m1 /\ V m2 = V m1 /\ C m2 = C m1
  /\ shared_ada_lin m2 = shared_ada_lin m1.
Proof.
  unfold frame. intros [H _].
  repeat split.
  - exact (eq_sym (f_equal attn_bias_for_masking H)).
  - exact (eq_sym (f_equal lvl_1L H)).
  - exact (eq_sym (f_equal patch_nums H)).
  - exact (eq_sym (f_equal num_stages_minus_1 H)).
  - exact (eq_sym (f_equal prog_si H)).
  - exact (eq_sym (f_equal word_embed H)).
  - exact (eq_sym (f_equal gamma2_last H)).
  - exact (eq_sym (f_equal Cvae H)).
  - exact (eq_sym (f_equal V H)).
  - exact (eq_sym (f_equal C H)).
  - exact (eq_sym (f_equal shared_ada_lin H)).
Qed.

Lemma keeps_mret {A} (a : A) : keeps_frame (mret a).
Proof. intros w. apply frame_refl. Qed.

Lemma keeps_lift {A} (r : Res A) : keeps_frame (lift r).
Proof. intros w. apply frame_refl. Qed.

Lemma keeps_get_self : keeps_frame get_self.
Proof. intros w. apply frame_refl. Qed.

Lemma keeps_set_rng (g : rng_state) : keeps_frame (modify_self (set_rng g)).
Proof. intros w. apply frame_set_rng. Qed.

Lemma keeps_kv_caching_all (b : bool) : keeps_frame (kv_caching_all b).
Proof. intros w. apply frame_set_blocks. apply length_map. Qed.

Lemma keeps_with_rng {A} (sel : rng_sel) (f : rng_state -> A * rng_state) :
  keeps_frame (with_rng sel f).
Proof.
  intros w. unfold with_rng. destruct sel.
  - destruct (f (ambient w)). apply frame_refl.
  - destruct (f (rng (self w))). apply frame_set_rng.
Qed.

Lemma keeps_call_blocks (x : hidden) (c : Tensor xreal) (b : option (Tensor xreal)) :
  keeps_frame (call_blocks x c b).
Proof.
  intros w. unfold call_blocks.
  pose proof (run_blocks_length c b (blocks (self w)) 0 x) as Hl.
  destruct (run_blocks 0 (blocks (self w)) x c b).
  apply frame_set_blocks. exact Hl.
Qed.

Lemma keeps_mbind {A B} (c : M A) (k : A -> M B) :
  keeps_frame c -> (forall a, keeps_frame (k a)) -> keeps_frame (mbind c k).
Proof.
  intros Hc Hk w. unfold mbind. specialize (Hc w).
  destruct (c w) as [w1 [a|e]]; cbn [fst] in *; [|exact Hc].
  eapply frame_trans; [exact Hc | apply Hk].
Qed.

Ltac keeps :=
  repeat first
    [ apply keeps_mret | apply keeps_lift | apply keeps_get_self
    | apply keeps_set_rng | apply keeps_kv_caching_all | apply keeps_with_rng
    | apply keeps_call_blocks
    | apply keeps_mbind; [|intros ?]
    | match goal with
      | |- keeps_frame (match ?x with _ => _ end) => destruct x
      | |- keeps_frame (if ?x then _ else _) => destruct x
      | |- keeps_frame (let (_, _) := ?x in _) => destruct x
      end ].

Lemma keeps_forward (label_B : Tensor Z) (x : Tensor xreal) :
  keeps_frame (forward label_B x).
Proof. unfold forward, forward_logits, forward_prepare. keeps. Qed.

Lemma keeps_infer_stage B sel cfg top_k top_p returns_vemb gumbel tau cond lvl_pos si pn st :
  keeps_frame (infer_stage B sel cfg top_k top_p returns_vemb gumbel tau cond lvl_pos si pn st).
Proof. unfold infer_stage, stage_logits, stage_sample, stage_next. keeps. Qed.

Lemma keeps_infer_loop B sel cfg top_k top_p returns_vemb gumbel tau cond lvl_pos pns :
  forall si st log,
    keeps_frame (infer_loop B sel cfg top_k top_p returns_vemb gumbel tau cond lvl_pos
                            si pns st log).
Proof.
  induction pns as [|pn pns IH]; intros si st log; cbn [infer_loop].
  - apply keeps_mret.
  - apply keeps_mbind; [apply keeps_infer_stage|]. intros [st' e]. apply IH.
Qed.

Lemma keeps_infer_prologue B label_B g_seed : keeps_frame (infer_prologue B label_B g_seed).
Proof. unfold infer_prologue, resolve_rng, resolve_labels. keeps. Qed.

Lemma keeps_infer B label_B g_seed cfg top_k top_p returns_vemb gumbel tau :
  keeps_frame (autoregressive_infer_cfg B label_B g_seed cfg top_k top_p
                                        returns_vemb gumbel tau).
Proof.
  unfold autoregressive_infer_cfg, infer_logged.
  apply keeps_mbind; [|intros; apply keeps_mret].
  apply keeps_mbind; [apply keeps_infer_prologue|]. intros [[[sel cond] lvl_pos] st].
  apply keeps_mbind; [apply keeps_get_self|]. intros m.
  apply keeps_mbind; [apply keeps_infer_loop|]. intros [st' log].
  keeps.
Qed.

End Frame.

Section MaskClaim.
Context {E : Env}.

(** C3.  The mask the constructor stores has shape (1, 1, L, L); its entry
    at (p, q) is 0 when the stage of q is at most the stage of p and minus
    infinity otherwise; [forward] and [autoregressive_infer_cfg] leave the
    buffer as it is, whether they return or raise. *)
Theorem attention_mask (vae : VAEInfo) (cfg : Config) (ini : Init) (m : VAR) :
  VAR_init vae cfg ini = Ok m ->
  shape (attn_bias_for_masking m) = [1; 1; L m; L m]
  /\ (forall p q, p < L m -> q < L m ->
        get (attn_bias_for_masking m) [0; 0; p; q]
        = if stage_of (patch_nums m) q <=? stage_of (patch_nums m) p
          then xzero else NInf)
  /\ (forall w label_B x,
        attn_bias_for_masking (self (fst (forward label_B x w)))
        = attn_bias_for_masking (self w))
  /\ (forall w B label_B g_seed cfg top_k top_p returns_vemb gumbel tau,
        attn_bias_for_masking
          (self (fst (autoregressive_infer_cfg B label_B g_seed cfg top_k top_p
                                               returns_vemb gumbel tau w)))
        = attn_bias_for_masking (self w)).
Proof.
  intros H. apply VAR_init_inv in H.
  destruct H as ((_ & _ & Hp & _ & _) & Hpn & HL & _ & _ & _ & _ & _ & _ & _
                 & _ & _ & _ & _ & _ & _ & Hmb & _).
  destruct (mask_buffers_spec Hp) as (lvl & bias & Hb & Hls & Hbs & Hlv & Hbv).
  rewrite Hb in Hmb. injection Hmb as Hl1 Hl2.
  rewrite <- Hl2, Hpn, HL. split; [exact Hbs|]. split.
  - intros p q Hp' Hq'. rewrite Hbv, !Hlv by assumption.
    destruct (Nat.leb_spec (stage_of (arg_patch_nums cfg) q)
                           (stage_of (arg_patch_nums cfg) p)) as [Hle|Hgt].
    + rewrite (proj2 (Z.leb_le _ _)) by lia. reflexivity.
    + rewrite (proj2 (Z.leb_gt _ _)) by lia. reflexivity.
  - split.
    + intros w label_B x. apply (frame_fields (keeps_forward label_B x w)).
    + intros w B label_B g_seed cfg' top_k top_p returns_vemb gumbel tau.
      apply (frame_fields (keeps_infer B label_B g_seed cfg' top_k top_p
                                       returns_vemb gumbel tau w)).
Qed.

End MaskClaim.

Lemma attention_mask_witness :
  exists m, VAR_init Small.vae (Small.config Small.stages 2) Small.init = Ok m
            /\ shape (attn_bias_for_masking m) = [1; 1; L m; L m].
Proof.
  destruct (@VAR_init_ok Small.env Small.vae (Small.config Small.stages 2) Small.init)
    as [m Hm].
  { unfold constructible. cbn. repeat split; discriminate. }
  exists m. split; [exact Hm|].
  exact (proj1 (attention_mask Small.vae (Small.config Small.stages 2) Small.init Hm)).
Defined.

(** ** Shapes of the tensor operations *)

Section Shapes.

Lemma unsqueeze1_ok {A} (t : Tensor A) (a c : nat) :
  shape t = [a; c] ->
  exists r, unsqueeze 1 t = Ok r /\ shape r = [a; 1; c].
Proof.
  intros Hs. unfold unsqueeze. rewrite Hs. cbn [length Nat.leb].
  eexists. split; [reflexivity|]. reflexivity.
Qed.

Lemma unsqueeze0_ok {A} (t : Tensor A) (a c : nat) :
  shape t = [a; c] ->
  exists r, unsqueeze 0 t = Ok r /\ shape r = [1; a; c].
Proof.
  intros Hs. unfold unsqueeze. rewrite Hs. cbn [length Nat.leb].
  eexists. split; [reflexivity|]. reflexivity.
Qed.

Lemma expand3_ok {A} (t : Tensor A) (a f c B : nat) :
  shape t = [a; f; c] -> a = B \/ a = 1 ->
  exists r, expand [Some B; None; None] t = Ok r /\ shape r = [B; f; c].
Proof.
  intros Hs Ha. unfold expand. rewrite Hs. cbn [expand_shape].
  assert (Hb : (a =? B) || (a =? 1) = true).
  { destruct Ha as [->| ->]; [rewrite Nat.eqb_refl|rewrite orb_true_r]; reflexivity. }
  rewrite Hb. eexists. split; reflexivity.
Qed.

(** [t.expand(B, f, -1)] of a [(a, f0, c)] tensor. *)
Lemma expand_Bf_ok {A} (t : Tensor A) (a f0 c B f : nat) :
  shape t = [a; f0; c] -> a = B \/ a = 1 -> f0 = f \/ f0 = 1 ->
  exists r, expand [Some B; Some f; None] t = Ok r /\ shape r = [B; f; c].
Proof.
  intros Hs Ha Hf. unfold expand. rewrite Hs. cbn [expand_shape].
  assert (Hb : (a =? B) || (a =? 1) = true).
  { destruct Ha as [->| ->]; [rewrite Nat.eqb_refl|rewrite orb_true_r]; reflexivity. }
  assert (Hg : (f0 =? f) || (f0 =? 1) = true).
  { destruct Hf as [->| ->]; [rewrite Nat.eqb_refl|rewrite orb_true_r]; reflexivity. }
  rewrite Hg, Hb. eexists. split; reflexivity.
Qed.

(** [t.expand(B, -1)] of a [(1, n)] tensor. *)
Lemma expand_B_ok {A} (t : Tensor A) (n B : nat) :
  shape t = [1; n] ->
  exists r, expand [Some B; None] t = Ok r /\ shape r = [B; n]
            /\ forall i j, get r [i; j] = get t [0; if n =? 1 then 0 else j].
Proof.
  intros Hs. unfold expand. rewrite Hs. cbn [expand_shape Nat.eqb orb].
  rewrite orb_true_r. eexists. split; [reflexivity|]. split; [reflexivity|].
  intros i j. reflexivity.
Qed.

Lemma embedding_ok (table : Tensor xreal) (idx : Tensor Z) (n c : nat) :
  shape table = [n; c] ->
  (forall i, in_bounds (shape idx) i = true -> (0 <= get idx i < Z.of_nat n)%Z) ->
  exists r, embedding table idx = Ok r /\ shape r = shape idx ++ [c]
            /\ forall i, get r i = get table [Z.to_nat (get idx (removelast i)); last i 0].
Proof.
  intros Hs Hr. unfold embedding. rewrite Hs.
  assert (Ht : tforall (fun z => (0 <=? z)%Z && (z <? Z.of_nat n)%Z) idx = true).
  { apply tforall_spec. intros i Hi. specialize (Hr i Hi).
    apply andb_true_intro. split; [apply Z.leb_le|apply Z.ltb_lt]; lia. }
  rewrite Ht. eexists. split; [reflexivity|]. split; reflexivity.
Qed.

Lemma embedding_inv (table : Tensor xreal) (idx : Tensor Z) (r : Tensor xreal) :
  embedding table idx = Ok r ->
  exists n c, shape table = [n; c] /\ shape r = shape idx ++ [c]
    /\ forall i, in_bounds (shape idx) i = true -> (0 <= get idx i < Z.of_nat n)%Z.
Proof.
  unfold embedding. destruct (shape table) as [|n [|c [|? ?]]]; try discriminate.
  destruct (tforall _ idx) eqn:Ht; [|discriminate].
  intros H; injection H as <-. exists n, c. split; [reflexivity|]. split; [reflexivity|].
  intros i Hi. rewrite tforall_spec in Ht. specialize (Ht i Hi).
  apply andb_prop in Ht. destruct Ht as [H1 H2].
  apply Z.leb_le in H1. apply Z.ltb_lt in H2. lia.
Qed.

Lemma linear3_ok (w b x : Tensor xreal) (o i a l : nat) :
  shape w = [o; i] -> shape x = [a; l; i] ->
  exists r, linear w b x = Ok r /\ shape r = [a; l; o].
Proof.
  intros Hw Hx. unfold linear. rewrite Hw, Hx.
  cbn [last length Nat.eqb negb andb removelast app]. rewrite Nat.eqb_refl.
  eexists. split; reflexivity.
Qed.

Lemma linear2_ok (w b x : Tensor xreal) (o i a : nat) :
  shape w = [o; i] -> shape x = [a; i] ->
  exists r, linear w b x = Ok r /\ shape r = [a; o].
Proof.
  intros Hw Hx. unfold linear. rewrite Hw, Hx.
  cbn [last length Nat.eqb negb andb removelast app]. rewrite Nat.eqb_refl.
  eexists. split; reflexivity.
Qed.

Lemma slice_axis_ok {A} (k lo hi : nat) (t : Tensor A) :
  k < length (shape t) ->
  exists r, slice_axis k lo hi t = Ok r
            /\ shape r = upd k (Nat.min hi (nth k (shape t) 0)
                               - Nat.min lo (nth k (shape t) 0)) (shape t)
            /\ forall idx, get r idx
                           = get t (upd k (nth k idx 0 + Nat.min lo (nth k (shape t) 0)) idx).
Proof.
  intros Hk. unfold slice_axis. rewrite (proj2 (Nat.ltb_lt _ _) Hk).
  eexists. split; [reflexivity|]. split; reflexivity.
Qed.

Lemma scale_shape (s : xreal) (t : Tensor xreal) : shape (scale s t) = shape t.
Proof. reflexivity. Qed.

End Shapes.

(** ** Running a method *)

Section Running.
Context {E : Env}.

Lemma mbind_ok_inv {A B} (c : M A) (k : A -> M B) (w w2 : World) (b : B) :
  mbind c k w = (w2, Ok b) ->
  exists w1 a, c w = (w1, Ok a) /\ k a w1 = (w2, Ok b).
Proof.
  unfold mbind. destruct (c w) as [w1 [a|e]]; intros H; [eauto | discriminate].
Qed.

Lemma mbind_run {A B} (c : M A) (k : A -> M B) (w w1 : World) (a : A) :
  c w = (w1, Ok a) -> mbind c k w = k a w1.
Proof. intros H. unfold mbind. rewrite H. reflexivity. Qed.

Lemma mbind_raise {A B} (c : M A) (k : A -> M B) (w w1 : World) (e : exn) :
  c w = (w1, Raise e) -> mbind c k w = (w1, Raise e).
Proof. intros H. unfold mbind. rewrite H. reflexivity. Qed.

Lemma lift_ok_inv {A} (r : Res A) (w w1 : World) (a : A) :
  lift r w = (w1, Ok a) -> w1 = w /\ r = Ok a.
Proof. unfold lift. intros H. injection H as <- ->. auto. Qed.

Lemma get_self_inv (w w1 : World) (m : VAR) :
  get_self w = (w1, Ok m) -> w1 = w /\ m = self w.
Proof. unfold get_self. intros H. injection H as <- <-. auto. Qed.

Lemma draws_nth (n k : nat) (g : rng_state) :
  k < n -> nth k (fst (draws n g)) NaN = fst (rng_uniform (rng_after k g)).
Proof.
  revert k g; induction n as [|n IH]; intros k g Hk; [lia|].
  cbn [draws]. destruct (rng_uniform g) as [x g1] eqn:Hg.
  destruct (draws n g1) as [xs g2] eqn:Hd. cbn [fst].
  destruct k as [|k]; cbn [nth rng_after].
  - rewrite Hg. reflexivity.
  - rewrite Hg. cbn [snd]. rewrite <- IH by lia. rewrite Hd. reflexivity.
Qed.

Lemma draws_length (n : nat) (g : rng_state) : length (fst (draws n g)) = n.
Proof.
  revert g; induction n as [|n IH]; intros g; [reflexivity|].
  cbn [draws]. destruct (rng_uniform g) as [x g1].
  specialize (IH g1). destruct (draws n g1) as [xs g2]. cbn in *. congruence.
Qed.

Lemma torch_rand_spec (B : nat) (g : rng_state) :
  shape (fst (torch_rand B g)) = [B]
  /\ forall k, k < B ->
       get (fst (torch_rand B g)) [k] = fst (rng_uniform (rng_after k g)).
Proof.
  unfold torch_rand. pose proof (fun k => @draws_nth B k g) as Hn.
  destruct (draws B g) as [xs g']. cbn [fst shape get nth] in *.
  split; [reflexivity|]. exact Hn.
Qed.

End Running.

Ltac m_inv H :=
  repeat match type of H with
         | mbind _ _ _ = (_, Ok _) =>
             let w1 := fresh "w" in
             let a := fresh "a" in
             let Ha := fresh "Hrun" in
             apply mbind_ok_inv in H; destruct H as (w1 & a & Ha & H)
         end.

(** ** Teacher forcing: the label dropout and the keep-alive addition *)

Section ForwardFacts.
Context {E : Env}.

Lemma keeps_forward_logits (label_B : Tensor Z) (x : Tensor xreal) :
  keeps_frame (forward_logits label_B x).
Proof.
  unfold forward_logits, forward_prepare.
  repeat first
    [ apply keeps_mret | apply keeps_lift | apply keeps_get_self
    | apply keeps_with_rng | apply keeps_call_blocks
    | apply keeps_mbind; [|intros ?]
    | match goal with
      | |- keeps_frame (match ?x with _ => _ end) => destruct x
      end ].
Qed.

(** The value the keep-alive line adds is zero when both parameters it
    reads are finite. *)
Lemma keep_alive_term (w00 b0 v : xreal) :
  xfinite w00 = true -> xfinite b0 = true ->
  xadd v (xadd (xmul w00 (of_Z 0)) (xmul b0 (of_Z 0))) = v.
Proof.
  intros Hw Hb. change (of_Z 0) with xzero.
  rewrite !xmul_zero_r by assumption.
  rewrite (xadd_zero_r xzero). apply xadd_zero_r.
Qed.

Lemma keep_alive_spec (m : VAR) (y0 y : Tensor xreal) :
  (forall idx, in_bounds (shape (fst (word_embed m))) idx = true ->
               xfinite (get (fst (word_embed m)) idx) = true) ->
  (forall idx, in_bounds (shape (snd (word_embed m))) idx = true ->
               xfinite (get (snd (word_embed m)) idx) = true) ->
  keep_alive m y0 = Ok y ->
  shape y = shape y0 /\ forall idx, get y idx = get y0 idx.
Proof.
  intros Hw Hb. unfold keep_alive, item, update_at.
  destruct (in_bounds (shape y0) [0; 0; 0]); [|discriminate]. cbn [rbind].
  destruct (in_bounds (shape (fst (word_embed m))) [0; 0]) eqn:H1; [|discriminate].
  cbn [rbind].
  destruct (in_bounds (shape (snd (word_embed m))) [0]) eqn:H2; [|discriminate].
  cbn [rbind]. intros H; injection H as <-. cbn [shape get].
  split; [reflexivity|]. intros idx.
  destruct (list_eq_dec Nat.eq_dec idx [0; 0; 0]); [|reflexivity].
  apply keep_alive_term; [apply Hw, H1 | apply Hb, H2].
Qed.

Lemma keep_alive_ok (m : VAR) (y0 : Tensor xreal) :
  in_bounds (shape y0) [0; 0; 0] = true ->
  in_bounds (shape (fst (word_embed m))) [0; 0] = true ->
  in_bounds (shape (snd (word_embed m))) [0] = true ->
  exists y, keep_alive m y0 = Ok y.
Proof.
  intros H0 H1 H2. unfold keep_alive, item, update_at.
  rewrite H0, H1, H2. cbn [rbind]. eexists. reflexivity.
Qed.

(** C8.  With [prog_si = 0] and finite word-embedding parameters, the
    logits [forward] returns are, entry by entry, the logits [get_logits]
    returned before the keep-alive line; and [forward] returns them
    whenever the entries the line reads exist. *)
Theorem keep_alive_inert (label_B : Tensor Z) (x : Tensor xreal) (w : World) :
  prog_si (self w) = 0%Z ->
  (forall idx, in_bounds (shape (fst (word_embed (self w)))) idx = true ->
               xfinite (get (fst (word_embed (self w))) idx) = true) ->
  (forall idx, in_bounds (shape (snd (word_embed (self w)))) idx = true ->
               xfinite (get (snd (word_embed (self w))) idx) = true) ->
  (forall w' y, forward label_B x w = (w', Ok y) ->
     exists y0, forward_logits label_B x w = (w', Ok y0)
                /\ shape y = shape y0 /\ forall idx, get y idx = get y0 idx)
  /\ (forall w' y0, forward_logits label_B x w = (w', Ok y0) ->
        in_bounds (shape y0) [0; 0; 0] = true ->
        in_bounds (shape (fst (word_embed (self w)))) [0; 0] = true ->
        in_bounds (shape (snd (word_embed (self w)))) [0] = true ->
        exists y, forward label_B x w = (w', Ok y)
                  /\ shape y = shape y0 /\ forall idx, get y idx = get y0 idx).
Proof.
  intros Hp Hw Hb.
  assert (Hfr : forall w' r, forward_logits label_B x w = (w', r) ->
                  prog_si (self w') = 0%Z /\ word_embed (self w') = word_embed (self w)).
  { intros w' r Hr. pose proof (keeps_forward_logits label_B x w) as Hk.
    rewrite Hr in Hk. cbn [fst] in Hk. apply frame_fields in Hk.
    destruct Hk as (_ & _ & _ & _ & Hps & Hwe & _). split; congruence. }
  split.
  - intros w' y H. unfold forward in H.
    apply mbind_ok_inv in H. destruct H as (w1 & y0 & H0 & H).
    apply mbind_ok_inv in H. destruct H as (w2 & m & Hm & H).
    apply get_self_inv in Hm. destruct Hm as [-> ->].
    destruct (Hfr _ _ H0) as [Hp1 Hwe1]. rewrite Hp1 in H. cbn [Z.eqb] in H.
    apply lift_ok_inv in H. destruct H as [-> H].
    exists y0. split; [exact H0|].
    apply keep_alive_spec in H; [exact H | rewrite Hwe1; exact Hw | rewrite Hwe1; exact Hb].
  - intros w' y0 H0 Hi0 Hi1 Hi2.
    destruct (Hfr _ _ H0) as [Hp1 Hwe1].
    destruct (@keep_alive_ok (self w') y0 Hi0) as [y Hy];
      [rewrite Hwe1; exact Hi1 | rewrite Hwe1; exact Hi2 |].
    exists y. split.
    + unfold forward. erewrite mbind_run by exact H0. unfold mbind, get_self.
      rewrite Hp1. cbn [Z.eqb]. unfold lift. rewrite Hy. reflexivity.
    + apply keep_alive_spec in Hy;
        [exact Hy | rewrite Hwe1; exact Hw | rewrite Hwe1; exact Hb].
Qed.


End ForwardFacts.

Lemma keep_alive_inert_witness :
  exists m, VAR_init Small.vae (Small.config Small.stages 2) Small.init = Ok m
    /\ forall w' y,
         forward Small.labels (Small.teacher 13)
                 {| self := set_prog_si 0 m; ambient := 7 |} = (w', Ok y) ->
         exists y0,
           forward_logits Small.labels (Small.teacher 13)
                          {| self := set_prog_si 0 m; ambient := 7 |} = (w', Ok y0)
           /\ shape y = shape y0 /\ forall idx, get y idx = get y0 idx.
Proof.
  destruct (@VAR_init_ok Small.env Small.vae (Small.config Small.stages 2) Small.init)
    as [m Hm].
  { unfold constructible. cbn. repeat split; discriminate. }
  exists m. split; [exact Hm|].
  pose proof (VAR_init_inv _ _ _ Hm) as Hi.
  destruct Hi as (_ & _ & _ & _ & _ & _ & _ & Hwe & _).
  apply (keep_alive_inert Small.labels (Small.teacher 13)
                          {| self := set_prog_si 0 m; ambient := 7 |}).
  - reflexivity.
  - intros idx _. cbn [self set_prog_si word_embed]. rewrite Hwe. reflexivity.
  - intros idx _. cbn [self set_prog_si word_embed]. rewrite Hwe. reflexivity.
Defined.


(** ** Teacher forcing: shapes *)

Section ForwardShapes.
Context {E : Env}.

Lemma in_bounds1 (a : nat) (idx : list nat) :
  in_bounds [a] idx = true -> exists i, idx = [i] /\ i < a.
Proof.
  destruct idx as [|i [|? ?]]; cbn [in_bounds]; try discriminate.
  - intros H. apply andb_prop in H. destruct H as [H _].
    apply Nat.ltb_lt in H. eauto.
  - intros H. apply andb_prop in H. destruct H as [_ H]. discriminate.
Qed.

Lemma in_bounds2 (a b : nat) (idx : list nat) :
  in_bounds [a; b] idx = true -> exists i j, idx = [i; j] /\ i < a /\ j < b.
Proof.
  destruct idx as [|i [|j [|? ?]]]; cbn [in_bounds]; try discriminate.
  - intros H. apply andb_prop in H. destruct H as [_ H]. discriminate.
  - intros H. apply andb_prop in H. destruct H as [H1 H].
    apply andb_prop in H. destruct H as [H2 _].
    apply Nat.ltb_lt in H1. apply Nat.ltb_lt in H2. eauto.
  - intros H. apply andb_prop in H. destruct H as [_ H].
    apply andb_prop in H. destruct H as [_ H]. discriminate.
Qed.

Lemma drop_labels_ok (m : VAR) (u : Tensor xreal) (label_B : Tensor Z) (B : nat) :
  shape u = [B] -> shape label_B = [B] ->
  (forall k, k < B -> (0 <= get label_B [k] <= Z.of_nat (num_classes m))%Z) ->
  exists lbl, drop_labels m u label_B = Ok lbl /\ shape lbl = [B]
    /\ forall idx, in_bounds (shape lbl) idx = true ->
         (0 <= get lbl idx < Z.of_nat (num_classes m + 1))%Z.
Proof.
  intros Hu Hl Hr. unfold drop_labels.
  rewrite bop_same by (cbn [tmap shape]; congruence).
  eexists. split; [reflexivity|]. cbn [shape get tmap]. split; [exact Hu|].
  intros idx Hi. rewrite Hu in Hi.
  destruct (in_bounds1 _ _ Hi) as (k & -> & Hk).
  rewrite !bcast_idx_in_bounds
    by (rewrite ?Hu, ?Hl; cbn [in_bounds]; rewrite (proj2 (Nat.ltb_lt _ _) Hk); reflexivity).
  specialize (Hr k Hk). destruct (xltb _ _); lia.
Qed.

(** Every block hands a token map of the shape it was given to the next. *)
Lemma run_blocks_plain (c : Tensor xreal) (b : option (Tensor xreal)) :
  (forall i s x, exists s' y, block_forward i s (Plain x) c b = (s', Plain y)
                              /\ shape y = shape x) ->
  forall bs i x,
  exists bs' y, run_blocks i bs (Plain x) c b = (bs', Plain y)
                /\ shape y = shape x /\ length bs' = length bs.
Proof.
  intros Hb. induction bs as [|s bs IH]; intros i x.
  - exists [], x. auto.
  - cbn [run_blocks]. destruct (Hb i s x) as (s' & y & Hy & Hs). rewrite Hy.
    destruct (IH (S i) y) as (bs' & z & Hz & Hzs & Hl). rewrite Hz.
    exists (s' :: bs'), z. cbn [length]. repeat split; congruence.
Qed.

Lemma call_blocks_plain (m0 : VAR) (x c : Tensor xreal) (b : option (Tensor xreal))
    (w : World) :
  contract m0 ->
  exists bs y,
    call_blocks (Plain x) c b w
    = ({| self := set_blocks bs (self w); ambient := ambient w |}, Ok (Plain y))
    /\ shape y = shape x /\ length bs = length (blocks (self w)).
Proof.
  intros Hc. unfold call_blocks.
  destruct (@run_blocks_plain c b (fun i s x => c_block Hc i s x c b)
                              (blocks (self w)) 0 x)
    as (bs & y & Hr & Hs & Hl).
  rewrite Hr. exists bs, y. auto.
Qed.

Lemma shared_ada_ok (m : VAR) (cond : Tensor xreal) (B : nat) :
  wf m -> shape cond = [B; C m] -> (shared_ada_lin m = None \/ 0 < C m) ->
  exists r, shared_ada_lin_forward m cond = Ok r.
Proof.
  intros W Hc Hada. unfold shared_ada_lin_forward.
  pose proof (wf_ada W) as Ha.
  destruct (shared_ada_lin m) as [[wt bs]|]; [|eauto].
  destruct Hada as [|HC]; [discriminate|]. destruct Ha as [Hw Hb].
  destruct (@linear2_ok wt bs (tmap silu cond) (6 * C m) (C m) B Hw Hc) as (y & Hy & Hys).
  rewrite Hy. cbn [rbind]. rewrite Hw. cbn [nth].
  unfold reshape_infer. cbn [filter length fold_right map].
  rewrite Hys. cbn [numel fold_right].
  assert (H6 : 6 * C m / 6 = C m) by (rewrite Nat.mul_comm; apply Nat.div_mul; lia).
  rewrite H6.
  assert (Hk : 1 * (6 * (C m * 1)) = 6 * C m) by lia.
  assert (Hn : B * (6 * C m * 1) = B * (6 * C m)) by lia.
  rewrite Hk, Hn.
  destruct (Nat.eqb_spec (6 * C m) 0) as [|_]; [lia|].
  rewrite Nat.Div0.mod_mul. cbn [Nat.eqb negb orb].
  rewrite Nat.div_mul by lia.
  unfold reshape. rewrite Hys. cbn [numel fold_right].
  assert (He : B * (1 * (6 * (C m * 1))) = B * (6 * C m * 1)) by lia.
  rewrite He, Nat.eqb_refl. eauto.
Qed.

Lemma get_logits_plain (m : VAR) (h cond : Tensor xreal) (tau inv_tau : xreal) (a l : nat) :
  contract m -> shape h = [a; l; C m] -> py_truediv xone tau = Ok inv_tau ->
  get_logits m (Plain h) cond tau = Ok (scale inv_tau (head (head_nm h cond)))
  /\ shape (scale inv_tau (head (head_nm h cond))) = [a; l; V m].
Proof.
  intros Hc Hh Ht. unfold get_logits. cbn [rbind]. rewrite Ht. cbn [rbind].
  split; [reflexivity|]. rewrite scale_shape. apply (c_head Hc), Hh.
Qed.

Lemma active_range_spec (m : VAR) (bg ed : nat) :
  wf m -> active_range m = Ok (bg, ed) ->
  ed <= L m
  /\ ((prog_si m < 0)%Z -> ed = L m)
  /\ ((0 <= prog_si m)%Z -> nth_error (begin_ends m) (Z.to_nat (prog_si m)) = Some (bg, ed))
  /\ (prog_si m = 0%Z -> ed = first_l m).
Proof.
  intros W. unfold active_range.
  destruct (Z.leb_spec 0 (prog_si m)) as [Hp|Hp].
  - destruct (nth_error (begin_ends m) (Z.to_nat (prog_si m))) as [[b e]|] eqn:Hn;
      [|discriminate].
    intros H; injection H as -> ->.
    pose proof Hn as Hn'. rewrite (wf_begin_ends W) in Hn'.
    destruct (begin_ends_from_nth _ _ _ Hn') as (pn & Hpn & Hb & He).
    cbn [Nat.add] in Hb.
    pose proof (firstn_S_nth _ _ Hpn) as HS.
    pose proof (sum_sq_firstn_le (patch_nums m) (S (Z.to_nat (prog_si m)))) as Hle.
    rewrite <- (wf_L W) in Hle.
    repeat split; try lia; try assumption.
    intros H0. rewrite H0 in Hpn, Hb. cbn [Z.to_nat firstn] in Hpn, Hb.
    rewrite sum_sq_nil in Hb. rewrite (wf_first_l W).
    destruct (patch_nums m); [discriminate|]. cbn [nth_error hd] in *.
    injection Hpn as ->. lia.
  - intros H; injection H as <- <-. repeat split; try lia.
Qed.

End ForwardShapes.

Ltac bshape :=
  repeat first
    [ apply Forall2_nil
    | apply Forall2_cons; [first [left; reflexivity | right; reflexivity]|] ].

Section ForwardRun.
Context {E : Env}.

Lemma iop_mismatch {A B} (f : A -> B -> A) (x : Tensor A) (y : Tensor B)
    (b n ed c : nat) :
  shape x = [b; n; c] -> shape y = [b; ed; c] -> n <> ed -> ed <> 1 ->
  iop f x y = Raise RuntimeError.
Proof.
  intros Hx Hy Hn He. unfold iop, bop, bcast_shape. rewrite Hx, Hy.
  cbn [length Nat.max pad_left Nat.sub repeat app bzip].
  rewrite Nat.eqb_refl.
  destruct (Nat.eqb_spec n ed) as [|_]; [contradiction|].
  destruct (Nat.eqb_spec ed 1) as [|_]; [contradiction|].
  destruct (Nat.eqb_spec n 1) as [->|_]; [|reflexivity].
  rewrite Nat.eqb_refl. cbn [shape].
  destruct (list_eq_dec Nat.eq_dec [b; ed; c] [b; 1; c]) as [Heq|_]; [|reflexivity].
  injection Heq as Heq. contradiction.
Qed.

(** What lines 221-241 of [forward] do on a well-formed model: they
    return when the seed and the teacher features have as many positions as
    the active prefix, and raise when they have another number of
    positions (unless the prefix has one position, which broadcasts). *)
Lemma forward_prepare_run (label_B : Tensor Z) (x : Tensor xreal) (w : World)
    (B Lt bg ed : nat) :
  wf (self w) ->
  shape label_B = [B] ->
  (forall k, k < B -> (0 <= get label_B [k] <= Z.of_nat (num_classes (self w)))%Z) ->
  shape x = [B; Lt; Cvae (self w)] ->
  (shared_ada_lin (self w) = None \/ 0 < C (self w)) ->
  active_range (self w) = Ok (bg, ed) ->
  let n := if (prog_si (self w) =? 0)%Z then first_l (self w)
           else first_l (self w) + Lt in
  let w1 := {| self := self w; ambient := snd (torch_rand B (ambient w)) |} in
  (n = ed ->
   exists i, forward_prepare label_B x w = (w1, Ok i)
             /\ shape (in_x_BLC i) = [B; ed; C (self w)]
             /\ shape (in_attn_bias i) = [1; 1; ed; ed]
             /\ shape (in_cond_BD i) = [B; C (self w)])
  /\ (n <> ed -> ed <> 1 -> forward_prepare label_B x w = (w1, Raise RuntimeError)).
Proof.
  intros W Hl Hlr Hx Hada Har n w1.
  set (m := self w) in *.
  destruct (active_range_spec W Har) as (Hed & _).
  destruct (torch_rand_spec B (ambient w)) as [Hus _].
  destruct (torch_rand B (ambient w)) as [u g'] eqn:Hu. cbn [fst snd] in *.
  destruct (@drop_labels_ok _ m u label_B B Hus Hl Hlr) as (lbl & Hlbl & Hlbls & Hlblr).
  destruct (@embedding_ok (class_emb m) lbl _ _ (wf_class_emb W) Hlblr)
    as (cond & Hcond & Hconds & _).
  rewrite Hlbls in Hconds. cbn [app] in Hconds.
  destruct (unsqueeze1_ok cond Hconds) as (s1 & Hs1 & Hs1s).
  destruct (@expand_Bf_ok _ s1 B 1 (C m) B (first_l m) Hs1s (or_introl eq_refl)
                          (or_intror eq_refl)) as (s2 & Hs2 & Hs2s).
  destruct (@expand_Bf_ok _ (pos_start m) 1 (first_l m) (C m) B (first_l m)
                          (wf_pos_start W) (or_intror eq_refl) (or_introl eq_refl))
    as (p2 & Hp2 & Hp2s).
  pose proof (@bop_same _ _ _ xadd s2 p2 ltac:(congruence)) as Hsos.
  set (sos := mkT (shape s2) _) in Hsos.
  assert (Hx0 : exists x0,
             (if (prog_si m =? 0)%Z then Ok sos
              else rbind (linear (fst (word_embed m)) (snd (word_embed m)) x)
                         (fun we => cat 1 sos we)) = Ok x0
             /\ shape x0 = [B; n; C m]).
  { subst n. destruct (prog_si m =? 0)%Z.
    - exists sos. split; [reflexivity|]. exact Hs2s.
    - destruct (@linear3_ok (fst (word_embed m)) (snd (word_embed m)) x _ _ _ _
                            (wf_word_w W) Hx) as (we & Hwe & Hwes).
      rewrite Hwe. cbn [rbind]. rewrite cat_ok.
      + eexists. split; [reflexivity|]. unfold sos. cbn [shape].
        rewrite Hs2s, Hwes. reflexivity.
      + unfold sos. cbn [shape]. rewrite Hs2s. cbn. lia.
      + unfold sos. cbn [shape]. rewrite Hs2s, Hwes. reflexivity. }
  destruct Hx0 as (x0 & Hx0 & Hx0s).
  destruct (@slice_axis_ok _ 1 0 ed (lvl_1L m)) as (lv0 & Hlv0 & Hlv0s & Hlv0v).
  { rewrite (wf_lvl_shape W). cbn. lia. }
  rewrite (wf_lvl_shape W) in Hlv0s, Hlv0v. cbn [nth upd] in Hlv0s, Hlv0v.
  rewrite Nat.min_l, Nat.min_0_l, Nat.sub_0_r in Hlv0s by exact Hed.
  destruct (@expand_B_ok _ lv0 ed B Hlv0s) as (lv & Hlv & Hlvs & Hlvv).
  destruct (@embedding_ok (lvl_embed m) lv _ _ (wf_lvl_embed W)) as (le & Hle & Hles & _).
  { intros idx Hi. rewrite Hlvs in Hi. destruct (in_bounds2 _ _ _ Hi) as (i & j & -> & Hi1 & Hj).
    rewrite Hlvv, Hlv0v. cbn [nth upd]. rewrite Nat.min_0_l.
    apply (wf_lvl_range W). destruct (ed =? 1); lia. }
  rewrite Hlvs in Hles. cbn [app] in Hles.
  destruct (@slice_axis_ok _ 1 0 ed (pos_1LC m)) as (ps & Hps & Hpss & _).
  { rewrite (wf_pos_1LC W). cbn. lia. }
  rewrite (wf_pos_1LC W) in Hpss. cbn [nth upd] in Hpss.
  rewrite Nat.min_l, Nat.min_0_l, Nat.sub_0_r in Hpss by exact Hed.
  pose proof (@bop_into _ _ _ xadd le ps) as Hlp.
  rewrite Hles, Hpss in Hlp. specialize (Hlp ltac:(bshape)).
  set (lp := mkT [B; ed; C m] _) in Hlp.
  destruct (@slice_axis_ok _ 2 0 ed (attn_bias_for_masking m)) as (a1 & Ha1 & Ha1s & _).
  { rewrite (wf_bias W). cbn. lia. }
  rewrite (wf_bias W) in Ha1s. cbn [nth upd] in Ha1s.
  rewrite Nat.min_l, Nat.min_0_l, Nat.sub_0_r in Ha1s by exact Hed.
  destruct (@slice_axis_ok _ 3 0 ed a1) as (a2 & Ha2 & Ha2s & _).
  { rewrite Ha1s. cbn. lia. }
  rewrite Ha1s in Ha2s. cbn [nth upd] in Ha2s.
  rewrite Nat.min_l, Nat.min_0_l, Nat.sub_0_r in Ha2s by exact Hed.
  destruct (@shared_ada_ok _ m cond B W Hconds Hada) as (gss & Hgss).
  (* run the method *)
  assert (Hrun : forall tail : Tensor xreal -> M BlockInput,
    forward_prepare label_B x w
    = mbind (lift (rbind (slice_axis 1 0 ed (lvl_1L m)) (fun lv =>
             rbind (expand [Some B; None] lv) (fun lv =>
             rbind (embedding (lvl_embed m) lv) (fun le =>
             rbind (slice_axis 1 0 ed (pos_1LC m)) (fun ps =>
             rbind (bop xadd le ps) (fun lp => iop xadd x0 lp)))))))
            (fun x_BLC =>
               mbind (lift (rbind (slice_axis 2 0 ed (attn_bias_for_masking m))
                                  (fun a => slice_axis 3 0 ed a)))
                     (fun attn_bias =>
                        mbind (lift (shared_ada_lin_forward m cond))
                              (fun gss' =>
                                 mret {| in_x_BLC := x_BLC; in_attn_bias := attn_bias;
                                         in_cond_BD := cond; in_cond_BD_or_gss := gss';
                                         in_label_B := lbl |})))
            w1).
  { intros _. unfold forward_prepare.
    unfold mbind at 1. unfold get_self at 1. fold m.
    unfold mbind at 1. unfold lift at 1. rewrite Har.
    unfold mbind at 1. unfold lift at 1. rewrite Hx.
    unfold mbind at 1. unfold with_rng at 1. rewrite Hu.
    unfold mbind at 1. unfold lift at 1. cbn [self]. fold m. rewrite Hlbl.
    unfold mbind at 1. unfold lift at 1. cbn [self]. rewrite Hcond.
    unfold mbind at 1. unfold lift at 1. rewrite Hs1. cbn [rbind].
    rewrite Hs2. cbn [rbind]. rewrite Hp2. cbn [rbind]. rewrite Hsos.
    unfold mbind at 1. unfold lift at 1. rewrite Hx0.
    reflexivity. }
  specialize (Hrun (fun _ => mret {| in_x_BLC := x0; in_attn_bias := x0; in_cond_BD := x0;
                                     in_cond_BD_or_gss := x0; in_label_B := lbl |})).
  rewrite Hrun. unfold mbind at 1. unfold lift at 1.
  rewrite Hlv0. cbn [rbind]. rewrite Hlv. cbn [rbind]. rewrite Hle. cbn [rbind].
  rewrite Hps. cbn [rbind]. rewrite Hlp. cbn [rbind].
  split.
  - intros Hn.
    rewrite iop_into
      by (rewrite Hx0s; unfold lp; cbn [shape]; rewrite Hn; bshape).
    unfold mbind at 1. unfold lift at 1. rewrite Ha1. cbn [rbind]. rewrite Ha2.
    unfold mbind at 1. unfold lift at 1. rewrite Hgss.
    unfold mret. eexists. split; [reflexivity|].
    cbn [in_x_BLC in_attn_bias in_cond_BD shape].
    rewrite Hx0s, Hn. auto.
  - intros Hn He.
    rewrite (@iop_mismatch _ _ xadd x0 lp B n ed (C m) Hx0s eq_refl Hn He).
    reflexivity.
Qed.

End ForwardRun.

Section ForwardTheorem.
Context {E : Env}.

Lemma contract_set_blocks (bs : list (AttnState KV)) (m : VAR) :
  contract m -> contract (set_blocks bs m).
Proof. intros [H1 H2 H3 H4 H5 H6 H7]. constructor; assumption. Qed.

Lemma contract_set_rng (g : rng_state) (m : VAR) :
  contract m -> contract (set_rng g m).
Proof. intros [H1 H2 H3 H4 H5 H6 H7]. constructor; assumption. Qed.

Lemma wf_set_blocks (bs : list (AttnState KV)) (m : VAR) : wf m -> wf (set_blocks bs m).
Proof. intros []. constructor; assumption. Qed.

Lemma wf_set_rng (g : rng_state) (m : VAR) : wf m -> wf (set_rng g m).
Proof. intros []. constructor; assumption. Qed.

Lemma wf_set_prog_si (k : Z) (m : VAR) : wf m -> wf (set_prog_si k m).
Proof. intros []. constructor; assumption. Qed.


End ForwardTheorem.

(** ** The small instance *)

Lemma small_built : Small.built = Ok Small.model.
Proof. vm_compute. reflexivity. Qed.

Lemma small_wf : wf Small.model.
Proof. apply (@VAR_init_wf _ Small.vae (Small.config Small.stages 2) Small.init). exact small_built. Qed.

Lemma small_contract (m : VAR) :
  V m = Small.vocab -> Cvae m = Small.code_width -> patch_nums m = Small.stages ->
  num_classes m <> 0 -> shape (selecting_idx m) = [1; num_classes m] ->
  contract m.
Proof.
  intros HV HCv Hp Hnc Hsel. constructor.
  - intros i s x c b. eexists _, x. split; reflexivity.
  - intros h c a l Hh. cbn [head head_nm Small.env shape]. rewrite Hh, HV. reflexivity.
  - intros lg k p g b l Hl. cbn [sample_with_top_k_top_p_ Small.env fst snd shape get].
    rewrite Hl, HV. cbn [nth]. split; [reflexivity|]. split; [reflexivity|].
    intros i j _ _. split; [lia|]. apply Nat2Z.inj_lt.
    apply Nat.mod_upper_bound. discriminate.
  - intros lg tau g. reflexivity.
  - cbn [vq_embedding_weight Small.env shape]. rewrite HV, HCv. reflexivity.
  - intros si f h b pn1 Hn Hh.
    cbn [get_next_autoregressive_input Small.env snd full shape].
    rewrite Hh. cbn [nth]. rewrite HCv, Nat.add_1_r. rewrite Hp in Hn.
    rewrite (nth_error_nth _ _ 0 Hn). reflexivity.
  - intros n g. cbn [torch_multinomial Small.env fst shape get]. split; [reflexivity|].
    intros j _. rewrite Hsel. cbn [nth]. split; [lia|]. apply Nat2Z.inj_lt.
    apply Nat.mod_upper_bound. exact Hnc.
Qed.

Lemma small_model_contract (k : Z) : contract (set_prog_si k Small.model).
Proof. apply small_contract; try reflexivity. discriminate. Qed.



(** ** Generation: labels *)

Section Labels.
Context {E : Env}.

Lemma cfg_labels_full (m : VAR) (lb : Tensor Z) (B : nat) :
  shape lb = [B] ->
  exists t, cfg_labels m lb = Ok t /\ shape t = [B + B]
    /\ (forall k, k < B -> get t [k] = get lb [k])
    /\ (forall k, B <= k -> get t [k] = Z.of_nat (num_classes m)).
Proof.
  intros Hs. unfold cfg_labels. rewrite cat_ok; [| rewrite Hs; cbn; lia | reflexivity].
  eexists. split; [reflexivity|]. cbn [shape get full]. rewrite Hs. cbn [nth upd].
  split; [reflexivity|]. split.
  - intros k Hk. rewrite (proj2 (Nat.ltb_lt _ _) Hk). reflexivity.
  - intros k Hk. rewrite (proj2 (Nat.ltb_ge _ _) Hk). reflexivity.
Qed.

Lemma resolve_labels_int (B : nat) (z : Z) (sel : rng_sel) (w : World) :
  (z < 2 ^ 63)%Z ->
  resolve_labels B (Some (LabelInt z)) sel w
  = (w, Ok (full [B] (if (z <? 0)%Z then Z.of_nat (num_classes (self w)) else z))).
Proof.
  intros Hz. unfold resolve_labels. erewrite mbind_run by reflexivity.
  destruct (z <? 0)%Z; [reflexivity|].
  rewrite (proj2 (Z.ltb_lt _ _) Hz). reflexivity.
Qed.

Lemma resolve_labels_huge (B : nat) (z : Z) (sel : rng_sel) (w : World) :
  (2 ^ 63 <= z)%Z ->
  resolve_labels B (Some (LabelInt z)) sel w = (w, Raise RuntimeError).
Proof.
  intros Hz. unfold resolve_labels. erewrite mbind_run by reflexivity.
  rewrite (proj2 (Z.ltb_ge z 0)) by lia.
  rewrite (proj2 (Z.ltb_ge _ _) Hz). reflexivity.
Qed.

Lemma resolve_labels_tensor (B : nat) (t : Tensor Z) (sel : rng_sel) (w : World) :
  resolve_labels B (Some (LabelTensor t)) sel w = (w, Ok t).
Proof. reflexivity. Qed.

Lemma infer_prologue_int (B : nat) (z : Z) (g_seed : option Z) (w : World) :
  (z < 0)%Z ->
  infer_prologue B (Some (LabelInt z)) g_seed w
  = infer_prologue B (Some (LabelTensor (full [B] (Z.of_nat (num_classes (self w))))))
                   g_seed w.
Proof.
  intros Hz. unfold infer_prologue.
  destruct (resolve_rng g_seed w) as [w0 [sel|e]] eqn:Hr.
  2:{ erewrite !(@mbind_raise _ _ _ (resolve_rng g_seed)) by exact Hr. reflexivity. }
  assert (Hnc : num_classes (self w0) = num_classes (self w)).
  { destruct g_seed as [s|]; cbn [resolve_rng] in Hr.
    - destruct (seed_accepted s); [|discriminate].
      injection Hr as <- _. reflexivity.
    - injection Hr as <- _. reflexivity. }
  erewrite (@mbind_run _ _ _ (resolve_rng g_seed)) by exact Hr.
  erewrite (@mbind_run _ _ _ (resolve_rng g_seed)) by exact Hr.
  erewrite (@mbind_run _ _ _ (resolve_labels B (Some (LabelInt z)) sel))
    by (apply resolve_labels_int; lia).
  erewrite (@mbind_run _ _ _ (resolve_labels B (Some (LabelTensor _)) sel))
    by apply resolve_labels_tensor.
  rewrite Hnc, (proj2 (Z.ltb_lt _ _) Hz). reflexivity.
Qed.

(** C10.  A negative integer label becomes [num_classes] for all [B]
    samples: the call is the call on [B] labels [num_classes]; both
    halves of the guidance batch then read the row [num_classes] of the
    class embedding, and nothing is raised for the label. *)
Theorem negative_label_is_unconditional (B : nat) (z : Z) (w : World) :
  (z < 0)%Z ->
  let nc := Z.of_nat (num_classes (self w)) in
  (forall sel, resolve_labels B (Some (LabelInt z)) sel w = (w, Ok (full [B] nc)))
  /\ (forall g_seed cfg top_k top_p returns_vemb gumbel tau,
        autoregressive_infer_cfg B (Some (LabelInt z)) g_seed cfg top_k top_p
                                 returns_vemb gumbel tau w
        = autoregressive_infer_cfg B (Some (LabelTensor (full [B] nc))) g_seed cfg
                                   top_k top_p returns_vemb gumbel tau w)
  /\ exists l2, cfg_labels (self w) (full [B] nc) = Ok l2
       /\ shape l2 = [B + B]
       /\ (forall k, k < B + B -> get l2 [k] = nc)
       /\ (wf (self w) ->
           exists cond, embedding (class_emb (self w)) l2 = Ok cond
             /\ shape cond = [B + B; C (self w)]
             /\ forall k c, get cond [k; c]
                            = get (class_emb (self w)) [num_classes (self w); c]).
Proof.
  intros Hz nc. split; [|split].
  - intros sel. rewrite resolve_labels_int by lia.
    rewrite (proj2 (Z.ltb_lt _ _) Hz). reflexivity.
  - intros. unfold autoregressive_infer_cfg, infer_logged.
    unfold mbind at 1 3. unfold mbind at 1 5.
    rewrite (infer_prologue_int B g_seed w Hz). reflexivity.
  - destruct (@cfg_labels_full (self w) (full [B] nc) B eq_refl) as (l2 & Hl2 & Hs & Hlo & Hhi).
    exists l2. split; [exact Hl2|]. split; [exact Hs|].
    assert (Hall : forall k, get l2 [k] = nc).
    { intros k. destruct (Nat.lt_ge_cases k B) as [Hk|Hk];
        [rewrite Hlo by exact Hk | rewrite Hhi by exact Hk]; reflexivity. }
    split; [intros k _; apply Hall|].
    intros W.
    destruct (@embedding_ok (class_emb (self w)) l2 _ _ (wf_class_emb W))
      as (cond & Hc & Hcs & Hcv).
    { intros idx Hi. rewrite Hs in Hi. destruct (in_bounds1 _ _ Hi) as (k & -> & _).
      rewrite Hall. unfold nc. lia. }
    exists cond. split; [exact Hc|]. rewrite Hs in Hcs. split; [exact Hcs|].
    intros k c. rewrite Hcv. cbn [removelast last]. rewrite Hall. unfold nc.
    rewrite Nat2Z.id. reflexivity.
Qed.

End Labels.

Lemma negative_label_is_unconditional_witness :
  resolve_labels 2 (Some (LabelInt (-1))) SelfRng (Small.world (-1))
  = (Small.world (-1), Ok (full [2] 3%Z)).
Proof.
  apply (proj1 (negative_label_is_unconditional 2 (z := -1) (Small.world (-1)) eq_refl)).
Defined.

(** ** Generation: the seeded call does not depend on the default generator *)

Section Seeded.
Context {E : Env}.

Lemma ign_mret {A} (a : A) : ignores_ambient (mret a).
Proof. intros w g. reflexivity. Qed.

Lemma ign_lift {A} (r : Res A) : ignores_ambient (lift r).
Proof. intros w g. reflexivity. Qed.

Lemma ign_get_self : ignores_ambient get_self.
Proof. intros w g. reflexivity. Qed.

Lemma ign_modify_self (f : VAR -> VAR) : ignores_ambient (modify_self f).
Proof. intros w g. reflexivity. Qed.

Lemma ign_kv_caching_all (b : bool) : ignores_ambient (kv_caching_all b).
Proof. intros w g. reflexivity. Qed.

Lemma ign_with_self_rng {A} (f : rng_state -> A * rng_state) :
  ignores_ambient (with_rng SelfRng f).
Proof.
  intros w g. unfold with_rng, with_ambient. cbn [self ambient].
  destruct (f (rng (self w))). reflexivity.
Qed.

Lemma ign_call_blocks (x : hidden) (c : Tensor xreal) (b : option (Tensor xreal)) :
  ignores_ambient (call_blocks x c b).
Proof.
  intros w g. unfold call_blocks, with_ambient. cbn [self ambient].
  destruct (run_blocks 0 (blocks (self w)) x c b). reflexivity.
Qed.

Lemma ign_mbind {A B} (c : M A) (k : A -> M B) :
  ignores_ambient c -> (forall a, ignores_ambient (k a)) -> ignores_ambient (mbind c k).
Proof.
  intros Hc Hk w g. unfold mbind. rewrite Hc.
  destruct (c w) as [w1 [a|e]]; cbn [fst snd]; [apply Hk | reflexivity].
Qed.

Ltac ign :=
  repeat first
    [ apply ign_mret | apply ign_lift | apply ign_get_self
    | apply ign_modify_self | apply ign_kv_caching_all | apply ign_with_self_rng
    | apply ign_call_blocks
    | apply ign_mbind; [|intros ?]
    | match goal with
      | |- ignores_ambient (match ?x with _ => _ end) => destruct x
      | |- ignores_ambient (if ?x then _ else _) => destruct x
      | |- ignores_ambient (let (_, _) := ?x in _) => destruct x
      end ].

Lemma ign_infer_stage B cfg top_k top_p returns_vemb gumbel tau cond lvl_pos si pn st :
  ignores_ambient (infer_stage B SelfRng cfg top_k top_p returns_vemb gumbel tau
                               cond lvl_pos si pn st).
Proof. unfold infer_stage, stage_logits, stage_sample, stage_next. ign. Qed.

Lemma ign_infer_loop B cfg top_k top_p returns_vemb gumbel tau cond lvl_pos pns :
  forall si st log,
    ignores_ambient (infer_loop B SelfRng cfg top_k top_p returns_vemb gumbel tau
                                cond lvl_pos si pns st log).
Proof.
  induction pns as [|pn pns IH]; intros si st log; cbn [infer_loop].
  - apply ign_mret.
  - apply ign_mbind; [apply ign_infer_stage|]. intros [st' e]. apply IH.
Qed.

Lemma ign_resolve_labels B label_B : ignores_ambient (resolve_labels B label_B SelfRng).
Proof. unfold resolve_labels. ign. Qed.

Lemma resolve_rng_seeded {A} (s : Z) (k : rng_sel -> M A) (w : World) :
  seed_accepted s = true ->
  mbind (resolve_rng (Some s)) k w
  = k SelfRng {| self := set_rng (manual_seed s) (self w); ambient := ambient w |}.
Proof. intros Hs. unfold mbind. cbn [resolve_rng]. rewrite Hs. reflexivity. Qed.

(** A seed the generator rejects stops the call at line 164, nothing changed. *)
Lemma resolve_rng_rejected {A} (s : Z) (k : rng_sel -> M A) (w : World) :
  seed_accepted s = false ->
  mbind (resolve_rng (Some s)) k w = (w, Raise RuntimeError).
Proof. intros Hs. unfold mbind. cbn [resolve_rng]. rewrite Hs. reflexivity. Qed.

Lemma ign_resolve_rng_seeded {A} (s : Z) (k : rng_sel -> M A) :
  ignores_ambient (k SelfRng) -> ignores_ambient (mbind (resolve_rng (Some s)) k).
Proof.
  intros Hk w g. destruct (seed_accepted s) eqn:Hs.
  - rewrite !resolve_rng_seeded by exact Hs.
    exact (Hk {| self := set_rng (manual_seed s) (self w); ambient := ambient w |} g).
  - rewrite !resolve_rng_rejected by exact Hs. reflexivity.
Qed.

Lemma ign_mbind_post {A B} (P : A -> Prop) (c : M A) (k : A -> M B) :
  ignores_ambient c ->
  (forall w w' a, c w = (w', Ok a) -> P a) ->
  (forall a, P a -> ignores_ambient (k a)) ->
  ignores_ambient (mbind c k).
Proof.
  intros Hc HP Hk w g. unfold mbind. rewrite Hc.
  destruct (c w) as [w1 [a|e]] eqn:Hcw; cbn [fst snd]; [|reflexivity].
  apply Hk. exact (HP _ _ _ Hcw).
Qed.

Lemma infer_prologue_seeded_sel B label_B (s : Z) (w w' : World) sel cond lvl_pos st :
  infer_prologue B label_B (Some s) w = (w', Ok (sel, cond, lvl_pos, st)) ->
  sel = SelfRng.
Proof.
  unfold infer_prologue. destruct (seed_accepted s) eqn:Hs.
  - rewrite resolve_rng_seeded by exact Hs. intros H.
    m_inv H. unfold mret in H. injection H as _ H _ _ _. congruence.
  - rewrite resolve_rng_rejected by exact Hs. discriminate.
Qed.

Lemma ign_infer_prologue_seeded B label_B (s : Z) :
  ignores_ambient (infer_prologue B label_B (Some s)).
Proof.
  unfold infer_prologue. apply ign_resolve_rng_seeded.
  apply ign_mbind; [apply ign_resolve_labels|]. intros lb. ign.
Qed.

(** With a seed the call neither reads nor writes the default generator. *)
Lemma ign_infer_seeded B label_B (s : Z) cfg top_k top_p returns_vemb gumbel tau :
  ignores_ambient (autoregressive_infer_cfg B label_B (Some s) cfg top_k top_p
                                            returns_vemb gumbel tau).
Proof.
  unfold autoregressive_infer_cfg, infer_logged.
  apply ign_mbind; [|intros; apply ign_mret].
  apply (@ign_mbind_post _ _ (fun r => fst (fst (fst r)) = SelfRng)).
  - apply ign_infer_prologue_seeded.
  - intros w w' [[[sel cond] lvl_pos] st] H. cbn [fst].
    exact (infer_prologue_seeded_sel _ _ _ _ H).
  - intros [[[sel cond] lvl_pos] st] Hsel. cbn [fst] in Hsel. subst sel.
    apply ign_mbind; [apply ign_get_self|]. intros m.
    apply ign_mbind; [apply ign_infer_loop|]. intros [st' log]. ign.
Qed.

Lemma mbind_same_start {A B} (c : M A) (k : A -> M B) (w w' : World) :
  c w = c w' -> mbind c k w = mbind c k w'.
Proof. intros H. unfold mbind. rewrite H. reflexivity. Qed.

(** The seeded call starts by overwriting the model's generator state. *)
Lemma infer_seeded_resets_rng B label_B (s : Z) cfg top_k top_p returns_vemb gumbel tau
    (g0 : rng_state) (w : World) :
  seed_accepted s = true ->
  autoregressive_infer_cfg B label_B (Some s) cfg top_k top_p returns_vemb gumbel tau w
  = autoregressive_infer_cfg B label_B (Some s) cfg top_k top_p returns_vemb gumbel tau
      {| self := set_rng g0 (self w); ambient := ambient w |}.
Proof.
  intros Hs. unfold autoregressive_infer_cfg. apply mbind_same_start.
  unfold infer_logged. apply mbind_same_start.
  unfold infer_prologue. rewrite !resolve_rng_seeded by exact Hs. reflexivity.
Qed.

(** With a rejected seed the call raises RuntimeError and changes nothing. *)
Lemma infer_seed_rejected B label_B (s : Z) cfg top_k top_p returns_vemb gumbel tau
    (w : World) :
  seed_accepted s = false ->
  autoregressive_infer_cfg B label_B (Some s) cfg top_k top_p returns_vemb gumbel tau w
  = (w, Raise RuntimeError).
Proof.
  intros Hs. unfold autoregressive_infer_cfg, infer_logged.
  apply mbind_raise, mbind_raise.
  unfold infer_prologue. apply resolve_rng_rejected, Hs.
Qed.

End Seeded.

(** ** Generation: what every returning call did *)

Section Returning.
Context {E : Env}.

Lemma with_rng_inv {A} (sel : rng_sel) (f : rng_state -> A * rng_state)
    (w w' : World) (a : A) :
  with_rng sel f w = (w', Ok a) -> exists g, a = fst (f g).
Proof.
  unfold with_rng. destruct sel.
  - destruct (f (ambient w)) as [a' g'] eqn:Hf. intros H. injection H as _ <-.
    exists (ambient w). rewrite Hf. reflexivity.
  - destruct (f (rng (self w))) as [a' g'] eqn:Hf. intros H. injection H as _ <-.
    exists (rng (self w)). rewrite Hf. reflexivity.
Qed.

(** The prologue ends by enabling caching on every block. *)
Lemma infer_prologue_caching B label_B g_seed (w w1 : World) r :
  infer_prologue B label_B g_seed w = (w1, Ok r) -> all_caching (self w1).
Proof.
  unfold infer_prologue. intros H. m_inv H.
  unfold mret in H. injection H as <- _.
  unfold kv_caching_all, modify_self in Hrun6. injection Hrun6 as <- _.
  unfold all_caching. cbn [self set_blocks blocks].
  apply Forall_forall. intros s Hs. apply in_map_iff in Hs.
  destruct Hs as (s0 & <- & _). reflexivity.
Qed.

(** A stage that returns appended one output and recorded the ratio and
    the merged logits it computed. *)
Lemma infer_stage_inv B sel cfg top_k top_p returns_vemb gumbel tau cond lvl_pos
    si pn st (w w' : World) st' e :
  infer_stage B sel cfg top_k top_p returns_vemb gumbel tau cond lvl_pos si pn st w
  = (w', Ok (st', e)) ->
  (exists o, ret st' = ret st ++ [o])
  /\ cur_L st' = cur_L st + pn * pn
  /\ log_si e = si
  /\ entry_formula (self w) B cfg e.
Proof.
  unfold infer_stage. intros H.
  apply mbind_ok_inv in H. destruct H as (w1 & [[[ratio t] raw] lg] & Hlg & H).
  apply mbind_ok_inv in H. destruct H as (w2 & [idx_Bl h_BChw] & _ & H).
  apply mbind_ok_inv in H. destruct H as (w3 & m & _ & H).
  assert (Hent : entry_formula (self w) B cfg
                   {| log_si := si; log_t := t; log_raw := raw; log_sampled := lg |}).
  { unfold stage_logits in Hlg.
    apply mbind_ok_inv in Hlg. destruct Hlg as (w4 & m0 & Hm & Hlg).
    apply get_self_inv in Hm. destruct Hm as [-> ->].
    apply mbind_ok_inv in Hlg. destruct Hlg as (w4 & ratio' & Hr & Hlg).
    apply lift_ok_inv in Hr. destruct Hr as [-> Hratio].
    apply mbind_ok_inv in Hlg. destruct Hlg as (w4 & gss & _ & Hlg).
    apply mbind_ok_inv in Hlg. destruct Hlg as (w5 & x & _ & Hlg).
    apply mbind_ok_inv in Hlg. destruct Hlg as (w6 & m1 & _ & Hlg).
    apply mbind_ok_inv in Hlg. destruct Hlg as (w7 & raw' & _ & Hlg).
    apply mbind_ok_inv in Hlg. destruct Hlg as (w8 & lg' & Hm & Hlg).
    apply lift_ok_inv in Hm. destruct Hm as [_ Hm].
    unfold mret in Hlg. injection Hlg as _ <- <- <- <-.
    exists ratio'. cbn. auto. }
  destruct (si =? num_stages_minus_1 m).
  - unfold mret in H. injection H as _ <- <-. cbn [ret cur_L log_si]. eauto 6.
  - apply mbind_ok_inv in H. destruct H as (w10 & [f' ctm] & _ & H).
    unfold mret in H. injection H as _ <- <-. cbn [ret cur_L log_si]. eauto 6.
Qed.

Lemma infer_loop_inv B sel cfg top_k top_p returns_vemb gumbel tau cond lvl_pos rest :
  forall si st log (w w' : World) st' log',
    infer_loop B sel cfg top_k top_p returns_vemb gumbel tau cond lvl_pos
               si rest st log w = (w', Ok (st', log')) ->
    length (ret st') = length (ret st) + length rest
    /\ exists new, log' = log ++ new
         /\ length new = length rest
         /\ forall j e, nth_error new j = Some e ->
              log_si e = si + j /\ entry_formula (self w) B cfg e.
Proof.
  induction rest as [|pn rest IH]; intros si st log w w' st' log' H; cbn [infer_loop] in H.
  - unfold mret in H. injection H as _ <- <-. split; [cbn; lia|].
    exists []. rewrite app_nil_r. split; [reflexivity|]. split; [reflexivity|].
    intros [|j] e He; discriminate.
  - apply mbind_ok_inv in H. destruct H as (w1 & [st1 e1] & Hs & H).
    pose proof (keeps_infer_stage B sel cfg top_k top_p returns_vemb gumbel tau
                                  cond lvl_pos si pn st w) as Hk.
    rewrite Hs in Hk. cbn [fst] in Hk. apply frame_fields in Hk.
    destruct Hk as (_ & _ & _ & Hn & _).
    apply infer_stage_inv in Hs. destruct Hs as ((o & Hret) & _ & Hsi & Hent).
    apply IH in H. destruct H as (Hlen & new & -> & Hnl & Hnew).
    split.
    + rewrite Hlen, Hret, length_app. cbn [length]. lia.
    + exists (e1 :: new). rewrite <- app_assoc. split; [reflexivity|].
      split; [cbn [length]; congruence|].
      intros [|j] e He; cbn [nth_error] in He.
      * injection He as <-. rewrite Nat.add_0_r. auto.
      * destruct (Hnew j e He) as [H1 H2]. split; [lia|].
        unfold entry_formula in *. rewrite Hn in H2. exact H2.
Qed.

Lemma all_idle_after_disable (w : World) :
  all_idle (self (fst (kv_caching_all false w))).
Proof.
  unfold all_idle, kv_caching_all, modify_self. cbn [fst self set_blocks blocks].
  apply Forall_forall. intros s Hs. apply in_map_iff in Hs.
  destruct Hs as (s0 & <- & _). reflexivity.
Qed.

(** A call that returns left every block idle and returns one output and
    one record per stage. *)
Lemma infer_logged_inv B label_B g_seed cfg top_k top_p returns_vemb gumbel tau
    (w w' : World) out log :
  infer_logged B label_B g_seed cfg top_k top_p returns_vemb gumbel tau w
  = (w', Ok (out, log)) ->
  all_idle (self w')
  /\ length out = length (patch_nums (self w))
  /\ length log = length (patch_nums (self w))
  /\ forall j e, nth_error log j = Some e ->
       log_si e = j /\ entry_formula (self w) B cfg e.
Proof.
  unfold infer_logged. intros H.
  apply mbind_ok_inv in H. destruct H as (w1 & [[[sel cond] lvl_pos] st] & Hp & H).
  apply mbind_ok_inv in H. destruct H as (w2 & m & Hm & H).
  apply get_self_inv in Hm. destruct Hm as [-> ->].
  apply mbind_ok_inv in H. destruct H as (w2 & [st' log'] & Hl & H).
  apply mbind_ok_inv in H. destruct H as (w3 & u & Hd & H).
  unfold mret in H. injection H as <- <- <-.
  pose proof (keeps_infer_prologue B label_B g_seed w) as Hk.
  rewrite Hp in Hk. cbn [fst] in Hk. apply frame_fields in Hk.
  destruct Hk as (_ & _ & Hpn & Hn & _).
  assert (Hst : ret st = []).
  { unfold infer_prologue in Hp. m_inv Hp. unfold mret in Hp.
    injection Hp as _ _ _ _ <-. reflexivity. }
  apply infer_loop_inv in Hl. destruct Hl as (Hlen & new & -> & Hnl & Hnew).
  rewrite Hst in Hlen. cbn [length Nat.add app] in *.
  split.
  { pose proof (all_idle_after_disable w2) as Hi. rewrite Hd in Hi. exact Hi. }
  rewrite Hlen, Hnl, Hpn. split; [reflexivity|]. split; [reflexivity|].
  intros j e He. destruct (Hnew j e He) as [H1 H2]. split; [exact H1|].
  unfold entry_formula in *. rewrite Hn in H2. exact H2.
Qed.

End Returning.

Section Determinism.
Context {E : Env}.

Lemma all_idle_eq (l1 l2 : list (AttnState KV)) :
  Forall (fun s => s = attn_idle) l1 -> Forall (fun s => s = attn_idle) l2 ->
  length l1 = length l2 -> l1 = l2.
Proof.
  intros H1. revert l2. induction H1 as [|s l1 Hs _ IH]; intros l2 H2 Hl.
  - destruct l2; [reflexivity|discriminate].
  - destruct l2 as [|s2 l2]; [discriminate|].
    inversion H2 as [|? ? Hs2 H2']; subst. f_equal. apply IH; auto.
Qed.

Lemma frame_idle_same (m1 m2 : VAR) :
  frame m1 m2 -> all_idle m1 -> all_idle m2 -> same_up_to_rng m1 m2.
Proof.
  intros [Hf Hl] H1 H2. unfold same_up_to_rng.
  pose proof (all_idle_eq H1 H2 Hl) as Hb.
  change (set_rng rng_fresh m1)
    with (set_blocks (blocks m1) (set_blocks [] (set_rng rng_fresh m1))).
  change (set_rng rng_fresh m2)
    with (set_blocks (blocks m2) (set_blocks [] (set_rng rng_fresh m2))).
  rewrite Hf, Hb. reflexivity.
Qed.

(** C5.  With a seed, the outputs of [autoregressive_infer_cfg] (or the
    exception it raises) are the same from any two states of the same model
    that differ in the state of its generator and of the default generator;
    with a seed the generator accepts, the model is left in the same state
    too.  Hence a second call, made after a first one returned on an idle
    model, returns the same list.  A seed the generator rejects makes every
    call raise RuntimeError at line 164. *)
Theorem seeded_generation_is_deterministic (B : nat) (label_B : option label_arg)
    (s : Z) (cfg : xreal) (top_k : Z) (top_p : xreal) (returns_vemb : bool)
    (gumbel tau : xreal) :
  let call := autoregressive_infer_cfg B label_B (Some s) cfg top_k top_p
                                       returns_vemb gumbel tau in
  (forall w1 w2, same_up_to_rng (self w1) (self w2) ->
     snd (call w1) = snd (call w2)
     /\ (seed_accepted s = true -> self (fst (call w1)) = self (fst (call w2))))
  /\ (forall w0 w1 out, all_idle (self w0) -> call w0 = (w1, Ok out) ->
        snd (call w1) = Ok out)
  /\ (seed_accepted s = false -> forall w, call w = (w, Raise RuntimeError)).
Proof.
  intros call.
  assert (Hbad : seed_accepted s = false -> forall w, call w = (w, Raise RuntimeError)).
  { intros Hs w. apply infer_seed_rejected, Hs. }
  assert (Hmain : forall w1 w2, same_up_to_rng (self w1) (self w2) ->
     snd (call w1) = snd (call w2)
     /\ (seed_accepted s = true -> self (fst (call w1)) = self (fst (call w2)))).
  { intros w1 w2 Hs. destruct (seed_accepted s) eqn:Hok.
    - unfold call.
      rewrite (@infer_seeded_resets_rng _ B label_B s cfg top_k top_p returns_vemb gumbel tau
                                       rng_fresh w1 Hok).
      rewrite (@infer_seeded_resets_rng _ B label_B s cfg top_k top_p returns_vemb gumbel tau
                                       rng_fresh w2 Hok).
      unfold same_up_to_rng in Hs. rewrite <- Hs.
      pose proof (ign_infer_seeded B label_B s cfg top_k top_p returns_vemb gumbel tau
                    {| self := set_rng rng_fresh (self w1); ambient := ambient w1 |}
                    (ambient w2)) as Hi.
      unfold with_ambient in Hi at 1. cbn [self] in Hi. rewrite Hi.
      cbn [fst snd with_ambient self]. auto.
    - rewrite (Hbad eq_refl w1), (Hbad eq_refl w2). cbn [snd].
      split; [reflexivity|discriminate]. }
  split; [exact Hmain|]. split; [|exact Hbad].
  intros w0 w1 out Hidle Hc.
  assert (Hs : same_up_to_rng (self w0) (self w1)).
  { pose proof (keeps_infer B label_B (Some s) cfg top_k top_p returns_vemb gumbel tau w0)
      as Hk.
    fold call in Hk. rewrite Hc in Hk. cbn [fst] in Hk.
    apply frame_idle_same; [exact Hk | exact Hidle |].
    unfold call, autoregressive_infer_cfg in Hc.
    apply mbind_ok_inv in Hc. destruct Hc as (w' & [o l] & Hl & Hc).
    unfold mret in Hc. injection Hc as <- _.
    apply infer_logged_inv in Hl. apply Hl. }
  destruct (Hmain w0 w1 Hs) as [H1 _]. rewrite <- H1, Hc. reflexivity.
Qed.

End Determinism.

(** ** Generation: the call returns *)

Section PrologueRun.
Context {E : Env}.

Lemma lift_run {A} (r : Res A) (a : A) (w : World) : r = Ok a -> lift r w = (w, Ok a).
Proof. intros ->. reflexivity. Qed.

Lemma wf_frame (m m' : VAR) : frame m m' -> wf m -> wf m'.
Proof.
  intros [Hf _] W.
  assert (W' : wf (set_blocks [] (set_rng rng_fresh m')))
    by (rewrite <- Hf; apply wf_set_blocks, wf_set_rng, W).
  destruct W'. constructor; assumption.
Qed.

Lemma contract_frame (m m' : VAR) : frame m m' -> contract m -> contract m'.
Proof.
  intros [Hf _] Hc.
  assert (Hc' : contract (set_blocks [] (set_rng rng_fresh m')))
    by (rewrite <- Hf; apply contract_set_blocks, contract_set_rng, Hc).
  destruct Hc'. constructor; assumption.
Qed.

Lemma frame_sym (m m' : VAR) : frame m m' -> frame m' m.
Proof. intros [H1 H2]. split; congruence. Qed.

Lemma frame_num_classes (m m' : VAR) : frame m m' -> num_classes m' = num_classes m.
Proof. intros [H _]. exact (eq_sym (f_equal num_classes H)). Qed.

Lemma frame_sizes (m m' : VAR) :
  frame m m' -> L m' = L m /\ first_l m' = first_l m.
Proof.
  intros [H _]. split; [exact (eq_sym (f_equal L H)) | exact (eq_sym (f_equal first_l H))].
Qed.

Lemma resolve_rng_run (g_seed : option Z) (w : World) :
  seed_ok g_seed ->
  exists w0 sel, resolve_rng g_seed w = (w0, Ok sel) /\ frame (self w) (self w0).
Proof.
  intros Hs. destruct g_seed as [s|]; cbn [resolve_rng seed_ok] in *.
  - rewrite Hs. eexists _, _. split; [reflexivity|]. apply frame_set_rng.
  - eexists _, _. split; [reflexivity|]. apply frame_refl.
Qed.

Lemma resolve_labels_run (B : nat) (label_B : option label_arg) (sel : rng_sel)
    (w : World) :
  contract (self w) -> label_ok (self w) B label_B ->
  exists w' lb, resolve_labels B label_B sel w = (w', Ok lb)
    /\ frame (self w) (self w')
    /\ shape lb = [B]
    /\ forall k, k < B -> (0 <= get lb [k] <= Z.of_nat (num_classes (self w)))%Z.
Proof.
  intros Hc Hl.
  pose proof (keeps_with_rng sel (torch_multinomial (selecting_idx (self w)) B) w) as Hk.
  destruct label_B as [[z|t]|]; cbn [label_ok] in Hl.
  - rewrite resolve_labels_int by apply Hl. destruct Hl as [Hl _].
    eexists _, _. split; [reflexivity|].
    split; [apply frame_refl|]. split; [reflexivity|].
    intros k _. cbn [get full]. destruct (Z.ltb_spec z 0); lia.
  - rewrite resolve_labels_tensor. destruct Hl as [Hs Hr].
    eexists _, _. split; [reflexivity|]. split; [apply frame_refl|]. auto.
  - unfold resolve_labels. erewrite mbind_run by reflexivity.
    destruct (with_rng sel (torch_multinomial (selecting_idx (self w)) B) w)
      as [w' [r|e]] eqn:Hw.
    2:{ unfold with_rng in Hw. destruct sel.
        - destruct (torch_multinomial _ _ (ambient w)); discriminate.
        - destruct (torch_multinomial _ _ (rng (self w))); discriminate. }
    cbn [fst] in Hk.
    destruct (with_rng_inv _ _ _ Hw) as (g & ->).
    destruct (c_multinomial Hc B g) as [Hrs Hrr].
    erewrite mbind_run by exact Hw.
    rewrite reshape_ok by (rewrite Hrs; cbn; lia).
    eexists _, _. split; [reflexivity|]. split; [exact Hk|]. split; [reflexivity|].
    intros k Hkb. cbn [get]. rewrite Hrs.
    change (ravel [B] [k]) with (ravel [1; B] [0; k]).
    rewrite unravel_ravel
      by (cbn [in_bounds]; rewrite (proj2 (Nat.ltb_lt _ _) Hkb); reflexivity).
    specialize (Hrr k Hkb). lia.
Qed.

End PrologueRun.

Section PrologueRun2.
Context {E : Env}.

Lemma first_l_le_L (m : VAR) : wf m -> first_l m <= L m.
Proof.
  intros W. rewrite (wf_first_l W), (wf_L W).
  pose proof (wf_patch_nums W) as Hp.
  destruct (patch_nums m) as [|pn0 r]; [contradiction|].
  cbn [hd]. rewrite sum_sq_cons. lia.
Qed.

(** Lines 163-179 return on a well-formed model and an acceptable label
    argument; they leave a token map of [2B] rows and [first_l] positions. *)
Lemma infer_prologue_run (B : nat) (label_B : option label_arg) (g_seed : option Z)
    (w : World) :
  wf (self w) -> contract (self w) -> label_ok (self w) B label_B ->
  seed_ok g_seed ->
  exists w1 sel cond lvl_pos st,
    infer_prologue B label_B g_seed w = (w1, Ok (sel, cond, lvl_pos, st))
    /\ shape cond = [2 * B; C (self w)]
    /\ shape lvl_pos = [1; L (self w); C (self w)]
    /\ shape (cur_token_map st) = [2 * B; first_l (self w); C (self w)]
    /\ cur_L st = 0 /\ ret st = [].
Proof.
  intros W Hc Hl Hseed.
  destruct (@resolve_rng_run _ g_seed w Hseed) as (w0 & sel & Hrng & Hf0).
  pose proof (wf_frame Hf0 W) as W0. pose proof (contract_frame Hf0 Hc) as Hc0.
  assert (Hl0 : label_ok (self w0) B label_B).
  { unfold label_ok in *. rewrite (frame_num_classes Hf0). exact Hl. }
  destruct (@resolve_labels_run _ B label_B sel w0 Hc0 Hl0) as (w1 & lb & Hlab & Hf1 & Hlbs & Hlbr).
  pose proof (wf_frame Hf1 W0) as W1. pose proof (contract_frame Hf1 Hc0) as Hc1.
  pose proof (frame_trans Hf0 Hf1) as Hf.
  destruct (frame_fields Hf) as (_ & _ & _ & _ & _ & _ & _ & _ & _ & HC & _).
  destruct (frame_sizes Hf) as [HL Hfl].
  set (m := self w1) in *.
  destruct (@cfg_labels_full _ m lb B Hlbs) as (l2 & Hl2 & Hl2s & Hlo & Hhi).
  destruct (@embedding_ok (class_emb m) l2 _ _ (wf_class_emb W1)) as (cond & Hcond & Hconds & _).
  { intros idx Hi. rewrite Hl2s in Hi. destruct (in_bounds1 _ _ Hi) as (k & -> & Hk).
    destruct (Nat.lt_ge_cases k B) as [Hkb|Hkb].
    - rewrite Hlo by exact Hkb. specialize (Hlbr k Hkb).
      rewrite <- (frame_num_classes Hf1) in Hlbr. fold m in Hlbr. lia.
    - rewrite Hhi by exact Hkb. lia. }
  rewrite Hl2s in Hconds. cbn [app] in Hconds.
  replace (B + B) with (2 * B) in Hconds by lia.
  destruct (@embedding_ok (lvl_embed m) (lvl_1L m) _ _ (wf_lvl_embed W1))
    as (le & Hle & Hles & _).
  { intros idx Hi. rewrite (wf_lvl_shape W1) in Hi.
    destruct (in_bounds2 _ _ _ Hi) as (i & j & -> & Hi1 & Hj).
    replace i with 0 by lia. apply (wf_lvl_range W1), Hj. }
  rewrite (wf_lvl_shape W1) in Hles. cbn [app] in Hles.
  pose proof (@bop_same _ _ _ xadd le (pos_1LC m)
                        ltac:(rewrite Hles; apply (wf_pos_1LC W1))) as Hlp.
  rewrite Hles in Hlp. set (lvl_pos := mkT [1; L m; C m] _) in Hlp.
  destruct (unsqueeze1_ok cond Hconds) as (s1 & Hs1 & Hs1s).
  destruct (@expand_Bf_ok _ s1 (2 * B) 1 (C m) (2 * B) (first_l m) Hs1s (or_introl eq_refl)
                          (or_intror eq_refl)) as (s2 & Hs2 & Hs2s).
  destruct (@expand_Bf_ok _ (pos_start m) 1 (first_l m) (C m) (2 * B) (first_l m)
                          (wf_pos_start W1) (or_intror eq_refl) (or_introl eq_refl))
    as (p2 & Hp2 & Hp2s).
  pose proof (@bop_same _ _ _ xadd s2 p2 ltac:(congruence)) as Ha.
  rewrite Hs2s in Ha. set (a := mkT [2 * B; first_l m; C m] _) in Ha.
  destruct (@slice_axis_ok _ 1 0 (first_l m) lvl_pos) as (lp & Hlps & Hlpss & _).
  { cbn. lia. }
  cbn [shape lvl_pos nth upd] in Hlpss.
  rewrite Nat.min_l, Nat.min_0_l, Nat.sub_0_r in Hlpss by apply (first_l_le_L W1).
  pose proof (@bop_into _ _ _ xadd a lp) as Hctm.
  rewrite Hlpss in Hctm. specialize (Hctm ltac:(cbn [shape a]; bshape)).
  set (ctm := mkT (shape a) _) in Hctm.
  assert (Hpn : exists pn_last,
             match patch_nums m with
             | [] => Raise IndexError
             | _ :: _ => Ok (last (patch_nums m) 0)
             end = Ok pn_last).
  { pose proof (wf_patch_nums W1). destruct (patch_nums m); [contradiction|eauto]. }
  destruct Hpn as (pn_last & Hpn).
  eexists _, sel, cond, lvl_pos, _. split.
  - unfold infer_prologue.
    erewrite mbind_run by exact Hrng.
    erewrite mbind_run by exact Hlab.
    erewrite mbind_run by reflexivity. fold m.
    erewrite mbind_run by (apply lift_run; rewrite Hl2; cbn [rbind]; exact Hcond).
    erewrite mbind_run by (apply lift_run; rewrite Hle; cbn [rbind]; exact Hlp).
    erewrite mbind_run
      by (apply lift_run; rewrite Hs1; cbn [rbind]; rewrite Hs2; cbn [rbind];
          rewrite Hp2; cbn [rbind]; rewrite Ha; cbn [rbind]; rewrite Hlps; cbn [rbind];
          exact Hctm).
    erewrite mbind_run by (apply lift_run; exact Hpn).
    erewrite mbind_run by reflexivity.
    reflexivity.
  - cbn [cur_token_map cur_L ret shape ctm a lvl_pos].
    rewrite HC, HL, Hfl. rewrite HC in Hconds. auto.
Qed.

End PrologueRun2.

Section StageRun.
Context {E : Env}.

Lemma with_rng_eq {A} (sel : rng_sel) (f : rng_state -> A * rng_state) (w : World) :
  with_rng sel f w
  = (put_rng sel (snd (f (rng_of sel w))) w, Ok (fst (f (rng_of sel w)))).
Proof.
  unfold with_rng, put_rng, rng_of. destruct sel.
  - destruct (f (ambient w)). reflexivity.
  - destruct (f (rng (self w))). reflexivity.
Qed.

Lemma frame_put_rng (sel : rng_sel) (g : rng_state) (w : World) :
  frame (self w) (self (put_rng sel g w)).
Proof. destruct sel; cbn [put_rng self]; [apply frame_refl | apply frame_set_rng]. Qed.

(** The guided logits: row [b] of the result is [(1+t)] times row [b] minus
    [t] times row [B + b] of the logits of the doubled batch. *)
Lemma cfg_merge_spec (B : nat) (t : xreal) (raw : Tensor xreal) (l v : nat) :
  shape raw = [2 * B; l; v] ->
  exists lg, cfg_merge B t raw = Ok lg
    /\ shape lg = [B; l; v]
    /\ forall b i k, b < B -> i < l -> k < v ->
         get lg [b; i; k]
         = xsub (xmul (xadd xone t) (get raw [b; i; k]))
                (xmul t (get raw [B + b; i; k])).
Proof.
  intros Hs. unfold cfg_merge.
  destruct (@slice_axis_ok _ 0 0 B raw) as (lc & Hlc & Hlcs & Hlcv).
  { rewrite Hs. cbn. lia. }
  destruct (@slice_axis_ok _ 0 B (nth 0 (shape raw) 0) raw) as (lu & Hlu & Hlus & Hluv).
  { rewrite Hs. cbn. lia. }
  rewrite Hs in Hlcs, Hlcv, Hlus, Hluv. cbn [nth upd] in Hlcs, Hlcv, Hlus, Hluv.
  rewrite Nat.min_0_l in Hlcs, Hlcv.
  rewrite (Nat.min_l B (2 * B)) in Hlcs, Hlus, Hluv by lia.
  rewrite Nat.min_id in Hlus.
  replace (B - 0) with B in Hlcs by lia.
  replace (2 * B - B) with B in Hlus by lia.
  rewrite Hlc. cbn [rbind]. rewrite Hlu. cbn [rbind].
  rewrite bop_same by (cbn [tmap shape]; congruence).
  eexists. split; [reflexivity|]. cbn [shape tmap get]. split; [exact Hlcs|].
  intros b i k Hb Hi Hk.
  rewrite !bcast_idx_in_bounds
    by (rewrite ?Hlcs, ?Hlus; cbn [in_bounds];
        rewrite !(proj2 (Nat.ltb_lt _ _)) by assumption; reflexivity).
  rewrite Hlcv, Hluv. cbn [nth upd]. rewrite Nat.add_0_r, (Nat.add_comm b B).
  reflexivity.
Qed.

(** Lines 181-193 on a token map of [2B] rows and [l] positions. *)
Lemma stage_logits_run (B : nat) (cfg tau inv_tau : xreal) (cond ctm : Tensor xreal)
    (si l : nat) (w : World) :
  wf (self w) -> contract (self w) ->
  (shared_ada_lin (self w) = None \/ 0 < C (self w)) ->
  py_truediv xone tau = Ok inv_tau ->
  num_stages_minus_1 (self w) <> 0 ->
  shape cond = [2 * B; C (self w)] ->
  shape ctm = [2 * B; l; C (self w)] ->
  exists w' ratio raw lg,
    stage_logits B cfg tau cond si ctm w = (w', Ok (ratio, xmul cfg ratio, raw, lg))
    /\ frame (self w) (self w')
    /\ shape raw = [2 * B; l; V (self w)]
    /\ shape lg = [B; l; V (self w)].
Proof.
  intros W Hc Hada Htau Hn Hcond Hctm.
  assert (Hratio := @py_truediv_int_ok (Z.of_nat si) (Z.of_nat (num_stages_minus_1 (self w)))
                      ltac:(lia)).
  destruct (@shared_ada_ok _ (self w) cond (2 * B) W Hcond Hada) as (gss & Hgss).
  destruct (@call_blocks_plain _ (self w) ctm gss None w Hc) as (bs & y & Hcb & Hys & Hbl).
  set (w2 := {| self := set_blocks bs (self w); ambient := ambient w |}) in *.
  rewrite Hctm in Hys.
  destruct (@get_logits_plain _ (self w2) y cond tau inv_tau (2 * B) l
                              (contract_set_blocks bs Hc) Hys Htau) as [Hgl Hgls].
  cbn [w2 self set_blocks V] in Hgls.
  destruct (@cfg_merge_spec B (xmul cfg (Fin (Q2Qc (inject_Z (Z.of_nat si))
                                / Q2Qc (inject_Z (Z.of_nat (num_stages_minus_1 (self w)))))))
                            _ _ _ Hgls)
    as (lg & Hlg & Hlgs & _).
  eexists w2, _, _, lg. split.
  - unfold stage_logits.
    erewrite mbind_run by reflexivity.
    erewrite mbind_run by (apply lift_run; exact Hratio).
    erewrite mbind_run by (apply lift_run; exact Hgss).
    erewrite mbind_run by exact Hcb.
    erewrite mbind_run by reflexivity.
    erewrite mbind_run by (apply lift_run; exact Hgl).
    erewrite mbind_run by (apply lift_run; exact Hlg).
    reflexivity.
  - split; [apply frame_set_blocks; exact Hbl|]. auto.
Qed.

End StageRun.

Section SampleRun.
Context {E : Env}.

Lemma matmul3_ok (a b : Tensor xreal) (n l v c : nat) :
  shape a = [n; l; v] -> shape b = [1; v; c] ->
  exists r, matmul3 a b = Ok r /\ shape r = [n; l; c].
Proof.
  intros Ha Hb. unfold matmul3. rewrite Ha, Hb, Nat.eqb_refl.
  cbn [Nat.eqb andb]. rewrite orb_true_r. cbn [orb].
  eexists. split; [reflexivity|]. cbn [shape].
  destruct (Nat.eqb_spec n 1) as [->|_]; reflexivity.
Qed.

Lemma frame_Cvae (m m' : VAR) : frame m m' -> Cvae m' = Cvae m.
Proof. intros H. apply (frame_fields H). Qed.

(** Lines 195-203 on guided logits of [B] rows and [pn * pn] positions. *)
Lemma stage_sample_run (B : nat) (sel : rng_sel) (top_k : Z) (top_p gumbel ratio : xreal)
    (pn : nat) (lg : Tensor xreal) (w : World) :
  contract (self w) ->
  shape lg = [B; pn * pn; V (self w)] ->
  exists w' idx_Bl h_BChw,
    stage_sample B sel top_k top_p gumbel ratio pn lg w = (w', Ok (idx_Bl, h_BChw))
    /\ frame (self w) (self w')
    /\ shape h_BChw = [B; Cvae (self w); pn; pn].
Proof.
  intros Hc Hlg.
  pose proof (c_sample Hc lg top_k top_p (rng_of sel w) Hlg) as (Hi3 & Hl3 & Hr3).
  destruct (sample_with_top_k_top_p_ lg top_k top_p (rng_of sel w))
    as [[idx3 lg'] g3] eqn:Hsamp.
  cbn [fst snd] in Hi3, Hl3, Hr3.
  set (w3 := put_rng sel g3 w).
  pose proof (frame_put_rng sel g3 w) as Hf3. fold w3 in Hf3.
  assert (Hsel : exists idx_Bl, select_axis 2 0 idx3 = Ok idx_Bl
                   /\ shape idx_Bl = [B; pn * pn]
                   /\ forall i j, get idx_Bl [i; j] = get idx3 [i; j; 0]).
  { unfold select_axis. rewrite Hi3. cbn [length nth Nat.ltb Nat.leb andb].
    eexists. split; [reflexivity|]. split; reflexivity. }
  destruct Hsel as (idx_Bl & Hsel & Hidxs & Hidxv).
  assert (Hh : exists w4 h,
    (if xeqb gumbel (of_Z 0)
     then lift (embedding vq_embedding_weight idx_Bl)
     else mbind (with_rng sel (gumbel_softmax_with_rng
                    (scale (xadd xone (xmul ratio gumbel)) lg')
                    (py_max (xmul (lit 27 100) (xsub xone (xmul ratio (lit 95 100))))
                            (lit 5 1000))))
                (fun g => lift (rbind (unsqueeze 0 vq_embedding_weight)
                                      (fun w1 => matmul3 g w1)))) w3
    = (w4, Ok h)
    /\ frame (self w3) (self w4)
    /\ shape h = [B; pn * pn; Cvae (self w)]).
  { destruct (xeqb gumbel (of_Z 0)).
    - destruct (@embedding_ok vq_embedding_weight idx_Bl _ _ (c_vq Hc))
        as (h & Hh & Hhs & _).
      { intros idx Hi. rewrite Hidxs in Hi.
        destruct (in_bounds2 _ _ _ Hi) as (i & j & -> & Hi1 & Hj).
        rewrite Hidxv. apply Hr3; assumption. }
      exists w3, h. rewrite Hidxs in Hhs.
      split; [apply lift_run, Hh|]. split; [apply frame_refl | exact Hhs].
    - set (gt := py_max _ _).
      set (lgs := scale (xadd xone (xmul ratio gumbel)) lg').
      pose proof (c_gumbel Hc lgs gt (rng_of sel w3)) as Hgs.
      destruct (gumbel_softmax_with_rng lgs gt (rng_of sel w3)) as [gs g4] eqn:Hgum.
      cbn [fst] in Hgs. unfold lgs in Hgs. rewrite scale_shape, Hl3 in Hgs.
      destruct (unsqueeze0_ok vq_embedding_weight (c_vq Hc)) as (w1 & Hw1 & Hw1s).
      destruct (matmul3_ok gs w1 Hgs Hw1s) as (h & Hh & Hhs).
      exists (put_rng sel g4 w3), h. split.
      + erewrite mbind_run by (rewrite with_rng_eq; fold lgs; rewrite Hgum; reflexivity).
        apply lift_run. rewrite Hw1. exact Hh.
      + split; [apply frame_put_rng | exact Hhs]. }
  destruct Hh as (w4 & h & Hh & Hf4 & Hhs).
  pose proof (frame_trans Hf3 Hf4) as Hf.
  assert (Ht : exists hT, transpose 1 2 h = Ok hT /\ shape hT = [B; Cvae (self w); pn * pn]).
  { unfold transpose. rewrite Hhs. cbn [length Nat.ltb Nat.leb andb].
    eexists. split; reflexivity. }
  destruct Ht as (hT & Ht & Hts).
  assert (Hre : exists hB, reshape [B; Cvae (self w4); pn; pn] hT = Ok hB).
  { rewrite reshape_ok; [eauto|]. rewrite Hts, (frame_Cvae Hf).
    cbn [numel fold_right]. lia. }
  destruct Hre as (hB & Hre).
  exists w4, idx_Bl, hB. split.
  - unfold stage_sample.
    erewrite mbind_run by (rewrite with_rng_eq, Hsamp; reflexivity).
    cbn [fst snd]. fold w3.
    erewrite mbind_run by (apply lift_run; exact Hsel).
    erewrite mbind_run by exact Hh.
    erewrite mbind_run by reflexivity.
    erewrite mbind_run by (apply lift_run; rewrite Ht; exact Hre).
    reflexivity.
  - split; [exact Hf|]. apply reshape_shape in Hre. destruct Hre as [-> _].
    rewrite (frame_Cvae Hf). reflexivity.
Qed.

End SampleRun.

Section NextRun.
Context {E : Env}.

Lemma view_last_ok {A} (t : Tensor A) (b c p q : nat) :
  shape t = [b; c; p; q] -> 0 < b -> 0 < c ->
  exists r, reshape_infer [Some b; Some c; None] t = Ok r /\ shape r = [b; c; p * q].
Proof.
  intros Hs Hb Hc. unfold reshape_infer. cbn [filter length fold_right map].
  rewrite Hs. cbn [numel fold_right].
  assert (Hk : b * (c * 1) <> 0) by nia.
  assert (Hn : b * (c * (p * (q * 1))) = (p * q) * (b * (c * 1))) by nia.
  rewrite Hn, Nat.Div0.mod_mul, Nat.div_mul by exact Hk.
  destruct (Nat.eqb_spec (b * (c * 1)) 0) as [|_]; [contradiction|].
  cbn [Nat.eqb negb orb].
  rewrite reshape_ok by (rewrite Hs; cbn [numel fold_right]; nia).
  eexists. split; reflexivity.
Qed.

(** Lines 207-210: the token map of the next stage has [2B] rows and
    [pn1 * pn1] positions. *)
Lemma stage_next_run (B : nat) (lvl_pos : Tensor xreal) (si cur_L' pn1 : nat)
    (f_hat h : Tensor xreal) (w : World) :
  wf (self w) -> contract (self w) -> 0 < B -> 0 < Cvae (self w) ->
  shape lvl_pos = [1; L (self w); C (self w)] ->
  nth_error (patch_nums (self w)) (S si) = Some pn1 ->
  shape h = [B; Cvae (self w); nth si (patch_nums (self w)) 0;
             nth si (patch_nums (self w)) 0] ->
  cur_L' = sum_sq (firstn (S si) (patch_nums (self w))) ->
  exists f' ctm,
    stage_next B lvl_pos si cur_L' f_hat h w = (w, Ok (f', ctm))
    /\ shape ctm = [2 * B; pn1 * pn1; C (self w)].
Proof.
  intros W Hc HB HCv Hlp Hn Hh HcL.
  pose proof (c_next Hc si f_hat h Hn Hh) as Hnx.
  destruct (get_next_autoregressive_input si (length (patch_nums (self w))) f_hat h)
    as [f' nxt] eqn:Hgn.
  cbn [snd] in Hnx.
  destruct (view_last_ok nxt Hnx HB HCv) as (v & Hv & Hvs).
  assert (Ht : exists vT, transpose 1 2 v = Ok vT
                          /\ shape vT = [B; pn1 * pn1; Cvae (self w)]).
  { unfold transpose. rewrite Hvs. cbn [length Nat.ltb Nat.leb andb].
    eexists. split; reflexivity. }
  destruct Ht as (vT & Ht & Hts).
  destruct (@linear3_ok (fst (word_embed (self w))) (snd (word_embed (self w))) vT _ _ _ _
                        (wf_word_w W) Hts) as (we & Hwe & Hwes).
  assert (Hn1 : nth_error (patch_nums (self w)) (si + 1) = Some pn1)
    by (rewrite Nat.add_1_r; exact Hn).
  pose proof (firstn_S_nth _ _ Hn) as HS.
  pose proof (sum_sq_firstn_le (patch_nums (self w)) (S (S si))) as Hle.
  rewrite <- (wf_L W) in Hle.
  destruct (@slice_axis_ok _ 1 cur_L' (cur_L' + pn1 ^ 2) lvl_pos) as (lp & Hlps & Hlpss & _).
  { rewrite Hlp. cbn. lia. }
  rewrite Hlp in Hlpss. cbn [nth upd] in Hlpss.
  rewrite !Nat.min_l in Hlpss by lia.
  replace (cur_L' + pn1 ^ 2 - cur_L') with (pn1 * pn1) in Hlpss
    by (rewrite Nat.pow_2_r; lia).
  pose proof (@bop_into _ _ _ xadd we lp) as He.
  rewrite Hwes, Hlpss in He. specialize (He ltac:(bshape)).
  set (e := mkT [B; pn1 * pn1; C (self w)] _) in He.
  pose proof (@cat_ok _ 0 e e ltac:(cbn; lia) eq_refl) as Hcat.
  cbn [shape e nth upd] in Hcat.
  eexists f', _. split.
  - unfold stage_next. erewrite mbind_run by reflexivity. rewrite Hgn.
    erewrite mbind_run
      by (apply lift_run; rewrite Hv; cbn [rbind]; rewrite Ht; cbn [rbind];
          rewrite Hwe; cbn [rbind]; rewrite Hn1; cbn [rbind]; rewrite Hlps; cbn [rbind];
          rewrite He; cbn [rbind]; exact Hcat).
    reflexivity.
  - cbn [shape]. f_equal. lia.
Qed.

End NextRun.

Section LoopRun.
Context {E : Env}.

Lemma frame_all (m m' : VAR) :
  frame m m' ->
  patch_nums m' = patch_nums m /\ num_stages_minus_1 m' = num_stages_minus_1 m
  /\ Cvae m' = Cvae m /\ V m' = V m /\ C m' = C m /\ L m' = L m
  /\ shared_ada_lin m' = shared_ada_lin m.
Proof.
  intros H. destruct (frame_fields H) as (_ & _ & H1 & H2 & _ & _ & _ & H3 & H4 & H5 & H6).
  destruct (frame_sizes H) as [H7 _]. auto 8.
Qed.

(** One turn of the stage loop returns, with the next token map ready. *)
Lemma infer_stage_run B sel cfg top_k top_p returns_vemb gumbel tau inv_tau
    cond lvl_pos si pn st (w : World) :
  wf (self w) -> contract (self w) -> 0 < B -> 0 < Cvae (self w) ->
  (shared_ada_lin (self w) = None \/ 0 < C (self w)) ->
  py_truediv xone tau = Ok inv_tau ->
  num_stages_minus_1 (self w) <> 0 ->
  shape cond = [2 * B; C (self w)] ->
  shape lvl_pos = [1; L (self w); C (self w)] ->
  nth_error (patch_nums (self w)) si = Some pn ->
  shape (cur_token_map st) = [2 * B; pn * pn; C (self w)] ->
  cur_L st = sum_sq (firstn si (patch_nums (self w))) ->
  exists w' st' e,
    infer_stage B sel cfg top_k top_p returns_vemb gumbel tau cond lvl_pos si pn st w
    = (w', Ok (st', e))
    /\ frame (self w) (self w')
    /\ entry_shapes (self w) B e
    /\ cur_L st' = sum_sq (firstn (S si) (patch_nums (self w)))
    /\ (forall pn1, nth_error (patch_nums (self w)) (S si) = Some pn1 ->
          shape (cur_token_map st') = [2 * B; pn1 * pn1; C (self w)]).
Proof.
  intros W Hc HB HCv Hada Htau Hn Hcond Hlp Hsi Hctm HcL.
  destruct (@stage_logits_run _ B cfg tau inv_tau cond (cur_token_map st) si (pn * pn) w
              W Hc Hada Htau Hn Hcond Hctm)
    as (w1 & ratio & raw & lg & Hlog & Hf1 & Hraw & Hlg).
  destruct (frame_all Hf1) as (Hp1 & Hn1 & HCv1 & HV1 & HC1 & HL1 & _).
  pose proof (contract_frame Hf1 Hc) as Hc1.
  destruct (@stage_sample_run _ B sel top_k top_p gumbel ratio pn lg w1 Hc1
              ltac:(rewrite HV1; exact Hlg))
    as (w2 & idx_Bl & h & Hsam & Hf2 & Hh).
  pose proof (frame_trans Hf1 Hf2) as Hf.
  destruct (frame_all Hf) as (Hp2 & Hn2 & HCv2 & HV2 & HC2 & HL2 & _).
  pose proof (wf_frame Hf W) as W2. pose proof (contract_frame Hf Hc) as Hc2.
  pose proof (firstn_S_nth _ _ Hsi) as HS. rewrite Nat.pow_2_r in HS.
  assert (Hsil : si < length (patch_nums (self w)))
    by (apply nth_error_Some; congruence).
  set (o := if returns_vemb then OutEmb h else OutIdx idx_Bl).
  set (e := {| log_si := si; log_t := xmul cfg ratio; log_raw := raw; log_sampled := lg |}).
  assert (He : entry_shapes (self w) B e).
  { exists pn. cbn [e log_si log_raw log_sampled]. auto. }
  assert (Hpre : forall k : LoopState * StageLog -> M (LoopState * StageLog),
    infer_stage B sel cfg top_k top_p returns_vemb gumbel tau cond lvl_pos si pn st w
    = (if si =? num_stages_minus_1 (self w2)
       then mret ({| cur_L := cur_L st + pn * pn; ret := ret st ++ [o];
                     f_hat := f_hat st; cur_token_map := cur_token_map st |}, e)
       else mbind (stage_next B lvl_pos si (cur_L st + pn * pn) (f_hat st) h)
                  (fun fc => mret ({| cur_L := cur_L st + pn * pn; ret := ret st ++ [o];
                                      f_hat := fst fc; cur_token_map := snd fc |}, e))) w2).
  { intros _. unfold infer_stage.
    erewrite mbind_run by exact Hlog. cbv beta iota.
    erewrite mbind_run by exact Hsam. cbv beta iota.
    erewrite mbind_run by reflexivity. fold o. fold e.
    destruct (si =? num_stages_minus_1 (self w2)); [reflexivity|].
    unfold mbind. destruct (stage_next _ _ _ _ _ _ w2) as [w3 [[f' c']|ex]]; reflexivity. }
  rewrite (Hpre (fun _ => mret (st, e))). clear Hpre.
  destruct (Nat.eqb_spec si (num_stages_minus_1 (self w2))) as [Hlast|Hnot].
  - eexists w2, _, e. split; [reflexivity|]. split; [exact Hf|]. split; [exact He|].
    cbn [cur_L cur_token_map]. split; [lia|].
    intros pn1 Hpn1. rewrite Hn2, (wf_stages W) in Hlast.
    assert (S si < length (patch_nums (self w))) by (apply nth_error_Some; congruence).
    lia.
  - rewrite Hn2, (wf_stages W) in Hnot.
    assert (HS1 : S si < length (patch_nums (self w))) by lia.
    destruct (nth_error (patch_nums (self w)) (S si)) as [pn1|] eqn:Hpn1;
      [|apply nth_error_None in Hpn1; lia].
    destruct (@stage_next_run _ B lvl_pos si (cur_L st + pn * pn) pn1 (f_hat st) h w2
                W2 Hc2 HB ltac:(rewrite HCv2; exact HCv)
                ltac:(rewrite HL2, HC2; exact Hlp)
                ltac:(rewrite Hp2; exact Hpn1))
      as (f' & ctm & Hnx & Hctm').
    { rewrite Hp2, HCv2, (nth_error_nth _ _ 0 Hsi), <- HCv1. exact Hh. }
    { rewrite Hp2. lia. }
    eexists w2, _, e. split.
    + erewrite mbind_run by exact Hnx. reflexivity.
    + split; [exact Hf|]. split; [exact He|]. cbn [cur_L cur_token_map fst snd].
      split; [lia|]. intros pn1' Hpn1'. injection Hpn1' as <-.
      rewrite Hctm', HC2. reflexivity.
Qed.

End LoopRun.

Section CallRun.
Context {E : Env}.

Lemma entry_shapes_frame (m m' : VAR) (B : nat) (e : StageLog) :
  frame m m' -> entry_shapes m' B e -> entry_shapes m B e.
Proof.
  intros Hf (pn & H1 & H2 & H3).
  destruct (frame_all Hf) as (Hp & _ & _ & HV & _).
  exists pn. rewrite <- Hp, <- HV. auto.
Qed.

(** The stage loop returns from any stage whose token map has the stage's
    length, and every entry it records has the stage's shapes. *)
Lemma infer_loop_run B sel cfg top_k top_p returns_vemb gumbel tau inv_tau
    cond lvl_pos rest :
  forall si st log (w : World),
    wf (self w) -> contract (self w) -> 0 < B -> 0 < Cvae (self w) ->
    (shared_ada_lin (self w) = None \/ 0 < C (self w)) ->
    py_truediv xone tau = Ok inv_tau ->
    num_stages_minus_1 (self w) <> 0 ->
    shape cond = [2 * B; C (self w)] ->
    shape lvl_pos = [1; L (self w); C (self w)] ->
    (forall j, nth_error rest j = nth_error (patch_nums (self w)) (si + j)) ->
    (forall pn, nth_error (patch_nums (self w)) si = Some pn ->
       shape (cur_token_map st) = [2 * B; pn * pn; C (self w)]) ->
    cur_L st = sum_sq (firstn si (patch_nums (self w))) ->
    exists w' st' new,
      infer_loop B sel cfg top_k top_p returns_vemb gumbel tau cond lvl_pos
                 si rest st log w = (w', Ok (st', log ++ new))
      /\ frame (self w) (self w')
      /\ Forall (entry_shapes (self w) B) new.
Proof.
  induction rest as [|pn rest IH];
    intros si st log w W Hc HB HCv Hada Htau Hn Hcond Hlp Hrest Hctm HcL;
    cbn [infer_loop].
  - exists w, st, []. rewrite app_nil_r. split; [reflexivity|].
    split; [apply frame_refl|constructor].
  - assert (Hsi : nth_error (patch_nums (self w)) si = Some pn).
    { rewrite <- (Nat.add_0_r si), <- Hrest. reflexivity. }
    destruct (@infer_stage_run _ B sel cfg top_k top_p returns_vemb gumbel tau inv_tau
                cond lvl_pos si pn st w W Hc HB HCv Hada Htau Hn Hcond Hlp Hsi
                (Hctm _ Hsi) HcL)
      as (w1 & st1 & e & Hst & Hf1 & He & HcL1 & Hctm1).
    destruct (frame_all Hf1) as (Hp1 & Hn1 & HCv1 & HV1 & HC1 & HL1 & Hada1).
    destruct (IH (S si) st1 (log ++ [e]) w1) as (w' & st' & new & Hrun & Hf2 & Hnew).
    + exact (wf_frame Hf1 W).
    + exact (contract_frame Hf1 Hc).
    + exact HB.
    + rewrite HCv1. exact HCv.
    + rewrite Hada1, HC1. exact Hada.
    + exact Htau.
    + rewrite Hn1. exact Hn.
    + rewrite HC1. exact Hcond.
    + rewrite HL1, HC1. exact Hlp.
    + intros j. rewrite Hp1. specialize (Hrest (S j)). cbn [nth_error] in Hrest.
      rewrite Hrest. f_equal. lia.
    + intros pn1 Hpn1. rewrite Hp1 in Hpn1. rewrite HC1. exact (Hctm1 _ Hpn1).
    + rewrite Hp1. exact HcL1.
    + exists w', st', (e :: new). split.
      * erewrite mbind_run by exact Hst. cbv beta iota.
        rewrite Hrun, <- app_assoc. reflexivity.
      * split; [exact (frame_trans Hf1 Hf2)|].
        constructor; [exact He|].
        eapply Forall_impl; [|exact Hnew].
        intros a Ha. exact (entry_shapes_frame Hf1 Ha).
Qed.

(** With at least two stages, a positive batch and a temperature that can be
    divided by, the whole call returns. *)
Lemma infer_logged_run B label_B g_seed cfg top_k top_p returns_vemb gumbel tau inv_tau
    (w : World) :
  wf (self w) -> contract (self w) -> label_ok (self w) B label_B ->
  seed_ok g_seed ->
  0 < B -> 0 < Cvae (self w) ->
  (shared_ada_lin (self w) = None \/ 0 < C (self w)) ->
  py_truediv xone tau = Ok inv_tau ->
  2 <= length (patch_nums (self w)) ->
  exists w' out log,
    infer_logged B label_B g_seed cfg top_k top_p returns_vemb gumbel tau w
    = (w', Ok (out, log))
    /\ Forall (entry_shapes (self w) B) log.
Proof.
  intros W Hc Hl Hseed HB HCv Hada Htau Hlen.
  destruct (@infer_prologue_run _ B label_B g_seed w W Hc Hl Hseed)
    as (w1 & sel & cond & lvl_pos & st & Hpro & Hcond & Hlp & Hctm & HcL & Hret).
  pose proof (keeps_infer_prologue B label_B g_seed w) as Hk.
  rewrite Hpro in Hk. cbn [fst] in Hk.
  destruct (frame_all Hk) as (Hp1 & Hn1 & HCv1 & HV1 & HC1 & HL1 & Hada1).
  destruct (@infer_loop_run B sel cfg top_k top_p returns_vemb gumbel tau inv_tau
              cond lvl_pos (patch_nums (self w1)) 0 st [] w1)
    as (w2 & st' & new & Hrun & Hf2 & Hnew).
  - exact (wf_frame Hk W).
  - exact (contract_frame Hk Hc).
  - exact HB.
  - rewrite HCv1. exact HCv.
  - rewrite Hada1, HC1. exact Hada.
  - exact Htau.
  - rewrite Hn1, (wf_stages W). lia.
  - rewrite HC1. exact Hcond.
  - rewrite HL1, HC1. exact Hlp.
  - intros j. reflexivity.
  - intros pn Hpn. rewrite Hp1 in Hpn. rewrite HC1, Hctm, (wf_first_l W).
    destruct (patch_nums (self w)) as [|p ps]; [discriminate|].
    injection Hpn as <-. cbn [hd]. rewrite Nat.pow_2_r. reflexivity.
  - rewrite HcL. reflexivity.
  - destruct (kv_caching_all false w2) as [w3 r3] eqn:Hoff.
    assert (Hr3 : r3 = Ok tt).
    { unfold kv_caching_all, modify_self in Hoff. injection Hoff as _ <-. reflexivity. }
    subst r3.
    exists w3, (ret st'), new. split.
    + unfold infer_logged.
      erewrite mbind_run by exact Hpro. cbv beta iota.
      erewrite mbind_run by reflexivity.
      erewrite mbind_run by exact Hrun. cbv beta iota.
      erewrite mbind_run by exact Hoff. reflexivity.
    + eapply Forall_impl; [|exact Hnew].
      intros a Ha. exact (entry_shapes_frame Hk Ha).
Qed.

End CallRun.

(** ** Generation: what each stage of a returning call ran *)

Section Trace.
Context {E : Env}.

Lemma with_rng_ok_inv {A} (sel : rng_sel) (f : rng_state -> A * rng_state)
    (w w' : World) (a : A) :
  with_rng sel f w = (w', Ok a) ->
  w' = put_rng sel (snd (f (rng_of sel w))) w /\ a = fst (f (rng_of sel w)).
Proof. rewrite with_rng_eq. intros H. injection H as <- <-. auto. Qed.

Lemma rng_of_put_rng (sel : rng_sel) (g : rng_state) (w : World) :
  rng_of sel (put_rng sel g w) = g.
Proof. destruct sel; reflexivity. Qed.

Lemma Cvae_put_rng (sel : rng_sel) (g : rng_state) (w : World) :
  Cvae (self (put_rng sel g w)) = Cvae (self w).
Proof. destruct sel; reflexivity. Qed.

(** The sampler ran on the logits the stage handed it, with the generator
    of the call. *)
Lemma stage_sample_trace B sel top_k top_p gumbel ratio pn lg (w w' : World) idx_Bl h_BChw :
  stage_sample B sel top_k top_p gumbel ratio pn lg w = (w', Ok (idx_Bl, h_BChw)) ->
  sampled (self w) B top_k top_p gumbel ratio pn lg (rng_of sel w) idx_Bl h_BChw.
Proof.
  unfold stage_sample. intros H.
  apply mbind_ok_inv in H. destruct H as (w1 & [idx3 lg'] & Hs & H).
  apply with_rng_ok_inv in Hs. destruct Hs as [-> Hs].
  apply mbind_ok_inv in H. destruct H as (w2 & idx & Hi & H).
  apply lift_ok_inv in Hi. destruct Hi as [-> Hidx].
  apply mbind_ok_inv in H. destruct H as (w3 & h & Hh & H).
  apply mbind_ok_inv in H. destruct H as (w4 & m & Hm & H).
  apply get_self_inv in Hm. destruct Hm as [-> ->].
  apply mbind_ok_inv in H. destruct H as (w5 & hb & Hr & H).
  apply lift_ok_inv in Hr. destruct Hr as [-> Hr].
  unfold mret in H. injection H as _ <- <-.
  unfold sampled. cbv zeta. rewrite <- Hs. cbn [fst snd].
  split; [exact Hidx|]. exists h. split.
  - destruct (xeqb gumbel (of_Z 0)).
    + apply lift_ok_inv in Hh. exact (proj2 Hh).
    + apply mbind_ok_inv in Hh. destruct Hh as (w6 & g & Hg & Hh).
      apply with_rng_ok_inv in Hg. destruct Hg as [-> ->].
      apply lift_ok_inv in Hh. destruct Hh as [_ Hh].
      rewrite rng_of_put_rng in Hh. exact Hh.
  - assert (HC : Cvae (self w3) = Cvae (self w)).
    { destruct (xeqb gumbel (of_Z 0)).
      - apply lift_ok_inv in Hh. destruct Hh as [-> _]. apply Cvae_put_rng.
      - apply mbind_ok_inv in Hh. destruct Hh as (w6 & g & Hg & Hh).
        apply with_rng_ok_inv in Hg. destruct Hg as [-> _].
        apply lift_ok_inv in Hh. destruct Hh as [-> _].
        rewrite !Cvae_put_rng. reflexivity. }
    rewrite <- HC. exact Hr.
Qed.

(** A stage that returns ran the blocks on the current token map, turned
    their output into logits, merged them with the ratio of the stage, fed
    the merged logits to the sampler and appended what the sampler gave. *)
Lemma infer_stage_trace B sel cfg top_k top_p returns_vemb gumbel tau cond lvl_pos
    si pn st (w w' : World) st' e :
  infer_stage B sel cfg top_k top_p returns_vemb gumbel tau cond lvl_pos si pn st w
  = (w', Ok (st', e)) ->
  exists ratio o w_b,
    py_truediv_int (Z.of_nat si) (Z.of_nat (num_stages_minus_1 (self w))) = Ok ratio
    /\ log_t e = xmul cfg ratio
    /\ cfg_merge B (log_t e) (log_raw e) = Ok (log_sampled e)
    /\ ret st' = ret st ++ [o]
    /\ stage_ran B sel top_k top_p gumbel tau returns_vemb cond pn ratio
                 (cur_token_map st) (log_raw e) (log_sampled e) o w w_b.
Proof.
  unfold infer_stage. intros H.
  apply mbind_ok_inv in H. destruct H as (w1 & [[[ratio t] raw] lg] & Hlg & H).
  apply mbind_ok_inv in H. destruct H as (w2 & [idx_Bl h_BChw] & Hsm & H).
  apply mbind_ok_inv in H. destruct H as (w3 & m & _ & H).
  apply stage_sample_trace in Hsm.
  unfold stage_logits in Hlg.
  apply mbind_ok_inv in Hlg. destruct Hlg as (w4 & m0 & Hm & Hlg).
  apply get_self_inv in Hm. destruct Hm as [-> ->].
  apply mbind_ok_inv in Hlg. destruct Hlg as (w4 & ratio' & Hr & Hlg).
  apply lift_ok_inv in Hr. destruct Hr as [-> Hratio].
  apply mbind_ok_inv in Hlg. destruct Hlg as (w4 & gss & Hg & Hlg).
  apply lift_ok_inv in Hg. destruct Hg as [-> Hgss].
  apply mbind_ok_inv in Hlg. destruct Hlg as (w5 & x & Hx & Hlg).
  apply mbind_ok_inv in Hlg. destruct Hlg as (w6 & m1 & Hm1 & Hlg).
  apply get_self_inv in Hm1. destruct Hm1 as [-> ->].
  apply mbind_ok_inv in Hlg. destruct Hlg as (w7 & raw' & Hraw & Hlg).
  apply lift_ok_inv in Hraw. destruct Hraw as [-> Hraw].
  apply mbind_ok_inv in Hlg. destruct Hlg as (w8 & lg' & Hmg & Hlg).
  apply lift_ok_inv in Hmg. destruct Hmg as [-> Hmg].
  unfold mret in Hlg. injection Hlg as <- <- <- <- <-.
  exists ratio', (if returns_vemb then OutEmb h_BChw else OutIdx idx_Bl), w5.
  assert (Hran : stage_ran B sel top_k top_p gumbel tau returns_vemb cond pn ratio'
                   (cur_token_map st) raw' lg'
                   (if returns_vemb then OutEmb h_BChw else OutIdx idx_Bl) w w5).
  { exists gss, x, idx_Bl, h_BChw. auto 6. }
  destruct (si =? num_stages_minus_1 m).
  - unfold mret in H. injection H as _ <- <-.
    cbn [ret log_t log_raw log_sampled]. auto 6.
  - apply mbind_ok_inv in H. destruct H as (w10 & [f' ctm] & _ & H).
    unfold mret in H. injection H as _ <- <-.
    cbn [ret log_t log_raw log_sampled]. auto 6.
Qed.

(** The loop went through the stages in order: the [j]-th record and the
    [j]-th output it added come from the [j]-th remaining stage. *)
Lemma infer_loop_trace B sel cfg top_k top_p returns_vemb gumbel tau cond lvl_pos rest :
  forall si st log (w w' : World) st' log',
    infer_loop B sel cfg top_k top_p returns_vemb gumbel tau cond lvl_pos
               si rest st log w = (w', Ok (st', log')) ->
    exists new outs,
      log' = log ++ new /\ ret st' = ret st ++ outs
      /\ length new = length rest /\ length outs = length rest
      /\ forall j e, nth_error new j = Some e ->
           exists pn o ctm ratio w_a w_b,
             nth_error rest j = Some pn /\ nth_error outs j = Some o
             /\ py_truediv_int (Z.of_nat (si + j))
                               (Z.of_nat (num_stages_minus_1 (self w))) = Ok ratio
             /\ log_t e = xmul cfg ratio
             /\ cfg_merge B (log_t e) (log_raw e) = Ok (log_sampled e)
             /\ stage_ran B sel top_k top_p gumbel tau returns_vemb cond pn ratio ctm
                          (log_raw e) (log_sampled e) o w_a w_b
             /\ (j = 0 -> ctm = cur_token_map st /\ w_a = w).
Proof.
  induction rest as [|pn rest IH]; intros si st log w w' st' log' H; cbn [infer_loop] in H.
  - unfold mret in H. injection H as _ <- <-.
    exists [], []. rewrite !app_nil_r. repeat split.
    intros [|j] e He; discriminate.
  - apply mbind_ok_inv in H. destruct H as (w1 & [st1 e1] & Hs & H).
    pose proof (keeps_infer_stage B sel cfg top_k top_p returns_vemb gumbel tau
                                  cond lvl_pos si pn st w) as Hk.
    rewrite Hs in Hk. cbn [fst] in Hk. apply frame_fields in Hk.
    destruct Hk as (_ & _ & _ & Hn & _).
    apply infer_stage_trace in Hs.
    destruct Hs as (ratio & o & w_b & Hratio & Ht & Hmg & Hret & Hran).
    apply IH in H. destruct H as (new & outs & -> & Hr & Hnl & Hol & Hnew).
    exists (e1 :: new), (o :: outs). rewrite <- !app_assoc.
    split; [reflexivity|]. split; [rewrite Hr, Hret, <- app_assoc; reflexivity|].
    split; [cbn [length]; congruence|]. split; [cbn [length]; congruence|].
    intros [|j] e He; cbn [nth_error] in He.
    + injection He as <-. exists pn, o, (cur_token_map st), ratio, w, w_b.
      rewrite Nat.add_0_r. cbn [nth_error]. auto 10.
    + destruct (Hnew j e He)
        as (pn' & o' & ctm & ratio' & w_a' & w_b' & H1 & H2 & H3 & H4 & H5 & H6 & _).
      exists pn', o', ctm, ratio', w_a', w_b'. cbn [nth_error].
      rewrite Hn in H3. replace (si + S j) with (S si + j) by lia.
      repeat split; try assumption; discriminate.
Qed.

(** The records and the outputs of a returning call, stage by stage. *)
Lemma infer_logged_trace B label_B g_seed cfg top_k top_p returns_vemb gumbel tau
    (w w' : World) out log :
  infer_logged B label_B g_seed cfg top_k top_p returns_vemb gumbel tau w
  = (w', Ok (out, log)) ->
  exists w1 sel cond lvl_pos st0,
    infer_prologue B label_B g_seed w = (w1, Ok (sel, cond, lvl_pos, st0))
    /\ length log = length (patch_nums (self w))
    /\ length out = length (patch_nums (self w))
    /\ forall si e, nth_error log si = Some e ->
         exists pn o ctm ratio w_a w_b,
           nth_error (patch_nums (self w)) si = Some pn /\ nth_error out si = Some o
           /\ py_truediv_int (Z.of_nat si)
                             (Z.of_nat (num_stages_minus_1 (self w))) = Ok ratio
           /\ log_t e = xmul cfg ratio
           /\ cfg_merge B (log_t e) (log_raw e) = Ok (log_sampled e)
           /\ stage_ran B sel top_k top_p gumbel tau returns_vemb cond pn ratio ctm
                        (log_raw e) (log_sampled e) o w_a w_b
           /\ (si = 0 -> ctm = cur_token_map st0 /\ w_a = w1).
Proof.
  unfold infer_logged. intros H.
  apply mbind_ok_inv in H. destruct H as (w1 & [[[sel cond] lvl_pos] st] & Hp & H).
  apply mbind_ok_inv in H. destruct H as (w2 & m & Hm & H).
  apply get_self_inv in Hm. destruct Hm as [-> ->].
  apply mbind_ok_inv in H. destruct H as (w2 & [st' log'] & Hl & H).
  apply mbind_ok_inv in H. destruct H as (w3 & u & Hd & H).
  unfold mret in H. injection H as <- <- <-.
  pose proof (keeps_infer_prologue B label_B g_seed w) as Hk.
  rewrite Hp in Hk. cbn [fst] in Hk. apply frame_fields in Hk.
  destruct Hk as (_ & _ & Hpn & Hn & _).
  assert (Hst : ret st = []).
  { pose proof Hp as Hp'. unfold infer_prologue in Hp'. m_inv Hp'. unfold mret in Hp'.
    injection Hp' as _ _ _ _ <-. reflexivity. }
  exists w1, sel, cond, lvl_pos, st. split; [exact Hp|].
  apply infer_loop_trace in Hl. destruct Hl as (new & outs & -> & Hr & Hnl & Hol & Hnew).
  rewrite Hst in Hr. cbn [app] in *. rewrite Hr, Hnl, Hol, Hpn.
  split; [reflexivity|]. split; [reflexivity|].
  intros si e He.
  destruct (Hnew si e He)
    as (pn & o & ctm & ratio & w_a & w_b & H1 & H2 & H3 & H4 & H5 & H6 & H7).
  exists pn, o, ctm, ratio, w_a, w_b. rewrite <- Hpn, <- Hn. auto 10.
Qed.

End Trace.

Section Caching.
Context {E : Env}.

Lemma infer_returns_logged B label_B g_seed cfg top_k top_p returns_vemb gumbel tau
    (w w' : World) out :
  autoregressive_infer_cfg B label_B g_seed cfg top_k top_p returns_vemb gumbel tau w
  = (w', Ok out) ->
  exists log,
    infer_logged B label_B g_seed cfg top_k top_p returns_vemb gumbel tau w
    = (w', Ok (out, log)).
Proof.
  unfold autoregressive_infer_cfg. intros H.
  apply mbind_ok_inv in H. destruct H as (w1 & [o l] & Hl & H).
  unfold mret in H. injection H as <- <-. exists l. exact Hl.
Qed.

Lemma infer_logged_returns B label_B g_seed cfg top_k top_p returns_vemb gumbel tau
    (w w' : World) out log :
  infer_logged B label_B g_seed cfg top_k top_p returns_vemb gumbel tau w
  = (w', Ok (out, log)) ->
  autoregressive_infer_cfg B label_B g_seed cfg top_k top_p returns_vemb gumbel tau w
  = (w', Ok out).
Proof.
  intros H. unfold autoregressive_infer_cfg.
  erewrite mbind_run by exact H. reflexivity.
Qed.

End Caching.

Section Guidance.
Context {E : Env}.

(** The ratio and the merge recorded for a stage, with the division done. *)
Lemma entry_formula_ratio (m : VAR) (B : nat) (cfg : xreal) (e : StageLog) :
  entry_formula m B cfg e ->
  num_stages_minus_1 m <> 0
  /\ log_t e = xmul cfg (Fin (Q2Qc (inject_Z (Z.of_nat (log_si e)))
                              / Q2Qc (inject_Z (Z.of_nat (num_stages_minus_1 m))))%Qc)
  /\ cfg_merge B (log_t e) (log_raw e) = Ok (log_sampled e).
Proof.
  intros (ratio & Hr & Ht & Hm). apply py_truediv_int_inv in Hr.
  destruct Hr as [Hn ->]. split; [lia|]. split; assumption.
Qed.

End Guidance.

Lemma small_idle : all_idle (self (Small.world (-1))).
Proof. repeat constructor. Qed.

Lemma seeded_generation_is_deterministic_witness :
  let call := autoregressive_infer_cfg 2 (Some (LabelInt 1)) (Some 5%Z) (of_Z 3) 0 xzero
                                       false xzero xone in
  (exists w1 out, call (Small.world (-1)) = (w1, Ok out) /\ snd (call w1) = Ok out)
  /\ snd (call (Small.world (-1)))
     = snd (call {| self := set_rng 42 (self (Small.world (-1))); ambient := 11 |}).
Proof.
  intros call.
  pose proof (seeded_generation_is_deterministic 2 (Some (LabelInt 1)) 5 (of_Z 3) 0 xzero
                false xzero xone) as (Hsame & Hagain & _).
  split.
  - destruct (@infer_logged_run _ 2 (Some (LabelInt 1)) (Some 5%Z) (of_Z 3) 0 xzero
                false xzero xone xone (Small.world (-1))
                (wf_set_prog_si (-1) small_wf) (small_model_contract (-1))
                ltac:(cbn; lia) eq_refl ltac:(lia) ltac:(cbn; lia) (or_introl eq_refl)
                py_truediv_one ltac:(cbn; lia)) as (w1 & out & log & H & _).
    apply infer_logged_returns in H.
    exists w1, out. split; [exact H|].
    exact (Hagain _ _ _ small_idle H).
  - exact (proj1 (Hsame (Small.world (-1))
                        {| self := set_rng 42 (self (Small.world (-1))); ambient := 11 |}
                        eq_refl)).
Defined.

Section ForwardEdges.
Context {E : Env}.

Lemma mbind_cong {A B} (c c' : M A) (k : A -> M B) (w : World) :
  c w = c' w -> mbind c k w = mbind c' k w.
Proof. intros H. unfold mbind. rewrite H. reflexivity. Qed.

(** X1.  [forward] on a model whose [prog_si] is not below the number of
    stages raises IndexError at line 221, before anything is drawn or
    changed: the state is the one the call started from. *)
Theorem forward_rejects_stage_out_of_range (label_B : Tensor Z) (x : Tensor xreal)
    (w : World) :
  wf (self w) ->
  (Z.of_nat (length (patch_nums (self w))) <= prog_si (self w))%Z ->
  forward label_B x w = (w, Raise IndexError).
Proof.
  intros W Hp. unfold forward, forward_logits, forward_prepare.
  apply mbind_raise. apply mbind_raise.
  erewrite mbind_run by reflexivity.
  apply mbind_raise. unfold lift, active_range.
  rewrite (proj2 (Z.leb_le _ _)) by lia.
  assert (Hn : nth_error (begin_ends (self w)) (Z.to_nat (prog_si (self w))) = None).
  { apply nth_error_None. rewrite (wf_begin_ends W), begin_ends_from_length. lia. }
  rewrite Hn. reflexivity.
Qed.

(** X2.  With [prog_si = 0] the teacher features are read for their batch
    size only (line 228 takes the seed alone): two calls whose teacher
    tensors have the same first dimension do the same. *)
Theorem first_stage_ignores_teacher (label_B : Tensor Z) (x x' : Tensor xreal)
    (w : World) (B : nat) (r r' : list nat) :
  prog_si (self w) = 0%Z ->
  shape x = B :: r -> shape x' = B :: r' ->
  forward label_B x w = forward label_B x' w.
Proof.
  intros Hp Hx Hx'.
  assert (Hprep : forward_prepare label_B x w = forward_prepare label_B x' w).
  { unfold forward_prepare.
    rewrite !(@mbind_run _ _ _ get_self _ w w (self w) eq_refl).
    rewrite Hp, Hx, Hx'. reflexivity. }
  unfold forward, forward_logits.
  apply mbind_cong, mbind_cong. exact Hprep.
Qed.

End ForwardEdges.

Lemma forward_rejects_stage_out_of_range_witness :
  forward Small.labels (Small.teacher 13) (Small.world 3)
  = (Small.world 3, Raise IndexError).
Proof.
  apply forward_rejects_stage_out_of_range.
  - exact (wf_set_prog_si 3 small_wf).
  - cbn. lia.
Defined.

Lemma first_stage_ignores_teacher_witness :
  forward Small.labels (Small.teacher 13) (Small.world 0)
  = forward Small.labels (Small.teacher 0) (Small.world 0).
Proof.
  apply (@first_stage_ignores_teacher _ Small.labels (Small.teacher 13) (Small.teacher 0)
           (Small.world 0) 2 [13; 2] [0; 2]); reflexivity.
Defined.

Section ConstructorEdges.
Context {E : Env}.

(** X3.  The only assertion of the constructor that can fail is the one on
    the head count (line 33): the shape assertion on [pos_1LC] (line 76)
    never does. *)
Theorem only_the_head_count_assertion_can_fail (vae : VAEInfo) (cfg : Config)
    (ini : Init) :
  VAR_init vae cfg ini = Raise AssertionError ->
  arg_num_heads cfg <> 0 /\ arg_embed_dim cfg mod arg_num_heads cfg <> 0.
Proof.
  unfold VAR_init.
  destruct (Nat.eqb_spec (arg_num_heads cfg) 0) as [|Hh]; [discriminate|].
  destruct (Nat.eqb_spec (arg_embed_dim cfg mod arg_num_heads cfg) 0) as [Hm|Hm];
    [|intros _; split; assumption].
  cbn [check rbind].
  destruct (arg_patch_nums cfg) as [|pn0 rest] eqn:Hpns; [discriminate|].
  cbn [rbind].
  destruct (py_truediv_int 1 (Z.of_nat (arg_embed_dim cfg))) as [q|e] eqn:Hstd.
  2:{ cbn [rbind]. intros H. exfalso. injection H as ->.
      unfold py_truediv_int, py_truediv, of_Z in Hstd.
      destruct (Qc_eq_bool _ _); discriminate. }
  cbn [rbind].
  destruct (py_truediv_int 1 (Z.of_nat (arg_num_classes cfg))) as [p|e] eqn:Hdiv.
  2:{ cbn [rbind]. intros H. exfalso. injection H as ->.
      unfold py_truediv_int, py_truediv, of_Z in Hdiv.
      destruct (Qc_eq_bool _ _); discriminate. }
  cbn [rbind].
  destruct (@position_embedding_spec (pn0 :: rest) (arg_embed_dim cfg) ini
              ltac:(discriminate)) as (pos & Hpos & _).
  rewrite Hpos. cbn [rbind].
  destruct (arg_depth cfg =? 0); cbn [negb check rbind]; [discriminate|].
  destruct (@mask_buffers_spec (pn0 :: rest) ltac:(discriminate)) as (lvl & bias & Hb & _).
  rewrite Hb. cbn [rbind]. discriminate.
Qed.

Lemma width_mod_depth (depth : nat) : (depth * 64) mod depth = 0.
Proof. rewrite Nat.mul_comm. apply Nat.Div0.mod_mul. Qed.

(** X4.  [build_var] never trips the constructor's assertion: depth 0 raises
    ZeroDivisionError (the head count is the depth), an empty stage list
    raises IndexError, and otherwise a model comes back with [depth] idle
    blocks, width [64 * depth], [depth] heads and 1000 classes. *)
Theorem build_var_spec (vae : VAEInfo) (depth : nat) (pns : list nat)
    (aln : xreal) (shared_aln : bool) (layer_scale : xreal) (ini : Init) :
  let r := build_var vae depth pns aln shared_aln layer_scale ini in
  (depth = 0 -> r = Raise ZeroDivisionError)
  /\ (depth <> 0 -> pns = [] -> r = Raise IndexError)
  /\ (depth <> 0 -> pns <> [] ->
      exists m, r = Ok m
        /\ C m = depth * 64 /\ C m mod depth = 0
        /\ blocks m = repeat attn_idle depth
        /\ num_classes m = 1000
        /\ patch_nums m = pns
        /\ Cvae m = vae_Cvae vae /\ V m = vae_vocab_size vae
        /\ prog_si m = (-1)%Z).
Proof.
  intros r. subst r. unfold build_var. split; [|split].
  - intros ->. reflexivity.
  - intros Hd ->. unfold VAR_init. cbv zeta.
    cbn [arg_num_heads arg_embed_dim arg_patch_nums].
    destruct (Nat.eqb_spec depth 0) as [|_]; [contradiction|].
    rewrite width_mod_depth. reflexivity.
  - intros Hd Hp.
    match goal with |- exists m, VAR_init ?v ?c ?i = _ /\ _ => set (cfg := c) end.
    assert (Hc : constructible cfg).
    { unfold constructible, cfg.
      cbn [arg_num_heads arg_embed_dim arg_patch_nums arg_num_classes arg_depth].
      repeat split; try assumption; [apply width_mod_depth | discriminate | lia]. }
    destruct (VAR_init_ok vae ini Hc) as [m Hm]. exists m. split; [exact Hm|].
    apply VAR_init_inv in Hm.
    destruct Hm as (_ & Hpn & _ & _ & _ & _ & HC & _ & HCv & HV & Hnc & _ & _ & _ & _ & _
                    & _ & Hps & Hbl & _).
    rewrite HC. unfold cfg in *.
    cbn [arg_embed_dim arg_patch_nums arg_num_classes arg_depth] in *.
    repeat split; try assumption. apply width_mod_depth.
Qed.

End ConstructorEdges.

Lemma only_the_head_count_assertion_can_fail_witness :
  arg_num_heads (Small.config Small.stages 3) <> 0
  /\ arg_embed_dim (Small.config Small.stages 3)
     mod arg_num_heads (Small.config Small.stages 3) <> 0.
Proof.
  apply (@only_the_head_count_assertion_can_fail _ Small.vae
           (Small.config Small.stages 3) Small.init).
  reflexivity.
Defined.

Lemma build_var_spec_witness :
  build_var Small.vae 0 Small.stages (of_Z (-1)) false (of_Z (-1)) Small.init
  = Raise ZeroDivisionError
  /\ build_var Small.vae 2 [] (of_Z (-1)) false (of_Z (-1)) Small.init
     = Raise IndexError
  /\ exists m, build_var Small.vae 2 Small.stages (of_Z (-1)) false (of_Z (-1)) Small.init
               = Ok m /\ C m = 128.
Proof.
  split; [|split].
  - apply (proj1 (@build_var_spec _ Small.vae 0 Small.stages (of_Z (-1)) false (of_Z (-1))
                    Small.init)). reflexivity.
  - apply (proj1 (proj2 (@build_var_spec _ Small.vae 2 [] (of_Z (-1)) false (of_Z (-1))
                           Small.init))); [discriminate|reflexivity].
  - destruct (proj2 (proj2 (@build_var_spec _ Small.vae 2 Small.stages (of_Z (-1)) false
                              (of_Z (-1)) Small.init))
                ltac:(discriminate) ltac:(discriminate)) as (m & Hm & HC & _).
    exists m. split; [exact Hm|exact HC].
Defined.

Section Logits.
Context {E : Env}.

(** X5.  [get_logits] on a plain token map is the head's output times
    [1 / tau], entry by entry: a zero [tau] raises ZeroDivisionError, and
    with [tau = 1] the head's output comes back unchanged.  On a token map
    with residual it raises TypeError when [gamma2_last] is None, and with
    [gamma2_last = 1] the head is fed [resi + drop_path(h)]. *)
Theorem get_logits_cases (m : VAR) (h resi cond : Tensor xreal) (tau : xreal) :
  let y0 := head (head_nm h cond) in
  let dp := block_drop_path (length (blocks m) - 1) h in
  (tau = xzero -> get_logits m (Plain h) cond tau = Raise ZeroDivisionError)
  /\ (forall inv_tau, py_truediv xone tau = Ok inv_tau ->
        exists y, get_logits m (Plain h) cond tau = Ok y
          /\ shape y = shape y0
          /\ forall idx, get y idx = xmul (get y0 idx) inv_tau)
  /\ (exists y, get_logits m (Plain h) cond xone = Ok y
        /\ shape y = shape y0 /\ forall idx, get y idx = get y0 idx)
  /\ (gamma2_last m = None -> get_logits m (Fused h resi) cond tau = Raise TypeError)
  /\ (forall inv_tau, gamma2_last m = Some GammaOne -> shape dp = shape resi ->
        py_truediv xone tau = Ok inv_tau ->
        exists h', get_logits m (Fused h resi) cond tau
                   = Ok (scale inv_tau (head (head_nm h' cond)))
          /\ shape h' = shape resi
          /\ forall idx, in_bounds (shape resi) idx = true ->
               get h' idx = xadd (get resi idx) (get dp idx)).
Proof.
  intros y0 dp. split; [|split; [|split; [|split]]].
  - intros ->. unfold get_logits. cbn [rbind]. unfold py_truediv, xzero.
    rewrite Qc_eq_bool_refl. reflexivity.
  - intros inv_tau Ht. unfold get_logits. cbn [rbind]. rewrite Ht. cbn [rbind].
    eexists. split; [reflexivity|]. split; reflexivity.
  - unfold get_logits. cbn [rbind]. rewrite py_truediv_one. cbn [rbind].
    eexists. split; [reflexivity|]. split; [reflexivity|].
    intros idx. cbn [scale tmap get]. apply xmul_one_r.
  - intros Hg. unfold get_logits. rewrite Hg. reflexivity.
  - intros inv_tau Hg Hs Ht. unfold get_logits. rewrite Hg. cbn [rbind].
    fold dp. rewrite bop_same by (cbn [tmap shape]; exact Hs).
    cbn [rbind]. rewrite Ht. cbn [rbind].
    eexists. split; [reflexivity|]. split; [reflexivity|].
    intros idx Hi. cbn [get tmap shape].
    rewrite Hs, bcast_idx_in_bounds by exact Hi. rewrite xmul_one_l. reflexivity.
Qed.

End Logits.

Lemma get_logits_cases_witness :
  get_logits Small.model (Plain (full [2; 1; 4] xone)) (full [2; 4] xone) xzero
  = Raise ZeroDivisionError
  /\ get_logits Small.model (Fused (full [2; 1; 4] xone) (full [2; 1; 4] xone))
                (full [2; 4] xone) xone
     = Raise TypeError.
Proof.
  pose proof (@get_logits_cases _ Small.model (full [2; 1; 4] xone) (full [2; 1; 4] xone)
                (full [2; 4] xone)) as H.
  split.
  - exact (proj1 (H xzero) eq_refl).
  - exact (proj1 (proj2 (proj2 (proj2 (H xone)))) eq_refl).
Defined.

Section Leaves.
Context {E : Env}.

Section Combinators.
Variable R : World -> World -> Prop.
Hypothesis R_refl : forall w, R w w.
Hypothesis R_trans : forall w1 w2 w3, R w1 w2 -> R w2 w3 -> R w1 w3.

Lemma leaves_mret {A} (a : A) : leaves R (mret a).
Proof. intros w. apply R_refl. Qed.

Lemma leaves_lift {A} (r : Res A) : leaves R (lift r).
Proof. intros w. apply R_refl. Qed.

Lemma leaves_get_self : leaves R get_self.
Proof. intros w. apply R_refl. Qed.

Lemma leaves_mbind_post {A B} (P : A -> Prop) (c : M A) (k : A -> M B) :
  (forall w w1 a, c w = (w1, Ok a) -> P a) ->
  leaves R c -> (forall a, P a -> leaves R (k a)) -> leaves R (mbind c k).
Proof.
  intros HP Hc Hk w. unfold mbind. specialize (Hc w). specialize (HP w).
  destruct (c w) as [w1 [a|e]]; cbn [fst] in *; [|exact Hc].
  eapply R_trans; [exact Hc|]. apply Hk. eapply HP. reflexivity.
Qed.

Lemma leaves_mbind {A B} (c : M A) (k : A -> M B) :
  leaves R c -> (forall a, leaves R (k a)) -> leaves R (mbind c k).
Proof.
  intros Hc Hk. apply (leaves_mbind_post (fun _ => True)); auto.
Qed.

End Combinators.

Lemma same_self_rng_refl (w : World) : same_self_rng w w.
Proof. reflexivity. Qed.

Lemma same_self_rng_trans (w1 w2 w3 : World) :
  same_self_rng w1 w2 -> same_self_rng w2 w3 -> same_self_rng w1 w3.
Proof. unfold same_self_rng. congruence. Qed.

Lemma same_ambient_refl (w : World) : same_ambient w w.
Proof. reflexivity. Qed.

Lemma same_ambient_trans (w1 w2 w3 : World) :
  same_ambient w1 w2 -> same_ambient w2 w3 -> same_ambient w1 w3.
Proof. unfold same_ambient. congruence. Qed.

Lemma self_rng_call_blocks (x : hidden) (c : Tensor xreal) (b : option (Tensor xreal)) :
  leaves same_self_rng (call_blocks x c b).
Proof.
  intros w. unfold call_blocks.
  destruct (run_blocks 0 (blocks (self w)) x c b). reflexivity.
Qed.

Lemma ambient_call_blocks (x : hidden) (c : Tensor xreal) (b : option (Tensor xreal)) :
  leaves same_ambient (call_blocks x c b).
Proof.
  intros w. unfold call_blocks.
  destruct (run_blocks 0 (blocks (self w)) x c b). reflexivity.
Qed.

Lemma self_rng_kv_caching_all (b : bool) : leaves same_self_rng (kv_caching_all b).
Proof. intros w. reflexivity. Qed.

Lemma ambient_kv_caching_all (b : bool) : leaves same_ambient (kv_caching_all b).
Proof. intros w. reflexivity. Qed.

Lemma self_rng_with_default {A} (f : rng_state -> A * rng_state) :
  leaves same_self_rng (with_rng DefaultRng f).
Proof. intros w. unfold with_rng. destruct (f (ambient w)). reflexivity. Qed.

Lemma ambient_with_self {A} (f : rng_state -> A * rng_state) :
  leaves same_ambient (with_rng SelfRng f).
Proof. intros w. unfold with_rng. destruct (f (rng (self w))). reflexivity. Qed.

Ltac leaves_step refl trans :=
  first
    [ apply (leaves_mret _ refl) | apply (leaves_lift _ refl)
    | apply (leaves_get_self _ refl)
    | apply self_rng_call_blocks | apply ambient_call_blocks
    | apply self_rng_kv_caching_all | apply ambient_kv_caching_all
    | apply self_rng_with_default | apply ambient_with_self
    | apply (leaves_mbind trans); [|intros ?]
    | match goal with
      | |- leaves _ (match ?x with _ => _ end) => destruct x
      | |- leaves _ (if ?x then _ else _) => destruct x
      | |- leaves _ (let (_, _) := ?x in _) => destruct x
      end ].

Ltac leaves_self_rng := repeat leaves_step same_self_rng_refl same_self_rng_trans.
Ltac leaves_ambient := repeat leaves_step same_ambient_refl same_ambient_trans.

Lemma self_rng_forward (label_B : Tensor Z) (x : Tensor xreal) :
  leaves same_self_rng (forward label_B x).
Proof. unfold forward, forward_logits, forward_prepare. leaves_self_rng. Qed.

Lemma self_rng_infer_stage B cfg top_k top_p returns_vemb gumbel tau cond lvl_pos si pn st :
  leaves same_self_rng
    (infer_stage B DefaultRng cfg top_k top_p returns_vemb gumbel tau cond lvl_pos si pn st).
Proof. unfold infer_stage, stage_logits, stage_sample, stage_next. leaves_self_rng. Qed.

Lemma self_rng_infer_loop B cfg top_k top_p returns_vemb gumbel tau cond lvl_pos pns :
  forall si st log,
    leaves same_self_rng
      (infer_loop B DefaultRng cfg top_k top_p returns_vemb gumbel tau cond lvl_pos
                  si pns st log).
Proof.
  induction pns as [|pn pns IH]; intros si st log; cbn [infer_loop].
  - apply (leaves_mret _ same_self_rng_refl).
  - apply (leaves_mbind same_self_rng_trans);
      [apply self_rng_infer_stage|]. intros [st' e]. apply IH.
Qed.

Lemma infer_prologue_unseeded_sel B label_B (w w' : World) sel cond lvl_pos st :
  infer_prologue B label_B None w = (w', Ok (sel, cond, lvl_pos, st)) ->
  sel = DefaultRng.
Proof.
  unfold infer_prologue, resolve_rng. erewrite mbind_run by reflexivity. intros H.
  m_inv H. unfold mret in H. injection H as _ H _ _ _. congruence.
Qed.

Lemma self_rng_infer_prologue B label_B :
  leaves same_self_rng (infer_prologue B label_B None).
Proof.
  unfold infer_prologue, resolve_rng.
  apply (leaves_mbind_post same_self_rng_trans (fun sel => sel = DefaultRng)).
  - intros w w1 a H. unfold mret in H. injection H as _ <-. reflexivity.
  - apply (leaves_mret _ same_self_rng_refl).
  - intros sel ->. unfold resolve_labels. leaves_self_rng.
Qed.

Lemma self_rng_infer B label_B cfg top_k top_p returns_vemb gumbel tau :
  leaves same_self_rng
    (autoregressive_infer_cfg B label_B None cfg top_k top_p returns_vemb gumbel tau).
Proof.
  unfold autoregressive_infer_cfg, infer_logged.
  apply (leaves_mbind same_self_rng_trans);
    [|intros; apply (leaves_mret _ same_self_rng_refl)].
  apply (leaves_mbind_post same_self_rng_trans
           (fun r : rng_sel * Tensor xreal * Tensor xreal * LoopState =>
              fst (fst (fst r)) = DefaultRng)).
  - intros w w1 [[[sel cond] lvl_pos] st] H. cbn [fst].
    exact (infer_prologue_unseeded_sel _ _ _ H).
  - apply self_rng_infer_prologue.
  - intros [[[sel cond] lvl_pos] st] Hs. cbn [fst] in Hs. subst sel.
    apply (leaves_mbind same_self_rng_trans);
      [apply (leaves_get_self _ same_self_rng_refl)|]. intros m.
    apply (leaves_mbind same_self_rng_trans); [apply self_rng_infer_loop|].
    intros [st' log]. leaves_self_rng.
Qed.

Lemma ambient_mbind {A B} (c : M A) (k : A -> M B) (w : World) :
  (forall a, leaves same_ambient (k a)) ->
  ambient (fst (mbind c k w)) = ambient (fst (c w)).
Proof.
  intros Hk. unfold mbind. destruct (c w) as [w1 [a|e]]; [|reflexivity].
  apply Hk.
Qed.

Lemma draws_snd (n : nat) (g : rng_state) : snd (draws n g) = rng_after n g.
Proof.
  revert g; induction n as [|n IH]; intros g; [reflexivity|].
  cbn [draws rng_after]. destruct (rng_uniform g) as [x g1]. cbn [snd].
  rewrite <- IH. destruct (draws n g1). reflexivity.
Qed.

(** X6.  [forward] never touches the model's own generator; once the active
    prefix is found (line 221) it advances the default generator by exactly
    [B] uniform draws, [B] being the first dimension of the teacher tensor,
    whether it then returns or raises. *)
Theorem forward_generator_use (label_B : Tensor Z) (x : Tensor xreal) (w : World) :
  rng (self (fst (forward label_B x w))) = rng (self w)
  /\ forall be B rest,
       active_range (self w) = Ok be -> shape x = B :: rest ->
       ambient (fst (forward label_B x w)) = rng_after B (ambient w).
Proof.
  split; [apply self_rng_forward|].
  intros [bg ed] B rest Har Hx. unfold forward.
  rewrite ambient_mbind by (intros; leaves_ambient).
  unfold forward_logits.
  rewrite ambient_mbind by (intros; leaves_ambient).
  unfold forward_prepare.
  erewrite mbind_run by reflexivity.
  erewrite mbind_run by (unfold lift; rewrite Har; reflexivity).
  cbv beta iota.
  erewrite mbind_run by (unfold lift; rewrite Hx; reflexivity).
  rewrite ambient_mbind by (intros; leaves_ambient).
  unfold with_rng, torch_rand. rewrite <- draws_snd.
  destruct (draws B (ambient w)). reflexivity.
Qed.

(** X7.  A generation call given a seed leaves the default generator where it
    was; a call given no seed leaves the model's own generator where it
    was.  Both hold whether the call returns or raises. *)
Theorem generation_generator_use (B : nat) (label_B : option label_arg)
    (cfg : xreal) (top_k : Z) (top_p : xreal) (returns_vemb : bool)
    (gumbel tau : xreal) (w : World) :
  (forall s, ambient (fst (autoregressive_infer_cfg B label_B (Some s) cfg top_k top_p
                                                    returns_vemb gumbel tau w))
             = ambient w)
  /\ rng (self (fst (autoregressive_infer_cfg B label_B None cfg top_k top_p
                                              returns_vemb gumbel tau w)))
     = rng (self w).
Proof.
  split; [|apply self_rng_infer].
  intros s.
  pose proof (ign_infer_seeded B label_B s cfg top_k top_p returns_vemb gumbel tau
                               w (ambient w)) as H.
  assert (Hw : with_ambient (ambient w) w = w) by (destruct w; reflexivity).
  rewrite Hw in H.
  destruct (autoregressive_infer_cfg B label_B (Some s) cfg top_k top_p returns_vemb
                                     gumbel tau w) as [w' r].
  cbn [fst snd] in *. injection H as H. rewrite H. reflexivity.
Qed.

End Leaves.

Lemma forward_generator_use_witness :
  ambient (fst (forward Small.labels (Small.teacher 13) (Small.world (-1)))) = 9.
Proof.
  apply (proj2 (forward_generator_use Small.labels (Small.teacher 13) (Small.world (-1)))
               (0, 14) 2 [13; 2]); reflexivity.
Defined.

Section GenerationEdges.
Context {E : Env}.

Lemma infer_raises B label_B g_seed cfg top_k top_p returns_vemb gumbel tau
    (w w' : World) (e : exn) :
  infer_prologue B label_B g_seed w = (w', Raise e) ->
  autoregressive_infer_cfg B label_B g_seed cfg top_k top_p returns_vemb gumbel tau w
  = (w', Raise e).
Proof.
  intros H. unfold autoregressive_infer_cfg, infer_logged.
  apply mbind_raise, mbind_raise. exact H.
Qed.

(** The class embedding rejects a batch of labels one of which is out of
    [0, num_classes]. *)
Lemma class_lookup_raises (m : VAR) (lb : Tensor Z) (B k : nat) :
  wf m -> shape lb = [B] -> k < B ->
  (get lb [k] < 0 \/ Z.of_nat (num_classes m) < get lb [k])%Z ->
  (l2 <- cfg_labels m lb ;; embedding (class_emb m) l2)%res = Raise IndexError.
Proof.
  intros W Hs Hk Hbad.
  destruct (@cfg_labels_full _ m lb B Hs) as (l2 & Hl2 & Hl2s & Hlo & _).
  rewrite Hl2. cbn [rbind]. unfold embedding. rewrite (wf_class_emb W).
  destruct (tforall _ l2) eqn:Ht; [|reflexivity]. exfalso.
  rewrite tforall_spec in Ht. specialize (Ht [k]).
  rewrite Hl2s in Ht. cbn [in_bounds] in Ht.
  rewrite (proj2 (Nat.ltb_lt k (B + B))) in Ht by lia. specialize (Ht eq_refl).
  rewrite Hlo in Ht by exact Hk.
  apply andb_prop in Ht. destruct Ht as [H1 H2].
  apply Z.leb_le in H1. apply Z.ltb_lt in H2. lia.
Qed.

Lemma prologue_rejects_labels B label_B g_seed (lb : Tensor Z) (k : nat) (w : World) :
  wf (self w) -> seed_ok g_seed ->
  (forall sel w0, resolve_labels B label_B sel w0 = (w0, Ok lb)) ->
  shape lb = [B] -> k < B ->
  (get lb [k] < 0 \/ Z.of_nat (num_classes (self w)) < get lb [k])%Z ->
  exists w', infer_prologue B label_B g_seed w = (w', Raise IndexError)
             /\ blocks (self w') = blocks (self w).
Proof.
  intros W Hseed Hres Hs Hk Hbad.
  assert (Hgo : forall sel w0, wf (self w0) -> num_classes (self w0) = num_classes (self w) ->
            forall k0 : Tensor xreal -> M (rng_sel * Tensor xreal * Tensor xreal * LoopState),
            mbind (resolve_labels B label_B sel)
              (fun x => mbind get_self
                 (fun m => mbind (lift (l2 <- cfg_labels m x ;;
                                        embedding (class_emb m) l2)%res) k0)) w0
            = (w0, Raise IndexError)).
  { intros sel w0 W0 Hnc k0. erewrite mbind_run by apply Hres.
    erewrite mbind_run by reflexivity. apply mbind_raise. unfold lift.
    rewrite (@class_lookup_raises (self w0) lb B k W0 Hs Hk) by (rewrite Hnc; exact Hbad).
    reflexivity. }
  unfold infer_prologue. destruct g_seed as [s|]; cbn [resolve_rng seed_ok] in *.
  - rewrite Hseed. eexists. split.
    + erewrite mbind_run by reflexivity.
      apply Hgo; [apply wf_set_rng; exact W | reflexivity].
    + reflexivity.
  - eexists. split.
    + erewrite mbind_run by reflexivity.
      apply Hgo; [exact W | reflexivity].
    + reflexivity.
Qed.

(** An integer label that does not fit a 64-bit integer stops the call at
    [torch.full] (line 169). *)
Lemma prologue_rejects_huge_label B (z : Z) g_seed (w : World) :
  seed_ok g_seed -> (2 ^ 63 <= z)%Z ->
  exists w', infer_prologue B (Some (LabelInt z)) g_seed w = (w', Raise RuntimeError)
             /\ blocks (self w') = blocks (self w).
Proof.
  intros Hseed Hz.
  unfold infer_prologue. destruct g_seed as [s|]; cbn [resolve_rng seed_ok] in *.
  - rewrite Hseed. eexists. split.
    + erewrite mbind_run by reflexivity.
      apply mbind_raise. apply resolve_labels_huge. exact Hz.
    + reflexivity.
  - eexists. split.
    + erewrite mbind_run by reflexivity.
      apply mbind_raise. apply resolve_labels_huge. exact Hz.
    + reflexivity.
Qed.

(** X8.  With a seed the generator accepts (or none), a label outside
    [0, num_classes] stops the generation call before caching is enabled,
    the blocks being as they were: for a positive batch size, an integer
    label above [num_classes] and below [2^63], or a label tensor with an
    entry above [num_classes] or a negative one, raises IndexError at the
    class embedding (line 171), and an integer label of [2^63] or more
    raises RuntimeError already at [torch.full] (line 169). *)
Theorem generation_rejects_label_out_of_range (B : nat) (g_seed : option Z)
    (cfg : xreal) (top_k : Z) (top_p : xreal) (returns_vemb : bool)
    (gumbel tau : xreal) (w : World) :
  wf (self w) -> seed_ok g_seed ->
  (forall z, 0 < B -> (Z.of_nat (num_classes (self w)) < z < 2 ^ 63)%Z ->
     exists w', autoregressive_infer_cfg B (Some (LabelInt z)) g_seed cfg top_k top_p
                                         returns_vemb gumbel tau w
                = (w', Raise IndexError)
                /\ blocks (self w') = blocks (self w))
  /\ (forall z, 0 < B -> (2 ^ 63 <= z)%Z ->
     exists w', autoregressive_infer_cfg B (Some (LabelInt z)) g_seed cfg top_k top_p
                                         returns_vemb gumbel tau w
                = (w', Raise RuntimeError)
                /\ blocks (self w') = blocks (self w))
  /\ (forall t k, shape t = [B] -> k < B ->
        (get t [k] < 0 \/ Z.of_nat (num_classes (self w)) < get t [k])%Z ->
        exists w', autoregressive_infer_cfg B (Some (LabelTensor t)) g_seed cfg top_k top_p
                                            returns_vemb gumbel tau w
                   = (w', Raise IndexError)
                   /\ blocks (self w') = blocks (self w)).
Proof.
  intros W Hseed. split; [|split].
  - intros z HB Hz.
    destruct (@prologue_rejects_labels B (Some (LabelInt z)) g_seed (full [B] z) 0 w W Hseed)
      as (w' & Hp & Hb).
    + intros sel w0. rewrite resolve_labels_int by lia.
      rewrite (proj2 (Z.ltb_ge z 0)) by lia. reflexivity.
    + reflexivity.
    + exact HB.
    + right. apply Hz.
    + exists w'. split; [apply infer_raises; exact Hp | exact Hb].
  - intros z _ Hz.
    destruct (@prologue_rejects_huge_label B z g_seed w Hseed Hz) as (w' & Hp & Hb).
    exists w'. split; [apply infer_raises; exact Hp | exact Hb].
  - intros t k Hs Hk Hbad.
    destruct (@prologue_rejects_labels B (Some (LabelTensor t)) g_seed t k w W Hseed)
      as (w' & Hp & Hb); try assumption.
    + intros sel w0. apply resolve_labels_tensor.
    + exists w'. split; [apply infer_raises; exact Hp | exact Hb].
Qed.

End GenerationEdges.

Lemma generation_rejects_label_out_of_range_witness :
  exists w', autoregressive_infer_cfg 2 (Some (LabelInt 4)) (Some 5%Z) (of_Z 3) 0 xzero
                                      false xzero xone (Small.world (-1))
             = (w', Raise IndexError)
             /\ blocks (self w') = blocks (self (Small.world (-1))).
Proof.
  apply (proj1 (@generation_rejects_label_out_of_range _ 2 (Some 5%Z) (of_Z 3) 0 xzero
                  false xzero xone (Small.world (-1)) (wf_set_prog_si (-1) small_wf)
                  eq_refl)).
  - lia.
  - cbn. lia.
Defined.

Section SingleStage.
Context {E : Env}.

(** X9.  On a model with a single stage every generation call whose labels
    and seed are accepted raises ZeroDivisionError at the first ratio
    [0 / num_stages_minus_1] (line 181), after line 179 has enabled caching:
    the call leaves every block with caching on. *)
Theorem single_stage_generation_raises (B : nat) (label_B : option label_arg)
    (g_seed : option Z) (cfg : xreal) (top_k : Z) (top_p : xreal)
    (returns_vemb : bool) (gumbel tau : xreal) (w : World) :
  wf (self w) -> contract (self w) -> label_ok (self w) B label_B ->
  seed_ok g_seed ->
  length (patch_nums (self w)) = 1 ->
  exists w',
    autoregressive_infer_cfg B label_B g_seed cfg top_k top_p returns_vemb gumbel tau w
    = (w', Raise ZeroDivisionError)
    /\ all_caching (self w').
Proof.
  intros W Hc Hl Hseed Hone.
  destruct (@infer_prologue_run _ B label_B g_seed w W Hc Hl Hseed)
    as (w1 & sel & cond & lvl_pos & st & Hpro & _).
  pose proof (infer_prologue_caching _ _ _ _ Hpro) as Hcach.
  pose proof (keeps_infer_prologue B label_B g_seed w) as Hk.
  rewrite Hpro in Hk. cbn [fst] in Hk.
  destruct (frame_all Hk) as (Hp1 & Hn1 & _).
  exists w1. split; [|exact Hcach].
  unfold autoregressive_infer_cfg, infer_logged.
  apply mbind_raise.
  erewrite mbind_run by exact Hpro. cbv beta iota.
  erewrite mbind_run by reflexivity.
  apply mbind_raise.
  destruct (patch_nums (self w1)) as [|pn rest] eqn:Hpns.
  { rewrite <- Hp1 in Hone. discriminate. }
  cbn [infer_loop]. apply mbind_raise.
  unfold infer_stage. apply mbind_raise.
  unfold stage_logits. erewrite mbind_run by reflexivity.
  apply mbind_raise. unfold lift.
  rewrite Hn1, (wf_stages W), Hone. reflexivity.
Qed.

End SingleStage.

Lemma one_stage_built :
  VAR_init Small.vae (Small.config [2] 2) Small.init = Ok Small.one_stage.
Proof.
  destruct (@VAR_init_ok _ Small.vae (Small.config [2] 2) Small.init) as [m Hm].
  - unfold constructible. cbn. repeat split; discriminate.
  - unfold Small.one_stage. rewrite Hm. reflexivity.
Qed.

Lemma one_stage_wf : wf Small.one_stage.
Proof. exact (VAR_init_wf _ _ _ one_stage_built). Qed.

Lemma one_stage_contract : contract Small.one_stage.
Proof.
  pose proof (VAR_init_inv _ _ _ one_stage_built)
    as (_ & Hp & _ & _ & _ & _ & _ & _ & HCv & HV & Hnc & Hsel & _).
  cbn [Small.vae Small.config vae_Cvae vae_vocab_size arg_patch_nums arg_num_classes]
    in Hp, HCv, HV, Hnc, Hsel.
  constructor.
  - intros i s x c b. eexists _, x. split; reflexivity.
  - intros h c a l Hh. cbn [head head_nm Small.env shape]. rewrite Hh, HV. reflexivity.
  - intros lg k p g b l Hl. cbn [sample_with_top_k_top_p_ Small.env fst snd shape get].
    rewrite Hl, HV. cbn [nth]. split; [reflexivity|]. split; [reflexivity|].
    intros i j _ _. split; [lia|]. apply Nat2Z.inj_lt.
    apply Nat.mod_upper_bound. discriminate.
  - intros lg tau g. reflexivity.
  - cbn [vq_embedding_weight Small.env shape]. rewrite HV, HCv. reflexivity.
  - intros si f h b pn1 Hn. rewrite Hp in Hn. destruct si; discriminate.
  - intros n g. cbn [torch_multinomial Small.env fst shape get]. split; [reflexivity|].
    intros j _. rewrite Hsel. cbn [nth]. rewrite Hnc. split; [lia|].
    apply Nat2Z.inj_lt. apply Nat.mod_upper_bound. discriminate.
Qed.

Lemma one_stage_fields :
  patch_nums Small.one_stage = [2] /\ num_classes Small.one_stage = 3.
Proof.
  pose proof (VAR_init_inv _ _ _ one_stage_built)
    as (_ & Hp & _ & _ & _ & _ & _ & _ & _ & _ & Hnc & _).
  split; assumption.
Qed.

Lemma single_stage_generation_raises_witness :
  exists w',
    autoregressive_infer_cfg 1 (Some (LabelInt 1)) (Some 5%Z) (of_Z 3) 0 xzero
                             false xzero xone {| self := Small.one_stage; ambient := 7 |}
    = (w', Raise ZeroDivisionError)
    /\ all_caching (self w').
Proof.
  apply (@single_stage_generation_raises _ 1 (Some (LabelInt 1)) (Some 5%Z) (of_Z 3) 0
           xzero false xzero xone {| self := Small.one_stage; ambient := 7 |}).
  - exact one_stage_wf.
  - exact one_stage_contract.
  - cbn [label_ok self]. rewrite (proj2 one_stage_fields). lia.
  - reflexivity.
  - cbn [self]. rewrite (proj1 one_stage_fields). reflexivity.
Defined.

Section Entries.
Context {E : Env}.

Lemma unsqueeze_get {A} (k : nat) (t r : Tensor A) :
  unsqueeze k t = Ok r -> forall idx, get r idx = get t (remove_at k idx).
Proof.
  unfold unsqueeze. destruct (k <=? length (shape t)); [|discriminate].
  intros H; injection H as <-. reflexivity.
Qed.

Lemma expand_get {A} (sizes : list (option nat)) (t r : Tensor A) :
  expand sizes t = Ok r -> forall idx, get r idx = get t (bpick (shape t) idx).
Proof.
  unfold expand. destruct (expand_shape (shape t) sizes); [|discriminate].
  intros H; injection H as <-. reflexivity.
Qed.

Lemma pick_lt (n i : nat) : i < n -> (if n =? 1 then 0 else i) = i.
Proof. intros H. destruct (Nat.eqb_spec n 1); lia. Qed.

Lemma frame_tables (m m' : VAR) :
  frame m m' ->
  class_emb m' = class_emb m /\ lvl_embed m' = lvl_embed m
  /\ pos_1LC m' = pos_1LC m /\ pos_start m' = pos_start m.
Proof.
  intros [H _].
  pose proof (f_equal class_emb H) as H1. pose proof (f_equal lvl_embed H) as H2.
  pose proof (f_equal pos_1LC H) as H3. pose proof (f_equal pos_start H) as H4.
  cbn in H1, H2, H3, H4. auto.
Qed.

(** X10.  For a tensor of [B] labels in [0, num_classes] and a seed the
    generator accepts (or none), the part of the generation call before the
    stage loop returns: rows [0, B) of [cond_BD]
    are the class embeddings of the labels and rows [B, 2B) the embedding of
    the unconditional class [num_classes]; [lvl_pos] is the level embedding
    of every position plus its position embedding; and the first token map
    is, at sample [b], position [i], [cond_BD[b] + pos_start[0, i] +
    lvl_pos[0, i]]. *)
Theorem guidance_batch_and_first_token_map (B : nat) (t : Tensor Z)
    (g_seed : option Z) (w : World) :
  wf (self w) ->
  seed_ok g_seed ->
  shape t = [B] ->
  (forall k, k < B -> (0 <= get t [k] <= Z.of_nat (num_classes (self w)))%Z) ->
  let m := self w in
  exists w1 sel cond lvl_pos st,
    infer_prologue B (Some (LabelTensor t)) g_seed w = (w1, Ok (sel, cond, lvl_pos, st))
    /\ shape cond = [2 * B; C m]
    /\ (forall b c, b < B ->
          get cond [b; c] = get (class_emb m) [Z.to_nat (get t [b]); c])
    /\ (forall b c, B <= b -> get cond [b; c] = get (class_emb m) [num_classes m; c])
    /\ (forall p c, p < L m -> c < C m ->
          get lvl_pos [0; p; c]
          = xadd (get (lvl_embed m) [Z.to_nat (get (lvl_1L m) [0; p]); c])
                 (get (pos_1LC m) [0; p; c]))
    /\ shape (cur_token_map st) = [2 * B; first_l m; C m]
    /\ (forall b i c, b < 2 * B -> i < first_l m -> c < C m ->
          get (cur_token_map st) [b; i; c]
          = xadd (xadd (get cond [b; c]) (get (pos_start m) [0; i; c]))
                 (get lvl_pos [0; i; c])).
Proof.
  intros W Hseed Hts Htr m.
  destruct (@resolve_rng_run _ g_seed w Hseed) as (w0 & sel & Hrng & Hf0).
  pose proof (wf_frame Hf0 W) as W0.
  destruct (frame_tables Hf0) as (Hce & Hlem & Hpos & Hps).
  destruct (frame_all Hf0) as (_ & _ & _ & _ & HC & HL & _).
  destruct (frame_sizes Hf0) as [_ Hfl].
  pose proof (frame_num_classes Hf0) as Hnc.
  destruct (frame_fields Hf0) as (_ & Hlvl & _).
  subst m. rewrite <- Hce, <- Hlem, <- Hpos, <- Hps, <- HC, <- HL, <- Hfl, <- Hnc, <- Hlvl.
  rewrite <- Hnc in Htr. clear Hce Hlem Hpos Hps HC HL Hfl Hnc Hlvl Hf0 W.
  set (m := self w0) in *.
  destruct (@cfg_labels_full _ m t B Hts) as (l2 & Hl2 & Hl2s & Hlo & Hhi).
  destruct (@embedding_ok (class_emb m) l2 _ _ (wf_class_emb W0))
    as (cond & Hcond & Hconds & Hcondv).
  { intros idx Hi. rewrite Hl2s in Hi. destruct (in_bounds1 _ _ Hi) as (k & -> & Hk).
    destruct (Nat.lt_ge_cases k B) as [Hkb|Hkb].
    - rewrite Hlo by exact Hkb. specialize (Htr k Hkb). lia.
    - rewrite Hhi by exact Hkb. lia. }
  rewrite Hl2s in Hconds. cbn [app] in Hconds.
  replace (B + B) with (2 * B) in Hconds by lia.
  destruct (@embedding_ok (lvl_embed m) (lvl_1L m) _ _ (wf_lvl_embed W0))
    as (le & Hle & Hles & Hlev).
  { intros idx Hi. rewrite (wf_lvl_shape W0) in Hi.
    destruct (in_bounds2 _ _ _ Hi) as (i & j & -> & Hi1 & Hj).
    replace i with 0 by lia. apply (wf_lvl_range W0), Hj. }
  rewrite (wf_lvl_shape W0) in Hles. cbn [app] in Hles.
  pose proof (@bop_same _ _ _ xadd le (pos_1LC m)
                        ltac:(rewrite Hles; apply (wf_pos_1LC W0))) as Hlp.
  set (lvl_pos := mkT (shape le) _) in Hlp.
  destruct (unsqueeze1_ok cond Hconds) as (s1 & Hs1 & Hs1s).
  destruct (@expand_Bf_ok _ s1 (2 * B) 1 (C m) (2 * B) (first_l m) Hs1s (or_introl eq_refl)
                          (or_intror eq_refl)) as (s2 & Hs2 & Hs2s).
  destruct (@expand_Bf_ok _ (pos_start m) 1 (first_l m) (C m) (2 * B) (first_l m)
                          (wf_pos_start W0) (or_intror eq_refl) (or_introl eq_refl))
    as (p2 & Hp2 & Hp2s).
  pose proof (@bop_same _ _ _ xadd s2 p2 ltac:(congruence)) as Ha.
  set (a := mkT (shape s2) _) in Ha.
  destruct (@slice_axis_ok _ 1 0 (first_l m) lvl_pos) as (lp & Hlps & Hlpss & Hlpv).
  { cbn [lvl_pos shape]. rewrite Hles. cbn. lia. }
  cbn [shape lvl_pos] in Hlpss, Hlpv. rewrite Hles in Hlpss, Hlpv.
  cbn [nth upd] in Hlpss. cbn [nth] in Hlpv. rewrite Nat.min_0_l in Hlpv.
  rewrite Nat.min_l, Nat.min_0_l, Nat.sub_0_r in Hlpss by apply (first_l_le_L W0).
  pose proof (@bop_into _ _ _ xadd a lp) as Hctm.
  rewrite Hlpss in Hctm. cbn [shape a] in Hctm. rewrite Hs2s in Hctm.
  specialize (Hctm ltac:(bshape)).
  set (ctm := mkT _ _) in Hctm.
  assert (Hpn : exists pn_last,
             match patch_nums m with
             | [] => Raise IndexError
             | _ :: _ => Ok (last (patch_nums m) 0)
             end = Ok pn_last).
  { pose proof (wf_patch_nums W0). destruct (patch_nums m); [contradiction|eauto]. }
  destruct Hpn as (pn_last & Hpn).
  eexists _, sel, cond, lvl_pos, _. split.
  { unfold infer_prologue.
    erewrite mbind_run by exact Hrng.
    erewrite mbind_run by apply resolve_labels_tensor.
    erewrite mbind_run by reflexivity. fold m.
    erewrite mbind_run by (apply lift_run; rewrite Hl2; cbn [rbind]; exact Hcond).
    erewrite mbind_run by (apply lift_run; rewrite Hle; cbn [rbind]; exact Hlp).
    erewrite mbind_run
      by (apply lift_run; rewrite Hs1; cbn [rbind]; rewrite Hs2; cbn [rbind];
          rewrite Hp2; cbn [rbind]; rewrite Ha; cbn [rbind]; rewrite Hlps; cbn [rbind];
          exact Hctm).
    erewrite mbind_run by (apply lift_run; exact Hpn).
    erewrite mbind_run by reflexivity.
    reflexivity. }
  assert (Hlpos : forall p c, p < L m -> c < C m ->
            get lvl_pos [0; p; c]
            = xadd (get (lvl_embed m) [Z.to_nat (get (lvl_1L m) [0; p]); c])
                   (get (pos_1LC m) [0; p; c])).
  { intros p c Hp Hc. cbn [lvl_pos get]. rewrite Hles, (wf_pos_1LC W0).
    rewrite bcast_idx_in_bounds
      by (cbn [in_bounds]; rewrite (proj2 (Nat.ltb_lt _ _) Hp), (proj2 (Nat.ltb_lt _ _) Hc);
          reflexivity).
    rewrite Hlev. reflexivity. }
  split; [exact Hconds|]. split.
  { intros b c Hb. rewrite Hcondv. cbn [removelast last]. rewrite Hlo by exact Hb.
    reflexivity. }
  split.
  { intros b c Hb. rewrite Hcondv. cbn [removelast last]. rewrite Hhi by exact Hb.
    rewrite Nat2Z.id. reflexivity. }
  split; [exact Hlpos|]. split; [reflexivity|].
  intros b i c Hb Hi Hc. cbn [cur_token_map ctm get].
  assert (Hin : in_bounds [2 * B; first_l m; C m] [b; i; c] = true).
  { cbn [in_bounds]. rewrite (proj2 (Nat.ltb_lt _ _) Hb), (proj2 (Nat.ltb_lt _ _) Hi),
      (proj2 (Nat.ltb_lt _ _) Hc). reflexivity. }
  rewrite (bcast_idx_in_bounds _ _ Hin).
  unfold bcast_idx at 1. cbn [length Nat.sub skipn bpick Nat.eqb].
  rewrite !pick_lt by assumption.
  cbn [a get]. rewrite Hs2s, Hp2s, !(bcast_idx_in_bounds _ _ Hin).
  rewrite (expand_get _ _ Hs2), (expand_get _ _ Hp2), Hs1s, (wf_pos_start W0).
  cbn [bpick Nat.eqb]. rewrite !pick_lt by assumption.
  rewrite (unsqueeze_get _ _ Hs1). cbn [remove_at firstn skipn app].
  rewrite Hlpv. cbn [nth upd]. rewrite Nat.add_0_r. reflexivity.
Qed.

End Entries.

Lemma guidance_batch_and_first_token_map_witness :
  exists w1 sel cond lvl_pos st,
    infer_prologue 2 (Some (LabelTensor Small.labels)) (Some 5%Z) (Small.world (-1))
    = (w1, Ok (sel, cond, lvl_pos, st))
    /\ shape cond = [4; 4]
    /\ get cond [3; 0] = get (class_emb Small.model) [3; 0].
Proof.
  destruct (@guidance_batch_and_first_token_map _ 2 Small.labels (Some 5%Z)
              (Small.world (-1)) (wf_set_prog_si (-1) small_wf) eq_refl eq_refl
              ltac:(intros k _; cbn; lia))
    as (w1 & sel & cond & lvl_pos & st & H & Hs & _ & Hhi & _).
  exists w1, sel, cond, lvl_pos, st. split; [exact H|]. split; [exact Hs|].
  apply Hhi. lia.
Defined.

Section Outputs.
Context {E : Env}.

Lemma out_ok_frame (m m' : VAR) (B : nat) (rv : bool) (pn : nat) (o : stage_out) :
  frame m m' -> out_ok m' B rv pn o -> out_ok m B rv pn o.
Proof.
  intros Hf. destruct (frame_all Hf) as (_ & _ & HCv & HV & _).
  unfold out_ok. rewrite HCv, HV. auto.
Qed.

(** What a returning [stage_sample] hands back. *)
Lemma stage_sample_out (B : nat) (sel : rng_sel) (top_k : Z) (top_p gumbel ratio : xreal)
    (pn : nat) (lg : Tensor xreal) (w w' : World) idx_Bl h_BChw :
  contract (self w) ->
  shape lg = [B; pn * pn; V (self w)] ->
  stage_sample B sel top_k top_p gumbel ratio pn lg w = (w', Ok (idx_Bl, h_BChw)) ->
  shape idx_Bl = [B; pn * pn]
  /\ (forall b i, b < B -> i < pn * pn ->
        (0 <= get idx_Bl [b; i] < Z.of_nat (V (self w)))%Z)
  /\ shape h_BChw = [B; Cvae (self w); pn; pn].
Proof.
  intros Hc Hlg H.
  destruct (@stage_sample_run _ B sel top_k top_p gumbel ratio pn lg w Hc Hlg)
    as (w2 & idx' & h' & Hrun & _ & Hh).
  rewrite Hrun in H. injection H as _ <- <-.
  split; [|split; [|exact Hh]]; unfold stage_sample in Hrun;
    apply mbind_ok_inv in Hrun; destruct Hrun as (w1 & [idx3 lg'] & Hs & Hrun);
    apply with_rng_inv in Hs; destruct Hs as [g Hs];
    pose proof (c_sample Hc lg top_k top_p g Hlg) as (Hi3 & _ & Hr3);
    rewrite <- Hs in Hi3, Hr3; cbn [fst] in Hi3, Hr3;
    apply mbind_ok_inv in Hrun; destruct Hrun as (w3 & idx & Hsel & Hrun);
    apply lift_ok_inv in Hsel; destruct Hsel as [_ Hsel];
    unfold select_axis in Hsel; rewrite Hi3 in Hsel; cbn in Hsel;
    injection Hsel as <-;
    m_inv Hrun; unfold mret in Hrun; injection Hrun as _ <- _.
  - reflexivity.
  - intros b i Hb Hi. cbn [get insert_at firstn skipn app].
    apply Hr3; assumption.
Qed.

(** What a returning stage appends to the list. *)
Lemma infer_stage_out B sel cfg top_k top_p returns_vemb gumbel tau inv_tau
    cond lvl_pos si pn st (w w' : World) st' e :
  wf (self w) -> contract (self w) ->
  (shared_ada_lin (self w) = None \/ 0 < C (self w)) ->
  py_truediv xone tau = Ok inv_tau ->
  num_stages_minus_1 (self w) <> 0 ->
  shape cond = [2 * B; C (self w)] ->
  shape (cur_token_map st) = [2 * B; pn * pn; C (self w)] ->
  infer_stage B sel cfg top_k top_p returns_vemb gumbel tau cond lvl_pos si pn st w
  = (w', Ok (st', e)) ->
  exists o, ret st' = ret st ++ [o] /\ out_ok (self w) B returns_vemb pn o.
Proof.
  intros W Hc Hada Htau Hn Hcond Hctm H.
  destruct (@stage_logits_run _ B cfg tau inv_tau cond (cur_token_map st) si (pn * pn) w
              W Hc Hada Htau Hn Hcond Hctm)
    as (w1 & ratio & raw & lg & Hlog & Hf1 & _ & Hlg).
  destruct (frame_all Hf1) as (_ & _ & HCv1 & HV1 & _).
  pose proof (contract_frame Hf1 Hc) as Hc1.
  unfold infer_stage in H.
  erewrite mbind_run in H by exact Hlog. cbv beta iota in H.
  apply mbind_ok_inv in H. destruct H as (w2 & [idx_Bl h_BChw] & Hsam & H).
  apply (@stage_sample_out B sel top_k top_p gumbel ratio pn lg w1 w2 idx_Bl h_BChw Hc1
            ltac:(rewrite HV1; exact Hlg)) in Hsam.
  destruct Hsam as (Hi & Hir & Hh). rewrite HV1 in Hir. rewrite HCv1 in Hh.
  assert (Ho : out_ok (self w) B returns_vemb pn
                      (if returns_vemb then OutEmb h_BChw else OutIdx idx_Bl)).
  { destruct returns_vemb; cbn [out_ok]; auto. }
  apply mbind_ok_inv in H. destruct H as (w3 & m & _ & H).
  destruct (si =? num_stages_minus_1 m).
  - unfold mret in H. injection H as _ <- _. eexists. split; [reflexivity|exact Ho].
  - apply mbind_ok_inv in H. destruct H as (w4 & [f' ctm] & _ & H).
    unfold mret in H. injection H as _ <- _. eexists. split; [reflexivity|exact Ho].
Qed.

(** What a returning stage loop appends: one output per remaining stage. *)
Lemma infer_loop_out B sel cfg top_k top_p returns_vemb gumbel tau inv_tau
    cond lvl_pos rest :
  forall si st log (w w' : World) st' log',
    wf (self w) -> contract (self w) -> 0 < B -> 0 < Cvae (self w) ->
    (shared_ada_lin (self w) = None \/ 0 < C (self w)) ->
    py_truediv xone tau = Ok inv_tau ->
    num_stages_minus_1 (self w) <> 0 ->
    shape cond = [2 * B; C (self w)] ->
    shape lvl_pos = [1; L (self w); C (self w)] ->
    (forall j, nth_error rest j = nth_error (patch_nums (self w)) (si + j)) ->
    (forall pn, nth_error (patch_nums (self w)) si = Some pn ->
       shape (cur_token_map st) = [2 * B; pn * pn; C (self w)]) ->
    cur_L st = sum_sq (firstn si (patch_nums (self w))) ->
    infer_loop B sel cfg top_k top_p returns_vemb gumbel tau cond lvl_pos
               si rest st log w = (w', Ok (st', log')) ->
    exists outs, ret st' = ret st ++ outs
                 /\ Forall2 (out_ok (self w) B returns_vemb) rest outs.
Proof.
  induction rest as [|pn rest IH];
    intros si st log w w' st' log' W Hc HB HCv Hada Htau Hn Hcond Hlp Hrest Hctm HcL H;
    cbn [infer_loop] in H.
  - unfold mret in H. injection H as _ <- _. exists []. rewrite app_nil_r.
    split; [reflexivity|constructor].
  - assert (Hsi : nth_error (patch_nums (self w)) si = Some pn).
    { rewrite <- (Nat.add_0_r si), <- Hrest. reflexivity. }
    destruct (@infer_stage_run _ B sel cfg top_k top_p returns_vemb gumbel tau inv_tau
                cond lvl_pos si pn st w W Hc HB HCv Hada Htau Hn Hcond Hlp Hsi
                (Hctm _ Hsi) HcL)
      as (w1 & st1 & e & Hst & Hf1 & _ & HcL1 & Hctm1).
    destruct (@infer_stage_out B sel cfg top_k top_p returns_vemb gumbel tau inv_tau
                cond lvl_pos si pn st w w1 st1 e W Hc Hada Htau Hn Hcond (Hctm _ Hsi) Hst)
      as (o & Hret1 & Ho).
    destruct (frame_all Hf1) as (Hp1 & Hn1 & HCv1 & HV1 & HC1 & HL1 & Hada1).
    erewrite mbind_run in H by exact Hst. cbv beta iota in H.
    destruct (IH (S si) st1 (log ++ [e]) w1 w' st' log') as (outs & Hret & Houts);
      try exact H; try exact HB; try exact Htau.
    + exact (wf_frame Hf1 W).
    + exact (contract_frame Hf1 Hc).
    + rewrite HCv1. exact HCv.
    + rewrite Hada1, HC1. exact Hada.
    + rewrite Hn1. exact Hn.
    + rewrite HC1. exact Hcond.
    + rewrite HL1, HC1. exact Hlp.
    + intros j. rewrite Hp1. specialize (Hrest (S j)). cbn [nth_error] in Hrest.
      rewrite Hrest. f_equal. lia.
    + intros pn1 Hpn1. rewrite Hp1 in Hpn1. rewrite HC1. exact (Hctm1 _ Hpn1).
    + rewrite Hp1. exact HcL1.
    + exists (o :: outs). split.
      * rewrite Hret, Hret1, <- app_assoc. reflexivity.
      * constructor; [exact Ho|].
        eapply Forall2_impl; [|exact Houts].
        intros a b Hab. exact (@out_ok_frame _ _ B returns_vemb a b Hf1 Hab).
Qed.

(** X11.  With at least two stages, a positive batch, a seed the generator
    accepts (or none) and well-behaved blocks, head, sampler and quantiser,
    the generation call returns one entry per
    stage, in the order of the stages: for the stage of side [pn], token
    indices of shape (B, pn * pn) within the vocabulary, or, when
    [returns_vemb] is set, their embeddings of shape (B, Cvae, pn, pn). *)
Theorem generation_output_shapes (B : nat) (label_B : option label_arg)
    (g_seed : option Z) (cfg : xreal) (top_k : Z) (top_p : xreal)
    (returns_vemb : bool) (gumbel tau inv_tau : xreal) (w : World) :
  wf (self w) -> contract (self w) -> label_ok (self w) B label_B ->
  seed_ok g_seed ->
  0 < B -> 0 < Cvae (self w) ->
  (shared_ada_lin (self w) = None \/ 0 < C (self w)) ->
  py_truediv xone tau = Ok inv_tau ->
  2 <= length (patch_nums (self w)) ->
  exists w' out,
    autoregressive_infer_cfg B label_B g_seed cfg top_k top_p returns_vemb gumbel tau w
    = (w', Ok out)
    /\ Forall2 (out_ok (self w) B returns_vemb) (patch_nums (self w)) out.
Proof.
  intros W Hc Hl Hseed HB HCv Hada Htau Hlen.
  destruct (@infer_logged_run _ B label_B g_seed cfg top_k top_p returns_vemb gumbel
              tau inv_tau w W Hc Hl Hseed HB HCv Hada Htau Hlen)
    as (w' & out & log & H & _).
  exists w', out. split; [exact (infer_logged_returns _ _ _ _ _ _ _ _ _ _ H)|].
  destruct (@infer_prologue_run _ B label_B g_seed w W Hc Hl Hseed)
    as (w1 & sel & cond & lvl_pos & st & Hpro & Hcond & Hlp & Hctm & HcL & Hret).
  pose proof (keeps_infer_prologue B label_B g_seed w) as Hk.
  rewrite Hpro in Hk. cbn [fst] in Hk.
  destruct (frame_all Hk) as (Hp1 & Hn1 & HCv1 & HV1 & HC1 & HL1 & Hada1).
  unfold infer_logged in H.
  erewrite mbind_run in H by exact Hpro. cbv beta iota in H.
  erewrite mbind_run in H by reflexivity.
  apply mbind_ok_inv in H. destruct H as (w2 & [st' log'] & Hloop & H).
  apply mbind_ok_inv in H. destruct H as (w3 & u & _ & H).
  unfold mret in H. injection H as _ <- _.
  destruct (@infer_loop_out B sel cfg top_k top_p returns_vemb gumbel tau inv_tau
              cond lvl_pos (patch_nums (self w1)) 0 st [] w1 w2 st' log')
    as (outs & Hr & Houts); try exact Hloop; try exact HB; try exact Htau.
  - exact (wf_frame Hk W).
  - exact (contract_frame Hk Hc).
  - rewrite HCv1. exact HCv.
  - rewrite Hada1, HC1. exact Hada.
  - rewrite Hn1, (wf_stages W). lia.
  - rewrite HC1. exact Hcond.
  - rewrite HL1, HC1. exact Hlp.
  - intros j. reflexivity.
  - intros pn Hpn. rewrite Hp1 in Hpn. rewrite HC1, Hctm, (wf_first_l W).
    destruct (patch_nums (self w)) as [|p ps]; [discriminate|].
    injection Hpn as <-. cbn [hd]. rewrite Nat.pow_2_r. reflexivity.
  - rewrite HcL. reflexivity.
  - rewrite Hr, Hret. cbn [app]. rewrite <- Hp1.
    eapply Forall2_impl; [|exact Houts].
    intros a b Hab. exact (@out_ok_frame _ _ B returns_vemb a b Hk Hab).
Qed.

End Outputs.

Lemma generation_output_shapes_witness :
  exists w' out,
    autoregressive_infer_cfg 2 (Some (LabelInt 1)) (Some 5%Z) (of_Z 3) 0 xzero
                             false xzero xone (Small.world (-1)) = (w', Ok out)
    /\ Forall2 (out_ok (self (Small.world (-1))) 2 false) [1; 2; 3] out.
Proof.
  exact (@generation_output_shapes _ 2 (Some (LabelInt 1)) (Some 5%Z) (of_Z 3) 0 xzero
           false xzero xone xone (Small.world (-1))
           (wf_set_prog_si (-1) small_wf) (small_model_contract (-1))
           ltac:(cbn; lia) eq_refl ltac:(lia) ltac:(cbn; lia) (or_introl eq_refl)
           py_truediv_one ltac:(cbn; lia)).
Defined.

Section NoGuidance.
Context {E : Env}.

Lemma xsub_zero_r (x : xreal) : xsub x xzero = x.
Proof.
  destruct x as [q| | |]; try reflexivity.
  unfold xsub, xneg, xadd, xzero. f_equal. ring.
Qed.

Lemma xmul_zero_l (x : xreal) : xfinite x = true -> xmul xzero x = xzero.
Proof.
  destruct x as [q| | |]; try discriminate. intros _.
  unfold xmul, xzero. f_equal. ring.
Qed.

Lemma xadd_one_zero : xadd xone xzero = xone.
Proof. unfold xadd, xone, xzero. f_equal. Qed.

(** [(1 + t) * c - t * u] is [c] when [t = 0] and [u] is finite. *)
Lemma merge_zero (c u : xreal) :
  xfinite u = true ->
  xsub (xmul (xadd xone xzero) c) (xmul xzero u) = c.
Proof.
  intros Hu. rewrite xadd_one_zero, xmul_one_l, xmul_zero_l by exact Hu.
  apply xsub_zero_r.
Qed.

(** X12.  Guidance scale 0 switches guidance off.  With [cfg = 0], a seed
    the generator accepts (or none), at least two stages and well-behaved
    blocks, the call returns; at every stage [t] is 0, the logits the sampler
    of that stage receives - the ones the stage's output is sampled from -
    have [B] rows, and each of their entries is the entry of the conditional
    half of the stage's logits wherever the unconditional entry is finite. *)
Theorem guidance_without_effect (B : nat) (label_B : option label_arg)
    (g_seed : option Z) (top_k : Z) (top_p : xreal)
    (returns_vemb : bool) (gumbel tau inv_tau : xreal) (w : World) :
  wf (self w) -> contract (self w) -> label_ok (self w) B label_B ->
  seed_ok g_seed ->
  0 < B -> 0 < Cvae (self w) ->
  (shared_ada_lin (self w) = None \/ 0 < C (self w)) ->
  py_truediv xone tau = Ok inv_tau ->
  2 <= length (patch_nums (self w)) ->
  exists w' out log w1 sel cond lvl_pos st0,
    infer_logged B label_B g_seed xzero top_k top_p returns_vemb gumbel tau w
    = (w', Ok (out, log))
    /\ autoregressive_infer_cfg B label_B g_seed xzero top_k top_p returns_vemb gumbel tau w
       = (w', Ok out)
    /\ infer_prologue B label_B g_seed w = (w1, Ok (sel, cond, lvl_pos, st0))
    /\ length log = length (patch_nums (self w))
    /\ forall si e, nth_error log si = Some e ->
         log_t e = xzero
         /\ exists pn o ctm ratio w_a w_b,
              nth_error (patch_nums (self w)) si = Some pn
              /\ nth_error out si = Some o
              /\ stage_ran B sel top_k top_p gumbel tau returns_vemb cond pn ratio ctm
                           (log_raw e) (log_sampled e) o w_a w_b
              /\ shape (log_sampled e) = [B; pn * pn; V (self w)]
              /\ forall b i k, b < B -> i < pn * pn -> k < V (self w) ->
                   xfinite (get (log_raw e) [B + b; i; k]) = true ->
                   get (log_sampled e) [b; i; k] = get (log_raw e) [b; i; k].
Proof.
  intros W Hc Hl Hseed HB HCv Hada Htau Hlen.
  destruct (@infer_logged_run _ B label_B g_seed xzero top_k top_p returns_vemb gumbel
              tau inv_tau w W Hc Hl Hseed HB HCv Hada Htau Hlen)
    as (w' & out & log & H & Hsh).
  destruct (infer_logged_trace _ _ _ _ _ _ _ _ _ _ H)
    as (w1 & sel & cond & lvl_pos & st0 & Hp & _ & _ & Htr).
  exists w', out, log, w1, sel, cond, lvl_pos, st0.
  split; [exact H|]. split; [exact (infer_logged_returns _ _ _ _ _ _ _ _ _ _ H)|].
  split; [exact Hp|].
  pose proof (infer_logged_inv _ _ _ _ _ _ _ _ _ _ H) as (_ & _ & Hll & Hent).
  split; [exact Hll|].
  intros si e He.
  destruct (Hent _ _ He) as [Hsi Hf].
  apply entry_formula_ratio in Hf. destruct Hf as (_ & Ht & Hm).
  assert (Ht0 : log_t e = xzero).
  { rewrite Ht. apply xmul_zero_l. reflexivity. }
  split; [exact Ht0|].
  destruct (Htr _ _ He)
    as (pn & o & ctm & ratio & w_a & w_b & Hpn & Ho & _ & _ & _ & Hran & _).
  exists pn, o, ctm, ratio, w_a, w_b.
  split; [exact Hpn|]. split; [exact Ho|]. split; [exact Hran|].
  rewrite Forall_forall in Hsh.
  destruct (Hsh e (nth_error_In _ _ He)) as (pn' & Hpn' & Hraw & Hlg).
  rewrite Hsi, Hpn in Hpn'. injection Hpn' as <-.
  split; [exact Hlg|].
  intros b i k Hb Hi Hk Hu.
  destruct (@cfg_merge_spec B (log_t e) (log_raw e) _ _ Hraw) as (lg & Hlg' & _ & Hv).
  rewrite Hm in Hlg'. injection Hlg' as <-.
  rewrite (Hv b i k Hb Hi Hk), Ht0. apply merge_zero, Hu.
Qed.

End NoGuidance.

Lemma guidance_without_effect_witness :
  exists w' out log,
    infer_logged 2 (Some (LabelInt 1)) (Some 5%Z) xzero 0 xzero false xzero xone
                 (Small.world (-1)) = (w', Ok (out, log))
    /\ length log = 3
    /\ forall e, nth_error log 1 = Some e -> log_t e = xzero.
Proof.
  destruct (@guidance_without_effect _ 2 (Some (LabelInt 1)) (Some 5%Z) 0 xzero
              false xzero xone xone (Small.world (-1))
              (wf_set_prog_si (-1) small_wf) (small_model_contract (-1))
              ltac:(cbn; lia) eq_refl ltac:(lia) ltac:(cbn; lia) (or_introl eq_refl)
              py_truediv_one ltac:(cbn; lia))
    as (w' & out & log & w1 & sel & cond & lvl_pos & st0 & H & _ & _ & Hlen & Hall).
  exists w', out, log. split; [exact H|]. split; [exact Hlen|].
  intros e He. exact (proj1 (Hall 1 e He)).
Defined.

Section AdaLin.
Context {E : Env}.

Lemma chunk_index (n j k c : nat) :
  j < 6 -> k < c ->
  (n * (6 * c) + (j * c + k)) / (6 * c) = n
  /\ (n * (6 * c) + (j * c + k)) mod (6 * c) = j * c + k.
Proof.
  intros Hj Hk. assert (Hlt : j * c + k < 6 * c) by nia.
  split.
  - rewrite Nat.div_add_l by lia. rewrite Nat.div_small by exact Hlt. lia.
  - rewrite Nat.add_comm, Nat.Div0.mod_add. apply Nat.mod_small, Hlt.
Qed.

(** X13.  Without shared AdaLN the condition passes through unchanged
    ([nn.Identity]).  With it, [SharedAdaLin.forward] after SiLU maps a
    (B, C) condition to a (B, 1, 6, C) tensor whose entry [n, 0, j, k] is
    entry [n, j * C + k] of the linear layer's output: six chunks of [C]
    per sample; it raises RuntimeError when [C = 0]. *)
Theorem shared_ada_lin_layout (m : VAR) (cond : Tensor xreal) (B : nat) :
  wf m -> shape cond = [B; C m] ->
  (shared_ada_lin m = None -> shared_ada_lin_forward m cond = Ok cond)
  /\ (forall wt bs, shared_ada_lin m = Some (wt, bs) -> 0 < C m ->
        exists y r,
          linear wt bs (tmap silu cond) = Ok y
          /\ shape y = [B; 6 * C m]
          /\ shared_ada_lin_forward m cond = Ok r
          /\ shape r = [B; 1; 6; C m]
          /\ forall n j k, n < B -> j < 6 -> k < C m ->
               get r [n; 0; j; k] = get y [n; j * C m + k])
  /\ (forall wt bs, shared_ada_lin m = Some (wt, bs) -> C m = 0 ->
        shared_ada_lin_forward m cond = Raise RuntimeError).
Proof.
  intros W Hc. pose proof (wf_ada W) as Ha. unfold shared_ada_lin_forward.
  split; [intros ->; reflexivity|]. split.
  - intros wt bs Hs HC. rewrite Hs in Ha |- *. destruct Ha as [Hw Hb].
    destruct (@linear2_ok wt bs (tmap silu cond) (6 * C m) (C m) B Hw Hc) as (y & Hy & Hys).
    exists y. rewrite Hy. cbn [rbind]. rewrite Hw. cbn [nth].
    unfold reshape_infer. cbn [filter length fold_right map].
    rewrite Hys. cbn [numel fold_right].
    assert (H6 : 6 * C m / 6 = C m) by (rewrite Nat.mul_comm; apply Nat.div_mul; lia).
    rewrite H6.
    assert (Hk : 1 * (6 * (C m * 1)) = 6 * C m) by lia.
    assert (Hn : B * (6 * C m * 1) = B * (6 * C m)) by lia.
    rewrite Hk, Hn.
    destruct (Nat.eqb_spec (6 * C m) 0) as [|_]; [lia|].
    rewrite Nat.Div0.mod_mul. cbn [Nat.eqb negb orb].
    rewrite Nat.div_mul by lia.
    rewrite reshape_ok by (rewrite Hys; cbn [numel fold_right]; lia).
    eexists. split; [reflexivity|]. split; [reflexivity|]. split; [reflexivity|].
    split; [reflexivity|].
    intros n j k Hnb Hj Hkc. cbn [get]. rewrite ?Hys.
    cbn [ravel unravel numel fold_right].
    destruct (@chunk_index n j k (C m) Hj Hkc) as [Hd Hm].
    replace (n * (1 * (6 * (C m * 1))) + (0 * (6 * (C m * 1)) + (j * (C m * 1) + (k * 1 + 0))))
      with (n * (6 * C m) + (j * C m + k)) by lia.
    replace (6 * C m * 1) with (6 * C m) by lia.
    rewrite Hd, Hm, Nat.div_1_r. reflexivity.
  - intros wt bs Hs HC. rewrite Hs in Ha |- *. destruct Ha as [Hw Hb].
    destruct (@linear2_ok wt bs (tmap silu cond) (6 * C m) (C m) B Hw Hc) as (y & Hy & Hys).
    rewrite Hy. cbn [rbind]. rewrite Hw. cbn [nth].
    unfold reshape_infer. cbn [filter length fold_right map].
    rewrite HC. reflexivity.
Qed.

End AdaLin.

Lemma shared_built : VAR_init Small.vae Small.config_shared Small.init = Ok Small.shared.
Proof. vm_compute. reflexivity. Qed.

Lemma shared_ada_lin_layout_witness :
  exists r, shared_ada_lin_forward Small.shared (full [2; 4] xone) = Ok r
            /\ shape r = [2; 1; 6; 4].
Proof.
  destruct (proj1 (proj2 (@shared_ada_lin_layout _ Small.shared (full [2; 4] xone) 2
                            (VAR_init_wf _ _ _ shared_built) eq_refl))
              _ _ eq_refl ltac:(cbn; lia)) as (y & r & _ & _ & Hr & Hs & _).
  exists r. split; [exact Hr|exact Hs].
Defined.

Section BlockInputs.
Context {E : Env}.



End BlockInputs.


Section NextStage.
Context {E : Env}.


End NextStage.


Section EmptyBatch.
Context {E : Env}.

Lemma active_range_first (m : VAR) :
  wf m -> prog_si m = 0%Z -> active_range m = Ok (0, first_l m).
Proof.
  intros W Hp. unfold active_range. rewrite Hp. cbn [Z.leb Z.compare Z.to_nat].
  rewrite (wf_begin_ends W), (wf_first_l W).
  pose proof (wf_patch_nums W) as Hne.
  destruct (patch_nums m) as [|pn0 rest]; [contradiction|]. reflexivity.
Qed.

(** X16.  With [prog_si = 0] an empty batch is not accepted: the blocks and
    the head run on the empty token map, and the keep-alive line 250 then
    reads [x_BLC[0, 0, 0]], which raises IndexError. *)
Theorem first_stage_rejects_empty_batch (label_B : Tensor Z) (x : Tensor xreal)
    (w : World) (Lt : nat) :
  wf (self w) -> contract (self w) ->
  prog_si (self w) = 0%Z ->
  shape label_B = [0] ->
  shape x = [0; Lt; Cvae (self w)] ->
  (shared_ada_lin (self w) = None \/ 0 < C (self w)) ->
  exists w' y0,
    forward_logits label_B x w = (w', Ok y0)
    /\ shape y0 = [0; first_l (self w); V (self w)]
    /\ forward label_B x w = (w', Raise IndexError).
Proof.
  intros W Hc Hp Hl Hx Hada.
  pose proof (active_range_first W Hp) as Har.
  destruct (@forward_prepare_run _ label_B x w 0 Lt 0 (first_l (self w)) W Hl
              ltac:(intros k Hk; lia) Hx Hada Har) as [Hok _].
  rewrite Hp in Hok. cbn [Z.eqb] in Hok.
  destruct (Hok eq_refl) as (i & Hi & Hxs & Hbs & Hcs).
  set (w1 := {| self := self w; ambient := snd (torch_rand 0 (ambient w)) |}) in *.
  destruct (@call_blocks_plain _ (self w) (in_x_BLC i) (in_cond_BD_or_gss i)
                               (Some (in_attn_bias i)) w1 Hc)
    as (bs & y & Hcb & Hys & _).
  set (w2 := {| self := set_blocks bs (self w1); ambient := ambient w1 |}) in *.
  rewrite Hxs in Hys.
  destruct (@get_logits_plain _ (self w2) y (in_cond_BD i) xone xone 0 (first_l (self w)))
    as [Hgl Hgls].
  { apply contract_set_blocks. exact Hc. }
  { exact Hys. }
  { exact py_truediv_one. }
  assert (Hfl : forward_logits label_B x w
                = (w2, Ok (scale xone (head (head_nm y (in_cond_BD i)))))).
  { unfold forward_logits. erewrite mbind_run by exact Hi.
    erewrite mbind_run by exact Hcb.
    unfold mbind, lift, get_self. rewrite Hgl. reflexivity. }
  exists w2, (scale xone (head (head_nm y (in_cond_BD i)))).
  split; [exact Hfl|]. split; [exact Hgls|].
  unfold forward. erewrite mbind_run by exact Hfl.
  erewrite mbind_run by reflexivity.
  cbn [self set_blocks prog_si w2 w1]. rewrite Hp. cbn [Z.eqb].
  unfold lift, keep_alive, item. rewrite Hgls. reflexivity.
Qed.

End EmptyBatch.

Lemma first_stage_rejects_empty_batch_witness :
  exists w', forward (full [0] 1%Z) (full [0; 13; 2] xone) (Small.world 0)
             = (w', Raise IndexError).
Proof.
  destruct (@first_stage_rejects_empty_batch _ (full [0] 1%Z) (full [0; 13; 2] xone)
              (Small.world 0) 13
              (wf_set_prog_si 0 small_wf) (small_model_contract 0)
              eq_refl eq_refl eq_refl (or_introl eq_refl))
    as (w' & y0 & _ & _ & H).
  exists w'. exact H.
Defined.

(** ** Generation: the stages of a call, and calls that raise *)

Section Stages.
Context {E : Env}.

(** Every record of a returning call, with the ratio of its stage worked
    out, the output the stage appended and what the stage ran. *)
Lemma infer_logged_stages B label_B g_seed cfg top_k top_p returns_vemb gumbel tau
    (w w' : World) out log :
  wf (self w) ->
  infer_logged B label_B g_seed cfg top_k top_p returns_vemb gumbel tau w
  = (w', Ok (out, log)) ->
  let n := length (patch_nums (self w)) in
  2 <= n /\ length log = n /\ length out = n
  /\ exists w1 sel cond lvl_pos st0,
       infer_prologue B label_B g_seed w = (w1, Ok (sel, cond, lvl_pos, st0))
       /\ forall si e, nth_error log si = Some e ->
            let ratio := Fin (Q2Qc (inject_Z (Z.of_nat si))
                              / Q2Qc (inject_Z (Z.of_nat (n - 1))))%Qc in
            log_si e = si
            /\ log_t e = xmul cfg ratio
            /\ cfg_merge B (log_t e) (log_raw e) = Ok (log_sampled e)
            /\ exists pn o ctm w_a w_b,
                 nth_error (patch_nums (self w)) si = Some pn
                 /\ nth_error out si = Some o
                 /\ stage_ran B sel top_k top_p gumbel tau returns_vemb cond pn ratio ctm
                              (log_raw e) (log_sampled e) o w_a w_b
                 /\ (si = 0 -> ctm = cur_token_map st0 /\ w_a = w1).
Proof.
  intros W H n.
  destruct (infer_logged_trace _ _ _ _ _ _ _ _ _ _ H)
    as (w1 & sel & cond & lvl_pos & st0 & Hp & Hll & Hlo & Htr).
  pose proof (infer_logged_inv _ _ _ _ _ _ _ _ _ _ H) as (_ & _ & _ & Hent).
  assert (Hall : forall si e, nth_error log si = Some e ->
            num_stages_minus_1 (self w) <> 0
            /\ log_si e = si
            /\ log_t e = xmul cfg (Fin (Q2Qc (inject_Z (Z.of_nat si))
                                        / Q2Qc (inject_Z (Z.of_nat (n - 1))))%Qc)
            /\ cfg_merge B (log_t e) (log_raw e) = Ok (log_sampled e)
            /\ exists pn o ctm w_a w_b,
                 nth_error (patch_nums (self w)) si = Some pn
                 /\ nth_error out si = Some o
                 /\ stage_ran B sel top_k top_p gumbel tau returns_vemb cond pn
                              (Fin (Q2Qc (inject_Z (Z.of_nat si))
                                    / Q2Qc (inject_Z (Z.of_nat (n - 1))))%Qc) ctm
                              (log_raw e) (log_sampled e) o w_a w_b
                 /\ (si = 0 -> ctm = cur_token_map st0 /\ w_a = w1)).
  { intros si e He.
    destruct (Htr _ _ He)
      as (pn & o & ctm & ratio & w_a & w_b & Hpn & Ho & Hr & Ht & Hm & Hran & H0).
    apply py_truediv_int_inv in Hr. destruct Hr as [Hn ->].
    rewrite (wf_stages W) in Ht, Hran. fold n in Ht, Hran.
    split; [lia|]. split; [exact (proj1 (Hent _ _ He))|].
    split; [exact Ht|]. split; [exact Hm|].
    exists pn, o, ctm, w_a, w_b. auto. }
  assert (Hn2 : 2 <= n).
  { pose proof (wf_patch_nums W) as Hne.
    destruct log as [|e0 log0].
    - fold n in Hll. cbn in Hll. destruct (patch_nums (self w)); [contradiction|].
      subst n. cbn in Hll. lia.
    - destruct (Hall 0 e0 eq_refl) as (Hn & _).
      rewrite (wf_stages W) in Hn. fold n in Hn. lia. }
  split; [exact Hn2|]. split; [exact Hll|]. split; [exact Hlo|].
  exists w1, sel, cond, lvl_pos, st0. split; [exact Hp|].
  intros si e He ratio. destruct (Hall _ _ He) as (_ & Hsi & Ht & Hm & Hrest).
  auto.
Qed.

End Stages.

Section GuidancePerStage.
Context {E : Env}.

(** C1.  In every call that returns there are at least two stages, and
    stage [si] of [n] stages uses [t = cfg * (si / (n - 1))], which is 0 at
    the first stage (for a finite [cfg]) and [cfg] at the last one: the
    logits [raw] of that stage come from the blocks and [get_logits] run on
    the stage's token map, the sampler is handed
    [(1 + t) * raw[:B] - t * raw[B:]], and entry [si] of the returned list
    is what the sampler drew from those guided logits.  With at least two
    stages, an accepted seed and well-behaved blocks the call returns, [raw]
    has [2B] rows, and entry [b, i, k] of the guided logits is
    [(1 + t) * raw[b, i, k] - t * raw[B + b, i, k]]. *)
Theorem guidance_ratio_per_stage (B : nat) (label_B : option label_arg)
    (g_seed : option Z) (cfg : xreal) (top_k : Z) (top_p : xreal)
    (returns_vemb : bool) (gumbel tau : xreal) (w : World) :
  wf (self w) ->
  let n := length (patch_nums (self w)) in
  let call := autoregressive_infer_cfg B label_B g_seed cfg top_k top_p
                                       returns_vemb gumbel tau in
  let ratio := fun si => Fin (Q2Qc (inject_Z (Z.of_nat si))
                              / Q2Qc (inject_Z (Z.of_nat (n - 1))))%Qc in
  let t := fun si => xmul cfg (ratio si) in
  (forall w' out, call w = (w', Ok out) ->
     2 <= n /\ length out = n
     /\ exists w1 sel cond lvl_pos st0,
          infer_prologue B label_B g_seed w = (w1, Ok (sel, cond, lvl_pos, st0))
          /\ forall si, si < n ->
               (si = 0 -> xfinite cfg = true -> t si = xzero)
               /\ (si = n - 1 -> t si = cfg)
               /\ exists pn o ctm raw lg w_a w_b,
                    nth_error (patch_nums (self w)) si = Some pn
                    /\ nth_error out si = Some o
                    /\ cfg_merge B (t si) raw = Ok lg
                    /\ stage_ran B sel top_k top_p gumbel tau returns_vemb cond pn
                                 (ratio si) ctm raw lg o w_a w_b
                    /\ (si = 0 -> ctm = cur_token_map st0 /\ w_a = w1))
  /\ (forall inv_tau,
        contract (self w) -> label_ok (self w) B label_B -> seed_ok g_seed ->
        0 < B -> 0 < Cvae (self w) ->
        (shared_ada_lin (self w) = None \/ 0 < C (self w)) ->
        py_truediv xone tau = Ok inv_tau ->
        2 <= n ->
        exists w' out sel cond,
          call w = (w', Ok out)
          /\ forall si, si < n ->
               exists pn o ctm raw lg w_a w_b,
                 nth_error (patch_nums (self w)) si = Some pn
                 /\ nth_error out si = Some o
                 /\ stage_ran B sel top_k top_p gumbel tau returns_vemb cond pn
                              (ratio si) ctm raw lg o w_a w_b
                 /\ shape raw = [2 * B; pn * pn; V (self w)]
                 /\ shape lg = [B; pn * pn; V (self w)]
                 /\ forall b i k, b < B -> i < pn * pn -> k < V (self w) ->
                      get lg [b; i; k]
                      = xsub (xmul (xadd xone (t si)) (get raw [b; i; k]))
                             (xmul (t si) (get raw [B + b; i; k]))).
Proof.
  intros W n call ratio t. split.
  - intros w' out H. apply infer_returns_logged in H. destruct H as [log H].
    destruct (@infer_logged_stages _ _ _ _ _ _ _ _ _ _ _ _ _ _ W H)
      as (Hn2 & Hll & Hlo & w1 & sel & cond & lvl_pos & st0 & Hp & Hst).
    fold n in Hn2, Hll, Hlo, Hst.
    split; [exact Hn2|]. split; [exact Hlo|].
    exists w1, sel, cond, lvl_pos, st0. split; [exact Hp|].
    intros si Hsi.
    destruct (nth_error log si) as [e|] eqn:He;
      [|apply nth_error_None in He; lia].
    destruct (Hst _ _ He) as (_ & Ht & Hm & pn & o & ctm & w_a & w_b & Hrest).
    split; [|split].
    + intros -> Hfin. subst t ratio. cbv beta. change (Z.of_nat 0) with 0%Z.
      rewrite ratio_first. apply xmul_zero_r. exact Hfin.
    + intros ->. subst t ratio. cbv beta. rewrite ratio_last by lia.
      apply xmul_one_r.
    + exists pn, o, ctm, (log_raw e), (log_sampled e), w_a, w_b.
      destruct Hrest as (H1 & H2 & H3 & H4).
      rewrite Ht in Hm. auto 6.
  - intros inv_tau Hc Hl Hseed HB HCv Hada Htau Hn2.
    destruct (@infer_logged_run _ B label_B g_seed cfg top_k top_p returns_vemb gumbel
                tau inv_tau w W Hc Hl Hseed HB HCv Hada Htau Hn2)
      as (w' & out & log & H & Hsh).
    destruct (@infer_logged_stages _ _ _ _ _ _ _ _ _ _ _ _ _ _ W H)
      as (_ & Hll & _ & w1 & sel & cond & lvl_pos & st0 & _ & Hst).
    fold n in Hll, Hst.
    exists w', out, sel, cond.
    split; [exact (infer_logged_returns _ _ _ _ _ _ _ _ _ _ H)|].
    intros si Hsi.
    destruct (nth_error log si) as [e|] eqn:He;
      [|apply nth_error_None in He; lia].
    destruct (Hst _ _ He)
      as (Hlsi & Ht & Hm & pn & o & ctm & w_a & w_b & Hpn & Ho & Hran & _).
    rewrite Forall_forall in Hsh.
    destruct (Hsh e (nth_error_In _ _ He)) as (pn' & Hpn' & Hraw & Hlg).
    rewrite Hlsi, Hpn in Hpn'. injection Hpn' as <-.
    exists pn, o, ctm, (log_raw e), (log_sampled e), w_a, w_b.
    split; [exact Hpn|]. split; [exact Ho|]. split; [exact Hran|].
    split; [exact Hraw|]. split; [exact Hlg|].
    destruct (@cfg_merge_spec B (log_t e) (log_raw e) _ _ Hraw) as (lg & Hlg' & _ & Hv).
    rewrite Hm in Hlg'. injection Hlg' as <-.
    intros b i k Hb Hi Hk. rewrite (Hv b i k Hb Hi Hk), Ht. reflexivity.
Qed.

End GuidancePerStage.

Lemma guidance_ratio_per_stage_witness :
  exists w' out,
    autoregressive_infer_cfg 2 (Some (LabelInt 1)) (Some 5%Z) (of_Z 3) 0 xzero
                             false xzero xone (Small.world (-1)) = (w', Ok out)
    /\ length out = 3
    /\ xmul (of_Z 3) (Fin (Q2Qc (inject_Z 0) / Q2Qc (inject_Z 2))%Qc) = xzero
    /\ xmul (of_Z 3) (Fin (Q2Qc (inject_Z 2) / Q2Qc (inject_Z 2))%Qc) = of_Z 3.
Proof.
  pose proof (@guidance_ratio_per_stage _ 2 (Some (LabelInt 1)) (Some 5%Z) (of_Z 3)
                0 xzero false xzero xone (Small.world (-1))
                (wf_set_prog_si (-1) small_wf)) as [HA HB].
  destruct (HB xone (small_model_contract (-1))
              ltac:(cbn; lia) eq_refl ltac:(lia) ltac:(cbn; lia) (or_introl eq_refl)
              py_truediv_one ltac:(cbn; lia)) as (w' & out & sel & cond & H & _).
  exists w', out. split; [exact H|].
  destruct (HA _ _ H) as (_ & Hlen & w1 & sel' & cond' & lvl_pos & st0 & _ & Hent).
  split; [exact Hlen|]. split.
  - destruct (Hent 0 ltac:(cbn; lia)) as (H0 & _). apply H0; reflexivity.
  - destruct (Hent 2 ltac:(cbn; lia)) as (_ & Hl & _). apply Hl; reflexivity.
Defined.

Section RaisingCalls.
Context {E : Env}.

Lemma mbind_raise_inv {A B} (c : M A) (k : A -> M B) (w w' : World) (e : exn) :
  mbind c k w = (w', Raise e) ->
  c w = (w', Raise e) \/ exists w1 a, c w = (w1, Ok a) /\ k a w1 = (w', Raise e).
Proof.
  unfold mbind. destruct (c w) as [w1 [a|e1]]; intros H; [right; eauto|].
  left. injection H as <- <-. reflexivity.
Qed.

Section Combinators.
Variable R : World -> World -> Prop.
Hypothesis R_trans : forall w1 w2 w3, R w1 w2 -> R w2 w3 -> R w1 w3.

Lemma raising_mbind {A B} (c : M A) (k : A -> M B) :
  leaves R c -> (forall a, raising_leaves R (k a)) -> raising_leaves R (mbind c k).
Proof.
  intros Hc Hk w w' e H. specialize (Hc w).
  apply mbind_raise_inv in H. destruct H as [H | (w1 & a & Hrun & H)].
  - rewrite H in Hc. exact Hc.
  - rewrite Hrun in Hc. eapply R_trans; [exact Hc|]. exact (Hk a _ _ _ H).
Qed.

Lemma raising_never {A} (c : M A) :
  (forall w, exists w' a, c w = (w', Ok a)) -> raising_leaves R c.
Proof.
  intros Hc w w' e H. destruct (Hc w) as (w1 & a & Hrun).
  rewrite Hrun in H. discriminate.
Qed.

End Combinators.

Lemma same_blocks_refl (w : World) : same_blocks w w.
Proof. reflexivity. Qed.

Lemma same_blocks_trans (w1 w2 w3 : World) :
  same_blocks w1 w2 -> same_blocks w2 w3 -> same_blocks w1 w3.
Proof. unfold same_blocks. congruence. Qed.

Lemma keeps_caching_refl (w : World) : keeps_caching w w.
Proof. intros H. exact H. Qed.

Lemma keeps_caching_trans (w1 w2 w3 : World) :
  keeps_caching w1 w2 -> keeps_caching w2 w3 -> keeps_caching w1 w3.
Proof. unfold keeps_caching. auto. Qed.

Lemma blocks_with_rng {A} (sel : rng_sel) (f : rng_state -> A * rng_state) :
  leaves same_blocks (with_rng sel f).
Proof. intros w. rewrite with_rng_eq. destruct sel; reflexivity. Qed.

Lemma blocks_resolve_rng (g_seed : option Z) : leaves same_blocks (resolve_rng g_seed).
Proof.
  intros w. unfold resolve_rng.
  destruct g_seed as [s|]; [destruct (seed_accepted s)|]; reflexivity.
Qed.

Lemma blocks_resolve_labels (B : nat) (label_B : option label_arg) (sel : rng_sel) :
  leaves same_blocks (resolve_labels B label_B sel).
Proof.
  unfold resolve_labels.
  apply (leaves_mbind same_blocks_trans); [apply (leaves_get_self _ same_blocks_refl)|].
  intros m. destruct label_B as [[z|t]|].
  - destruct (z <? 0)%Z; [apply (leaves_mret _ same_blocks_refl)|].
    destruct (z <? 2 ^ 63)%Z;
      [apply (leaves_mret _ same_blocks_refl) | apply (leaves_lift _ same_blocks_refl)].
  - apply (leaves_mret _ same_blocks_refl).
  - apply (leaves_mbind same_blocks_trans); [apply blocks_with_rng|].
    intros r. apply (leaves_lift _ same_blocks_refl).
Qed.

(** A call that raises before the stage loop has not touched the blocks:
    enabling caching (line 179) is the last thing done before the loop. *)
Lemma infer_prologue_raising (B : nat) (label_B : option label_arg) (g_seed : option Z) :
  raising_leaves same_blocks (infer_prologue B label_B g_seed).
Proof.
  unfold infer_prologue.
  apply (raising_mbind same_blocks_trans); [apply blocks_resolve_rng|]. intros sel.
  apply (raising_mbind same_blocks_trans); [apply blocks_resolve_labels|]. intros lb.
  apply (raising_mbind same_blocks_trans);
    [apply (leaves_get_self _ same_blocks_refl)|]. intros m.
  do 4 (apply (raising_mbind same_blocks_trans);
        [apply (leaves_lift _ same_blocks_refl)|]; intros ?).
  apply raising_never. intros w. eexists _, _. reflexivity.
Qed.

Lemma run_blocks_caching (c : Tensor xreal) (b : option (Tensor xreal)) :
  blocks_keep_flag ->
  forall bs i x,
    Forall (fun s => caching s = true) bs ->
    Forall (fun s => caching s = true) (fst (run_blocks i bs x c b)).
Proof.
  intros Hkeep. induction bs as [|s rest IH]; intros i x Hall; cbn [run_blocks].
  - constructor.
  - inversion Hall as [|s0 rest0 Hs Hrest]; subst.
    pose proof (Hkeep i s x c b) as Hflag.
    destruct (block_forward i s x c b) as [s' x'].
    specialize (IH (S i) x' Hrest).
    destruct (run_blocks (S i) rest x' c b) as [rest' x''].
    cbn [fst] in *. constructor; [congruence | exact IH].
Qed.

Lemma caching_call_blocks (x : hidden) (c : Tensor xreal) (b : option (Tensor xreal)) :
  blocks_keep_flag -> leaves keeps_caching (call_blocks x c b).
Proof.
  intros Hkeep w Hall. unfold call_blocks.
  pose proof (@run_blocks_caching c b Hkeep (blocks (self w)) 0 x Hall) as Hr.
  destruct (run_blocks 0 (blocks (self w)) x c b) as [bs y].
  exact Hr.
Qed.

Lemma caching_with_rng {A} (sel : rng_sel) (f : rng_state -> A * rng_state) :
  leaves keeps_caching (with_rng sel f).
Proof. intros w H. rewrite with_rng_eq. destruct sel; exact H. Qed.

Ltac caching_step Hkeep :=
  first
    [ apply (leaves_mret _ keeps_caching_refl) | apply (leaves_lift _ keeps_caching_refl)
    | apply (leaves_get_self _ keeps_caching_refl)
    | apply (caching_call_blocks _ _ _ Hkeep) | apply caching_with_rng
    | apply (leaves_mbind keeps_caching_trans); [|intros ?]
    | match goal with
      | |- leaves _ (match ?x with _ => _ end) => destruct x
      | |- leaves _ (if ?x then _ else _) => destruct x
      | |- leaves _ (let (_, _) := ?x in _) => destruct x
      end ].

(** No stage switches caching off, whether it returns or raises. *)
Lemma caching_infer_stage B sel cfg top_k top_p returns_vemb gumbel tau cond lvl_pos
    si pn st :
  blocks_keep_flag ->
  leaves keeps_caching
    (infer_stage B sel cfg top_k top_p returns_vemb gumbel tau cond lvl_pos si pn st).
Proof.
  intros Hkeep. unfold infer_stage, stage_logits, stage_sample, stage_next.
  repeat caching_step Hkeep.
Qed.

Lemma caching_infer_loop B sel cfg top_k top_p returns_vemb gumbel tau cond lvl_pos pns :
  blocks_keep_flag ->
  forall si st log,
    leaves keeps_caching
      (infer_loop B sel cfg top_k top_p returns_vemb gumbel tau cond lvl_pos
                  si pns st log).
Proof.
  intros Hkeep. induction pns as [|pn pns IH]; intros si st log; cbn [infer_loop].
  - apply (leaves_mret _ keeps_caching_refl).
  - apply (leaves_mbind keeps_caching_trans);
      [apply caching_infer_stage, Hkeep|]. intros [st' e]. apply IH.
Qed.

End RaisingCalls.

Section CachingBracket.
Context {E : Env}.

(** C6.  A call of [autoregressive_infer_cfg] that gets to the stage loop
    enters it with caching enabled on every block (line 179).  A call that
    returns went through the loop, started from that state on the whole
    stage list, and then through [kv_caching(False)] on every block
    (line 212): on return every block is idle (caching off, cache empty) and
    the list returned has one entry per stage, entry [si] being what the
    sampler of stage [si] drew, the first stage run from the state and the
    token map the prologue left.  With at least two stages, an accepted seed,
    labels in range and well-behaved blocks the call does return.  A call
    that raises either raised before the loop, the blocks untouched, or
    raised inside the loop, and then line 212 is not run: if the blocks do
    not switch the flag themselves, caching is still enabled on every block
    when the exception leaves the call. *)
Theorem generation_brackets_caching (B : nat) (label_B : option label_arg)
    (g_seed : option Z) (cfg : xreal) (top_k : Z) (top_p : xreal)
    (returns_vemb : bool) (gumbel tau : xreal) :
  let call := autoregressive_infer_cfg B label_B g_seed cfg top_k top_p
                                       returns_vemb gumbel tau in
  let loop := fun sel cond lvl_pos st w1 =>
                infer_loop B sel cfg top_k top_p returns_vemb gumbel tau cond lvl_pos
                           0 (patch_nums (self w1)) st [] w1 in
  (forall w w' out, call w = (w', Ok out) ->
     exists w1 sel cond lvl_pos st w2 st' log,
       infer_prologue B label_B g_seed w = (w1, Ok (sel, cond, lvl_pos, st))
       /\ all_caching (self w1)
       /\ loop sel cond lvl_pos st w1 = (w2, Ok (st', log))
       /\ w' = fst (kv_caching_all false w2)
       /\ out = ret st'
       /\ all_idle (self w')
       /\ length out = length (patch_nums (self w))
       /\ forall si pn, nth_error (patch_nums (self w)) si = Some pn ->
            exists o ctm ratio raw lg w_a w_b,
              nth_error out si = Some o
              /\ py_truediv_int (Z.of_nat si)
                                (Z.of_nat (num_stages_minus_1 (self w))) = Ok ratio
              /\ stage_ran B sel top_k top_p gumbel tau returns_vemb cond pn ratio ctm
                           raw lg o w_a w_b
              /\ (si = 0 -> ctm = cur_token_map st /\ w_a = w1))
  /\ (forall w inv_tau,
        wf (self w) -> contract (self w) -> label_ok (self w) B label_B ->
        seed_ok g_seed ->
        0 < B -> 0 < Cvae (self w) ->
        (shared_ada_lin (self w) = None \/ 0 < C (self w)) ->
        py_truediv xone tau = Ok inv_tau ->
        2 <= length (patch_nums (self w)) ->
        exists w' out, call w = (w', Ok out))
  /\ (forall w w' e, call w = (w', Raise e) ->
        (infer_prologue B label_B g_seed w = (w', Raise e)
         /\ blocks (self w') = blocks (self w))
        \/ exists w1 sel cond lvl_pos st,
             infer_prologue B label_B g_seed w = (w1, Ok (sel, cond, lvl_pos, st))
             /\ all_caching (self w1)
             /\ loop sel cond lvl_pos st w1 = (w', Raise e)
             /\ (blocks_keep_flag -> all_caching (self w'))).
Proof.
  intros call loop. split; [|split].
  - intros w w' out H. apply infer_returns_logged in H. destruct H as [log H].
    pose proof (infer_logged_inv _ _ _ _ _ _ _ _ _ _ H) as (Hidle & Hlen & _).
    destruct (infer_logged_trace _ _ _ _ _ _ _ _ _ _ H)
      as (w1 & sel & cond & lvl_pos & st & Hp & Hll & _ & Htr).
    unfold infer_logged in H.
    erewrite mbind_run in H by exact Hp. cbv beta iota in H.
    erewrite mbind_run in H by reflexivity.
    apply mbind_ok_inv in H. destruct H as (w2 & [st' log'] & Hl & H).
    apply mbind_ok_inv in H. destruct H as (w3 & u & Hd & H).
    unfold mret in H. injection H as <- <- <-.
    exists w1, sel, cond, lvl_pos, st, w2, st', log'.
    split; [exact Hp|]. split; [exact (infer_prologue_caching _ _ _ _ Hp)|].
    split; [exact Hl|]. rewrite Hd. split; [reflexivity|]. split; [reflexivity|].
    split; [exact Hidle|]. split; [exact Hlen|].
    intros si pn Hpn.
    destruct (nth_error log' si) as [e|] eqn:He.
    2:{ apply nth_error_None in He. rewrite Hll in He.
        apply nth_error_None in He. congruence. }
    destruct (Htr _ _ He)
      as (pn' & o & ctm & ratio & w_a & w_b & Hpn' & Ho & Hr & _ & _ & Hran & H0).
    rewrite Hpn in Hpn'. injection Hpn' as <-.
    exists o, ctm, ratio, (log_raw e), (log_sampled e), w_a, w_b. auto.
  - intros w inv_tau W Hc Hl Hseed HB HCv Hada Htau Hlen.
    destruct (@infer_logged_run _ B label_B g_seed cfg top_k top_p returns_vemb gumbel
                tau inv_tau w W Hc Hl Hseed HB HCv Hada Htau Hlen)
      as (w' & out & log & H & _).
    exists w', out. exact (infer_logged_returns _ _ _ _ _ _ _ _ _ _ H).
  - intros w w' e H. unfold call, autoregressive_infer_cfg in H.
    apply mbind_raise_inv in H. destruct H as [H | (w2 & r & _ & H)];
      [|unfold mret in H; discriminate].
    unfold infer_logged in H.
    apply mbind_raise_inv in H.
    destruct H as [H | (w1 & [[[sel cond] lvl_pos] st] & Hp & H)].
    + left. split; [exact H|]. exact (@infer_prologue_raising _ B label_B g_seed _ _ _ H).
    + right. exists w1, sel, cond, lvl_pos, st.
      pose proof (infer_prologue_caching _ _ _ _ Hp) as Hcach.
      split; [exact Hp|]. split; [exact Hcach|].
      apply mbind_raise_inv in H. destruct H as [H | (w1' & m & Hm & H)];
        [unfold get_self in H; discriminate|].
      apply get_self_inv in Hm. destruct Hm as [-> ->].
      apply mbind_raise_inv in H. destruct H as [H | (w2 & [st' log] & _ & H)].
      * split; [exact H|]. intros Hkeep.
        pose proof (@caching_infer_loop _ B sel cfg top_k top_p returns_vemb gumbel tau
                      cond lvl_pos (patch_nums (self w1)) Hkeep 0 st [] w1) as Hk.
        rewrite H in Hk. exact (Hk Hcach).
      * exfalso. apply mbind_raise_inv in H.
        destruct H as [H | (w3 & u & _ & H)]; discriminate.
Qed.

End CachingBracket.

Lemma generation_brackets_caching_witness :
  exists w' out,
    autoregressive_infer_cfg 2 (Some (LabelInt 1)) (Some 5%Z) (of_Z 3) 0 xzero
                             false xzero xone (Small.world (-1)) = (w', Ok out)
    /\ all_idle (self w') /\ length out = 3.
Proof.
  pose proof (generation_brackets_caching 2 (Some (LabelInt 1)) (Some 5%Z) (of_Z 3)
                0 xzero false xzero xone) as (Hret & Hrun & _).
  destruct (Hrun (Small.world (-1)) xone
              (wf_set_prog_si (-1) small_wf) (small_model_contract (-1))
              ltac:(cbn; lia) eq_refl ltac:(lia) ltac:(cbn; lia) (or_introl eq_refl)
              py_truediv_one ltac:(cbn; lia)) as (w' & out & H).
  exists w', out. split; [exact H|].
  destruct (Hret _ _ _ H)
    as (w1 & sel & cond & lvl_pos & st & w2 & st' & log & _ & _ & _ & _ & _ & Hi & Hl & _).
  split; [exact Hi|exact Hl].
Defined.

(** There is no [try]/[finally] around the stage loop.  With temperature 0
    the division [1 / tau] of [get_logits] raises at the first stage, after
    line 179 has run: the call is over and an idle model is left with caching
    enabled on every block. *)
Lemma generation_can_leave_caching_enabled :
  let w := Small.world (-1) in
  let r := autoregressive_infer_cfg 2 (Some (LabelInt 1)) (Some 5%Z) (of_Z 3) 0 xzero
             false xzero xzero w in
  map (@caching _) (blocks (self w)) = [false; false]
  /\ snd r = Raise ZeroDivisionError
  /\ map (@caching _) (blocks (self (fst r))) = [true; true].
Proof. vm_compute. repeat split. Qed.
